(** * The mutation generator of msprime ([lib/mutgen.c])

    A shallow embedding of [mutgen.c]: the rate map, the arena sizing, the
    import of existing sites, the sampling loop and the export to the
    tables, followed by the properties proved about them. *)

From Stdlib Require Import ZArith List Bool Lia Floats Strings.Byte Sorted.
From stdpp Require Import base list.

#[local] Open Scope nat_scope.

(** ** C doubles

    A C [double] is an IEEE 754 binary64 number: the kernel's primitive
    floats.  The comparison operators of C are the IEEE ones, so every
    comparison with a NaN is false, except [!=] which is true. *)

Definition double : Type := float.

Definition dlt (a b : double) : bool := (a <? b)%float.          (* a < b *)
Definition dgt (a b : double) : bool := (b <? a)%float.          (* a > b *)
Definition dle (a b : double) : bool := (a <=? b)%float.         (* a <= b *)
Definition dge (a b : double) : bool := (b <=? a)%float.         (* a >= b *)
Definition deq (a b : double) : bool := (a =? b)%float.          (* a == b *)
Definition dne (a b : double) : bool := negb (a =? b)%float.     (* a != b *)

(** [DBL_MAX] of <float.h>. *)
Definition DBL_MAX : double := 0x1.fffffffffffffp+1023%float.

(** GSL's macros: [GSL_MAX(a,b) ((a) > (b) ? (a) : (b))] and
    [GSL_MIN(a,b) ((a) < (b) ? (a) : (b))], on doubles and on [size_t]. *)
Definition GSL_MAX_dbl (a b : double) : double := if dgt a b then a else b.
Definition GSL_MIN_dbl (a b : double) : double := if dlt a b then a else b.
Definition GSL_MAX (a b : nat) : nat := if b <? a then a else b.

(** ** Outcomes

    A C function of the model either returns, or leaves the model (a read
    outside an array or of a cell never written, a failed [assert]), or has
    not returned when the fuel given to its unbounded loops ran out. *)

Inductive outcome (A : Type) : Type :=
| Done (a : A)
| Crash
| OutOfFuel.
Arguments Done {A} a.
Arguments Crash {A}.
Arguments OutOfFuel {A}.

#[global] Instance outcome_ret : MRet outcome := fun A a => Done a.
#[global] Instance outcome_bind : MBind outcome := fun A B f m =>
  match m with
  | Done a => f a
  | Crash => Crash
  | OutOfFuel => OutOfFuel
  end.

(** [a[i]] for an array the caller owns. *)
Definition load {A : Type} (a : list A) (i : nat) : outcome A :=
  match a !! i with
  | Some x => Done x
  | None => Crash
  end.

(** A block obtained from [malloc]: its cells hold nothing until written. *)
Definition block : Type := list (option double).

(** [a[i]] for a block.  In C the read of a cell never written gives an
    indeterminate value and the function goes on with it; the model leaves
    with [Crash] there, so a run that is [Done] has read written cells
    only.  What the code does for each value such a cell may hold is stated
    by writing that value into the cell. *)
Definition load_cell (a : block) (i : nat) : outcome double :=
  match a !! i with
  | Some (Some x) => Done x
  | _ => Crash
  end.

Definition store_cell (a : block) (i : nat) (x : double) : outcome block :=
  if i <? length a then Done (<[i := Some x]> a) else Crash.

(** ** Identifiers and return codes *)

Definition node_id_t : Type := Z.
Definition site_id_t : Type := Z.
Definition mutation_id_t : Type := Z.

(** Modelled from the spec: the null id of the tables library ("parent =
    null"), whose header is not in [mutgen.c]. *)
Definition TSK_NULL : Z := (-1)%Z.

(** The ids of the tables library are signed integers of 32 bits
    ([int32_t]); [wrap_id z] is the id a sum [z] of two ids comes out as,
    the sum wrapped around to [[-2^31, 2^31)]. *)
Definition id_in_range (z : Z) : bool := ((- 2 ^ 31 <=? z) && (z <? 2 ^ 31))%Z.

Definition wrap_id (z : Z) : Z := ((z + 2 ^ 31) mod 2 ^ 32 - 2 ^ 31)%Z.

(** The sizes of the tables library ([tsk_size_t]) are unsigned integers of
    32 bits; [tsk_size_wrap n] is the size an expression of value [n] comes
    out as. *)
Definition tsk_size_wrap (n : nat) : nat := Z.to_nat (Z.of_nat n mod 2 ^ 32).

(** Modelled from the spec: the error codes the operations of the tables
    library return in the model, negative in C. *)
Inductive tsk_err : Type :=
| TSK_ERR_NO_MEMORY
| TSK_ERR_BAD_PARAM_VALUE
| TSK_ERR_BAD_OFFSET
| TSK_ERR_NODE_OUT_OF_BOUNDS
| TSK_ERR_TABLE_OVERFLOW.

(** The [int] a function of [mutgen.c] returns: [0] or a negative
    [MSP_ERR_*]; [msp_set_tsk_error] wraps an error of the tables library. *)
Inductive msp_ret : Type :=
| MSP_OK
| MSP_ERR_NO_MEMORY
| MSP_ERR_BAD_PARAM_VALUE
| MSP_ERR_BAD_MUTATION_MAP_SIZE
| MSP_ERR_BAD_MUTATION_MAP_POSITION
| MSP_ERR_BAD_MUTATION_MAP_RATE
| MSP_ERR_INCOMPATIBLE_MUTATION_MAP
| MSP_ERR_DUPLICATE_SITE_POSITION
| msp_set_tsk_error (e : tsk_err).

Definition is_ok (r : msp_ret) : bool :=
  match r with MSP_OK => true | _ => false end.

#[global] Instance tsk_err_eq_dec : EqDecision tsk_err.
Proof. solve_decision. Defined.

#[global] Instance msp_ret_eq_dec : EqDecision msp_ret.
Proof. solve_decision. Defined.

(** Modelled from the spec: the constants of [msprime.h], which is not in
    [mutgen.c]: the two alphabets ("binary", "nucleotide"; [mutgen_generate]
    tests the alphabet against [0]) and the flag that keeps the existing
    sites. *)
Definition MSP_ALPHABET_BINARY : Z := 0%Z.
Definition MSP_ALPHABET_NUCLEOTIDE : Z := 1%Z.
Definition MSP_KEEP_SITES : Z := 1%Z.

(** ** What the generator takes from outside

    The random number generator of GSL with the three samplers the
    generator calls, the system allocator, the sizes of the records kept in
    the arena, and the number of rows a table can hold. *)

Class Platform : Type := {
  gsl_rng : Type;
  gsl_ran_poisson : gsl_rng -> double -> nat * gsl_rng;
  gsl_ran_flat : gsl_rng -> double -> double -> double * gsl_rng;
  gsl_rng_uniform_int : gsl_rng -> nat -> nat * gsl_rng;
  (** [malloc_ok n]: [malloc(n)] returns a block. *)
  malloc_ok : nat -> bool;
  (** [chunk_ok k n]: the system grants the arena a block of [n] bytes when
      it already holds [k] blocks. *)
  chunk_ok : nat -> nat -> bool;
  sizeof_site : nat;
  sizeof_mutation : nat;
  sizeof_avl_node : nat;
  (** Rows a site or mutation table can hold before [add_row] fails. *)
  tsk_max_rows : nat
}.

Definition sizeof_double : nat := 8.

(** The default block size of the arena, 8192 bytes. *)
Definition default_block_size : nat := 64 * 128.

(** ** Records *)

Record mutation_type_t : Type := {
  mt_ancestral_state : list byte;
  mt_derived_state : list byte
}.

Definition mutation_type (a d : byte) : mutation_type_t :=
  {| mt_ancestral_state := [a]; mt_derived_state := [d] |}.

Definition binary_mutation_types : list mutation_type_t :=
  [ mutation_type "0" "1" ].

Definition acgt_mutation_types : list mutation_type_t :=
  [ mutation_type "A" "C"; mutation_type "A" "G"; mutation_type "A" "T";
    mutation_type "C" "A"; mutation_type "C" "G"; mutation_type "C" "T";
    mutation_type "G" "A"; mutation_type "G" "C"; mutation_type "G" "T";
    mutation_type "T" "A"; mutation_type "T" "C"; mutation_type "T" "G" ].

(** [tsk_mutation_t], the fields the generator touches.  [mut_id] is the
    flag of the source: [1] for a mutation read from the tables, [0] for
    one the generator made. *)
Record tsk_mutation_t : Type := {
  mut_id : Z;
  mut_node : node_id_t;
  mut_parent : mutation_id_t;
  mut_derived_state : list byte;
  mut_metadata : list byte
}.

(** [tsk_site_t]; the lengths of the source are the lengths of the lists. *)
Record tsk_site_t : Type := {
  position : double;
  ancestral_state : list byte;
  metadata : list byte;
  mutations : list tsk_mutation_t
}.

(** [cmp_site]: [(a > b) - (a < b)] on the positions. *)
Definition cmp_site (a b : tsk_site_t) : Z :=
  (Z.b2z (dgt (position a) (position b)) - Z.b2z (dlt (position a) (position b)))%Z.

(** The rate map of [mutgen_t]: [size] and two blocks, [NULL] as [None]. *)
Record mutation_map_t : Type := {
  map_size : nat;
  map_position : option block;
  map_rate : option block
}.

(** Modelled from the spec: the arena allocator ([tsk_blkalloc_t]), whose
    code is not in [mutgen.c].  A list of blocks of one capacity, of which
    the model keeps the capacity, the number of blocks held and the fill of
    the current block. *)
Record tsk_blkalloc_t : Type := {
  chunk_size : nat;
  num_chunks : nat;
  blk_top : nat
}.

Record mutgen_t : Type := {
  alphabet : Z;
  start_time : double;
  end_time : double;
  block_size : nat;
  sites : list tsk_site_t;
  allocator : tsk_blkalloc_t;
  mutation_map : mutation_map_t
}.

Definition set_block_size (self : mutgen_t) (n : nat) : mutgen_t :=
  {| alphabet := alphabet self; start_time := start_time self;
     end_time := end_time self; block_size := n; sites := sites self;
     allocator := allocator self; mutation_map := mutation_map self |}.

Definition set_sites (self : mutgen_t) (s : list tsk_site_t) : mutgen_t :=
  {| alphabet := alphabet self; start_time := start_time self;
     end_time := end_time self; block_size := block_size self; sites := s;
     allocator := allocator self; mutation_map := mutation_map self |}.

Definition set_allocator (self : mutgen_t) (a : tsk_blkalloc_t) : mutgen_t :=
  {| alphabet := alphabet self; start_time := start_time self;
     end_time := end_time self; block_size := block_size self;
     sites := sites self; allocator := a; mutation_map := mutation_map self |}.

Definition set_mutation_map (self : mutgen_t) (m : mutation_map_t) : mutgen_t :=
  {| alphabet := alphabet self; start_time := start_time self;
     end_time := end_time self; block_size := block_size self;
     sites := sites self; allocator := allocator self; mutation_map := m |}.

Definition set_time_interval (self : mutgen_t) (s e : double) : mutgen_t :=
  {| alphabet := alphabet self; start_time := s; end_time := e;
     block_size := block_size self; sites := sites self;
     allocator := allocator self; mutation_map := mutation_map self |}.

(** ** The tables

    Columns as the tables library lays them out: one list per column, a
    text column as its bytes and the offsets of its rows.  The number of
    rows of a table is the length of its first column. *)

Record tsk_node_table_t : Type := {
  node_time : list double
}.

Record tsk_edge_table_t : Type := {
  edge_left : list double;
  edge_right : list double;
  edge_parent : list node_id_t;
  edge_child : list node_id_t
}.

Record tsk_site_table_t : Type := {
  site_position : list double;
  site_ancestral_state : list byte;
  site_ancestral_state_offset : list nat;
  site_metadata : list byte;
  site_metadata_offset : list nat
}.

Record tsk_mutation_table_t : Type := {
  mutation_site : list site_id_t;
  mutation_node : list node_id_t;
  mutation_parent : list mutation_id_t;
  mutation_derived_state : list byte;
  mutation_derived_state_offset : list nat;
  mutation_metadata : list byte;
  mutation_metadata_offset : list nat
}.

Record tsk_table_collection_t : Type := {
  sequence_length : double;
  tc_nodes : tsk_node_table_t;
  tc_edges : tsk_edge_table_t;
  tc_sites : tsk_site_table_t;
  tc_mutations : tsk_mutation_table_t
}.

Definition node_num_rows (t : tsk_node_table_t) : nat := length (node_time t).
Definition edge_num_rows (t : tsk_edge_table_t) : nat := length (edge_left t).
Definition site_num_rows (t : tsk_site_table_t) : nat := length (site_position t).
Definition mutation_num_rows (t : tsk_mutation_table_t) : nat :=
  length (mutation_site t).

Definition set_site_mutation_tables (tables : tsk_table_collection_t)
    (s : tsk_site_table_t) (m : tsk_mutation_table_t) : tsk_table_collection_t :=
  {| sequence_length := sequence_length tables; tc_nodes := tc_nodes tables;
     tc_edges := tc_edges tables; tc_sites := s; tc_mutations := m |}.

(** Modelled from the spec: the check of the tables before use, whose code
    is not in [mutgen.c] ("consistent offsets, in-range node references").
    That every column of a table has one entry per row, and that a parent
    is a value of [mutation_id_t], hold of a table in C by construction;
    they are checked here because the columns of the model are separate
    lists of unbounded integers. *)
Fixpoint offsets_sorted (offset : list nat) : bool :=
  match offset with
  | a :: (b :: _) as r => (a <=? b) && offsets_sorted r
  | _ => true
  end.

Definition offsets_ok (num_rows : nat) (offset : list nat) (len : nat) : bool :=
  (length offset =? num_rows + 1)
  && bool_decide (offset !! 0 = Some 0)
  && bool_decide (offset !! num_rows = Some len)
  && offsets_sorted offset.

Definition node_in_bounds (num_nodes : nat) (n : node_id_t) : bool :=
  ((0 <=? n) && (n <? Z.of_nat num_nodes))%Z.

Definition columns_ok (tables : tsk_table_collection_t) : bool :=
  let e := tc_edges tables in
  let m := tc_mutations tables in
  (length (edge_right e) =? edge_num_rows e)
  && (length (edge_parent e) =? edge_num_rows e)
  && (length (edge_child e) =? edge_num_rows e)
  && (length (mutation_node m) =? mutation_num_rows m)
  && (length (mutation_parent m) =? mutation_num_rows m)
  && forallb id_in_range (mutation_parent m).

Definition tsk_table_collection_check_integrity (tables : tsk_table_collection_t)
    : option tsk_err :=
  let n := node_num_rows (tc_nodes tables) in
  let e := tc_edges tables in
  let s := tc_sites tables in
  let m := tc_mutations tables in
  if negb (columns_ok tables) then Some TSK_ERR_BAD_PARAM_VALUE
  else if negb (forallb (node_in_bounds n) (edge_parent e)
                && forallb (node_in_bounds n) (edge_child e)
                && forallb (node_in_bounds n) (mutation_node m))
  then Some TSK_ERR_NODE_OUT_OF_BOUNDS
  else if negb (offsets_ok (site_num_rows s) (site_ancestral_state_offset s)
                  (length (site_ancestral_state s))
                && offsets_ok (site_num_rows s) (site_metadata_offset s)
                     (length (site_metadata s))
                && offsets_ok (mutation_num_rows m) (mutation_derived_state_offset m)
                     (length (mutation_derived_state m))
                && offsets_ok (mutation_num_rows m) (mutation_metadata_offset m)
                     (length (mutation_metadata m)))
  then Some TSK_ERR_BAD_OFFSET
  else None.

(** Modelled from the spec: the site registry ([avl_tree_t] of sites, whose
    code is not in [mutgen.c]): "a position-ordered, duplicate-rejecting
    associative structure", kept as the list of its in-order traversal.
    [avl_search] finds a site that [cmp_site] equates with the key;
    [avl_insert_node] refuses ([NULL]) a site that [avl_search] finds and
    otherwise places it before the first site that compares greater. *)
Definition avl_search (tree : list tsk_site_t) (key : tsk_site_t) : option tsk_site_t :=
  find (fun x => (cmp_site key x =? 0)%Z) tree.

Fixpoint avl_place (tree : list tsk_site_t) (s : tsk_site_t) : list tsk_site_t :=
  match tree with
  | [] => [s]
  | x :: r => if (cmp_site s x <? 0)%Z then s :: x :: r else x :: avl_place r s
  end.

Definition avl_insert_node (tree : list tsk_site_t) (s : tsk_site_t)
    : option (list tsk_site_t) :=
  match avl_search tree s with
  | Some _ => None
  | None => Some (avl_place tree s)
  end.

Definition avl_clear_tree (tree : list tsk_site_t) : list tsk_site_t := [].

Section Mutgen.

Context {P : Platform}.

(** ** The rate map: [mutgen_set_map], [mutgen_set_rate] *)

(** [malloc(n * sizeof(double))]: a block of [n] cells, or [NULL]. *)
Definition malloc_doubles (n : nat) : option block :=
  if malloc_ok (n * sizeof_double) then Some (replicate n None) else None.

(** The [for] loop of [mutgen_set_map] from index [j], [n] rounds left, on
    the two blocks just allocated. *)
Fixpoint mutgen_set_map_loop (position rate : list double) (n j : nat)
    (mp mr : block) : outcome (msp_ret * block * block) :=
  match n with
  | 0 => Done (MSP_OK, mp, mr)
  | S n' =>
      bad ← (if 0 <? j
             then a ← load position (j - 1); b ← load position j; Done (dge a b)
             else Done false);
      if (bad : bool) then Done (MSP_ERR_BAD_MUTATION_MAP_POSITION, mp, mr)
      else
        r ← load rate j;
        if dlt r 0%float then Done (MSP_ERR_BAD_MUTATION_MAP_RATE, mp, mr)
        else
          p ← load position j;
          mp' ← store_cell mp j p;
          mr' ← store_cell mr j r;
          mutgen_set_map_loop position rate n' (S j) mp' mr'
  end.

Definition mutgen_set_map (self : mutgen_t) (size : nat)
    (position rate : list double) : outcome (msp_ret * mutgen_t) :=
  (* msp_safe_free of both arrays, then the two malloc *)
  let mp := malloc_doubles (size + 1) in
  let mr := malloc_doubles size in
  let old_size := map_size (mutation_map self) in
  let install n := set_mutation_map self
        {| map_size := n; map_position := mp; map_rate := mr |} in
  match mp, mr with
  | Some bp, Some br =>
      if size <? 1 then Done (MSP_ERR_BAD_MUTATION_MAP_SIZE, install old_size)
      else
        p0 ← load position 0;
        if dne p0 0%float then Done (MSP_ERR_BAD_MUTATION_MAP_POSITION, install old_size)
        else
          '(ret, bp', br') ← mutgen_set_map_loop position rate size 0 bp br;
          Done (ret, set_mutation_map self
                  {| map_size := size; map_position := Some bp';
                     map_rate := Some br' |})
  | _, _ => Done (MSP_ERR_NO_MEMORY, install old_size)
  end.

(** Sets a single rate over the whole region. *)
Definition mutgen_set_rate (self : mutgen_t) (rate : double)
    : outcome (msp_ret * mutgen_t) :=
  mutgen_set_map self 1 [0%float] [rate].

Definition mutgen_set_time_interval (self : mutgen_t) (start_time end_time : double)
    : msp_ret * mutgen_t :=
  if dlt end_time start_time then (MSP_ERR_BAD_PARAM_VALUE, self)
  else (MSP_OK, set_time_interval self start_time end_time).

(** ** The arena and the table operations *)

(** Modelled from the spec: the arena allocator ([tsk_blkalloc_init],
    [tsk_blkalloc_get], [tsk_blkalloc_free]), whose code is not in
    [mutgen.c]: "block size must be at least the largest single request
    seen, or allocation fails"; a request that does not fit the current
    block takes a new block from the system, which may refuse it. *)
Definition tsk_blkalloc_free (a : tsk_blkalloc_t) : tsk_blkalloc_t :=
  {| chunk_size := 0; num_chunks := 0; blk_top := 0 |}.

Definition tsk_blkalloc_init (size : nat) : option tsk_err * tsk_blkalloc_t :=
  if size <? 1
  then (Some TSK_ERR_BAD_PARAM_VALUE, {| chunk_size := 0; num_chunks := 0; blk_top := 0 |})
  else if chunk_ok 0 size
  then (None, {| chunk_size := size; num_chunks := 1; blk_top := 0 |})
  else (Some TSK_ERR_NO_MEMORY, {| chunk_size := size; num_chunks := 0; blk_top := 0 |}).

(** [tsk_blkalloc_get]: [false] is the [NULL] of the source. *)
Definition tsk_blkalloc_get (a : tsk_blkalloc_t) (size : nat) : bool * tsk_blkalloc_t :=
  if chunk_size a <? size then (false, a)
  else if chunk_size a <? blk_top a + size
  then if chunk_ok (num_chunks a) (chunk_size a)
       then (true, {| chunk_size := chunk_size a; num_chunks := S (num_chunks a);
                      blk_top := size |})
       else (false, a)
  else (true, {| chunk_size := chunk_size a; num_chunks := num_chunks a;
                 blk_top := blk_top a + size |}).

(** Modelled from the spec: the append and clear operations of the site and
    mutation tables, whose code is not in [mutgen.c]: an append returns the
    index of the new row, or fails and leaves the table as it was. *)
Definition tsk_site_table_clear (t : tsk_site_table_t) : tsk_site_table_t :=
  {| site_position := []; site_ancestral_state := [];
     site_ancestral_state_offset := [0]; site_metadata := [];
     site_metadata_offset := [0] |}.

Definition tsk_mutation_table_clear (t : tsk_mutation_table_t) : tsk_mutation_table_t :=
  {| mutation_site := []; mutation_node := []; mutation_parent := [];
     mutation_derived_state := []; mutation_derived_state_offset := [0];
     mutation_metadata := []; mutation_metadata_offset := [0] |}.

Definition tsk_site_table_add_row (t : tsk_site_table_t) (position : double)
    (ancestral_state metadata : list byte) : (tsk_err + site_id_t) * tsk_site_table_t :=
  if tsk_max_rows <=? site_num_rows t then (inl TSK_ERR_TABLE_OVERFLOW, t)
  else
    (inr (Z.of_nat (site_num_rows t)),
     {| site_position := site_position t ++ [position];
        site_ancestral_state := site_ancestral_state t ++ ancestral_state;
        site_ancestral_state_offset :=
          site_ancestral_state_offset t
            ++ [length (site_ancestral_state t ++ ancestral_state)];
        site_metadata := site_metadata t ++ metadata;
        site_metadata_offset :=
          site_metadata_offset t ++ [length (site_metadata t ++ metadata)] |}).

Definition tsk_mutation_table_add_row (t : tsk_mutation_table_t) (site : site_id_t)
    (node : node_id_t) (parent : mutation_id_t) (derived_state metadata : list byte)
    : (tsk_err + mutation_id_t) * tsk_mutation_table_t :=
  if tsk_max_rows <=? mutation_num_rows t then (inl TSK_ERR_TABLE_OVERFLOW, t)
  else
    (inr (Z.of_nat (mutation_num_rows t)),
     {| mutation_site := mutation_site t ++ [site];
        mutation_node := mutation_node t ++ [node];
        mutation_parent := mutation_parent t ++ [parent];
        mutation_derived_state := mutation_derived_state t ++ derived_state;
        mutation_derived_state_offset :=
          mutation_derived_state_offset t
            ++ [length (mutation_derived_state t ++ derived_state)];
        mutation_metadata := mutation_metadata t ++ metadata;
        mutation_metadata_offset :=
          mutation_metadata_offset t ++ [length (mutation_metadata t ++ metadata)] |}).

(** Modelled from the spec: [tsk_search_sorted], whose code is not in
    [mutgen.c]: "search returns the insertion point", the number of leading
    breakpoints below the value. *)
Fixpoint tsk_search_sorted (a : list double) (value : double) : nat :=
  match a with
  | [] => 0
  | x :: r => if dlt x value then S (tsk_search_sorted r value) else 0
  end.

(** ** [mutgen_alloc] *)

Definition mutgen_alloc (alphabet : Z) (block_size : nat)
    : outcome (msp_ret * mutgen_t) :=
  (* memset(self, 0, sizeof(mutgen_t)) *)
  let zero :=
    {| alphabet := 0%Z; start_time := 0%float; end_time := 0%float; block_size := 0;
       sites := []; allocator := {| chunk_size := 0; num_chunks := 0; blk_top := 0 |};
       mutation_map := {| map_size := 0; map_position := None; map_rate := None |} |} in
  if negb ((alphabet =? MSP_ALPHABET_BINARY)%Z || (alphabet =? MSP_ALPHABET_NUCLEOTIDE)%Z)
  then Done (MSP_ERR_BAD_PARAM_VALUE, zero)
  else
    let self :=
      {| alphabet := alphabet; start_time := (- DBL_MAX)%float; end_time := DBL_MAX;
         block_size := block_size; sites := [];
         allocator := allocator zero; mutation_map := mutation_map zero |} in
    let block_size := if block_size =? 0 then default_block_size else block_size in
    (* In practice this is the minimum we can support *)
    let block_size := GSL_MAX block_size 128 in
    match tsk_blkalloc_init block_size with
    | (Some e, a) => Done (msp_set_tsk_error e, set_allocator self a)
    | (None, a) =>
        (* Set a default mutation rate of 0 *)
        mutgen_set_rate (set_allocator self a) 0%float
    end.

(** ** [mutgen_init_allocator] *)

Definition mutgen_init_allocator (self : mutgen_t) (tables : tsk_table_collection_t)
    : msp_ret * mutgen_t :=
  let self := set_allocator self (tsk_blkalloc_free (allocator self)) in
  let self := if block_size self =? 0 then set_block_size self default_block_size
              else self in
  (* This is the effective minimum *)
  let self := set_block_size self (GSL_MAX (block_size self) 128) in
  (* the lengths and the number of rows are [tsk_size_t]: [1 + ...] is
     formed in 32 bits, the product with [sizeof] in [size_t] *)
  let self := set_block_size self
      (GSL_MAX (block_size self)
         (tsk_size_wrap (1 + length (site_ancestral_state (tc_sites tables))))) in
  let self := set_block_size self
      (GSL_MAX (block_size self)
         (tsk_size_wrap (1 + length (site_metadata (tc_sites tables))))) in
  let self := set_block_size self
      (GSL_MAX (block_size self)
         (tsk_size_wrap (1 + length (mutation_derived_state (tc_mutations tables))))) in
  let self := set_block_size self
      (GSL_MAX (block_size self)
         (tsk_size_wrap (1 + length (mutation_metadata (tc_mutations tables))))) in
  let self := set_block_size self
      (GSL_MAX (block_size self)
         (tsk_size_wrap (1 + mutation_num_rows (tc_mutations tables))
          * sizeof_mutation)) in
  match tsk_blkalloc_init (block_size self) with
  | (Some e, a) => (msp_set_tsk_error e, set_allocator self a)
  | (None, a) => (MSP_OK, set_allocator self a)
  end.

(** ** [mutgen_add_mutation] *)

Definition mutgen_add_mutation (self : mutgen_t) (node : node_id_t) (position : double)
    (ancestral_state derived_state : list byte) : outcome (msp_ret * mutgen_t) :=
  let '(site_ok, a) := tsk_blkalloc_get (allocator self) sizeof_site in
  let '(mutation_ok, a) := tsk_blkalloc_get a sizeof_mutation in
  let '(avl_node_ok, a) := tsk_blkalloc_get a sizeof_avl_node in
  let self := set_allocator self a in
  if negb site_ok || negb mutation_ok || negb avl_node_ok
  then Done (MSP_ERR_NO_MEMORY, self)
  else
    (* both records are zeroed, then filled in *)
    let mutation :=
      {| mut_id := 0%Z; mut_node := node; mut_parent := TSK_NULL;
         mut_derived_state := take 1 derived_state; mut_metadata := [] |} in
    let site :=
      {| position := position; ancestral_state := take 1 ancestral_state;
         metadata := []; mutations := [mutation] |} in
    match avl_insert_node (sites self) site with
    | Some tree => Done (MSP_OK, set_sites self tree)
    | None => Crash (* assert(avl_node != NULL) *)
    end.

(** ** [mutget_initialise_sites] *)

(** [offset[i + 1] - offset[i]], the length of row [i] of a text column. *)
Definition row_length (offset : list nat) (i : nat) : outcome nat :=
  a ← load offset i;
  b ← load offset (i + 1);
  if b <? a then Crash else Done (b - a).

(** [memcpy(buff, column + offset[i], length)]. *)
Definition row_bytes (column : list byte) (offset : list nat) (i len : nat)
    : outcome (list byte) :=
  a ← load offset i;
  if length column <? a + len then Crash else Done (take len (drop a column)).

(** The [while] loop that counts the mutation rows of a site from row
    [mutation_id] on. *)
Fixpoint site_run (site : list site_id_t) (site_id : site_id_t) : nat :=
  match site with
  | [] => 0
  | x :: r => if (x =? site_id)%Z then S (site_run r site_id) else 0
  end.

(** A text of row [i] copied into the arena: a request for its length, then
    the copy; [None] when the arena returns [NULL]. *)
Definition copy_row (a : tsk_blkalloc_t) (column : list byte) (offset : list nat)
    (i : nat) : outcome (option (list byte) * tsk_blkalloc_t) :=
  len ← row_length offset i;
  let '(ok, a) := tsk_blkalloc_get a len in
  if ok then buff ← row_bytes column offset i len; Done (Some buff, a)
  else Done (None, a).

(** The [for] loop over the [n] mutations of a site, from row [mutation_id]. *)
Fixpoint initialise_site_mutations (mutations : tsk_mutation_table_t)
    (a : tsk_blkalloc_t) (n mutation_id : nat)
    : outcome (msp_ret * list tsk_mutation_t * tsk_blkalloc_t) :=
  match n with
  | 0 => Done (MSP_OK, [], a)
  | S n' =>
      node ← load (mutation_node mutations) mutation_id;
      parent ← load (mutation_parent mutations) mutation_id;
      (* derived state *)
      '(buff, a) ← copy_row a (mutation_derived_state mutations)
                     (mutation_derived_state_offset mutations) mutation_id;
      match buff with
      | None => Done (MSP_ERR_NO_MEMORY, [], a)
      | Some derived_state =>
          (* metadata *)
          '(buff, a) ← copy_row a (mutation_metadata mutations)
                         (mutation_metadata_offset mutations) mutation_id;
          match buff with
          | None => Done (MSP_ERR_NO_MEMORY, [], a)
          | Some metadata =>
              let m := {| mut_id := 1%Z; mut_node := node; mut_parent := parent;
                          mut_derived_state := derived_state;
                          mut_metadata := metadata |} in
              '(ret, ms, a) ← initialise_site_mutations mutations a n' (S mutation_id);
              Done (ret, m :: ms, a)
          end
      end
  end.

(** The [for] loop over the sites, [n] sites left from [site_id]. *)
Fixpoint initialise_sites_loop (tables : tsk_table_collection_t) (n site_id : nat)
    (mutation_id : nat) (self : mutgen_t) : outcome (msp_ret * mutgen_t) :=
  match n with
  | 0 => Done (MSP_OK, self)
  | S n' =>
      let sites_t := tc_sites tables in
      let mutations_t := tc_mutations tables in
      let num_mutations :=
        site_run (drop mutation_id (mutation_site mutations_t)) (Z.of_nat site_id) in
      let '(site_ok, a) := tsk_blkalloc_get (allocator self) sizeof_site in
      let '(avl_node_ok, a) := tsk_blkalloc_get a sizeof_avl_node in
      let '(site_mutations_ok, a) :=
        tsk_blkalloc_get a (num_mutations * sizeof_mutation) in
      if negb site_ok || negb avl_node_ok || negb site_mutations_ok
      then Done (MSP_ERR_NO_MEMORY, set_allocator self a)
      else
        pos ← load (site_position sites_t) site_id;
        (* ancestral state *)
        '(buff, a) ← copy_row a (site_ancestral_state sites_t)
                       (site_ancestral_state_offset sites_t) site_id;
        match buff with
        | None => Done (MSP_ERR_NO_MEMORY, set_allocator self a)
        | Some ancestral =>
            (* metadata *)
            '(buff, a) ← copy_row a (site_metadata sites_t)
                           (site_metadata_offset sites_t) site_id;
            match buff with
            | None => Done (MSP_ERR_NO_MEMORY, set_allocator self a)
            | Some meta =>
                '(ret, site_mutations, a) ←
                  initialise_site_mutations mutations_t a num_mutations mutation_id;
                let self := set_allocator self a in
                if negb (is_ok ret) then Done (ret, self)
                else
                  let site := {| position := pos; ancestral_state := ancestral;
                                 metadata := meta; mutations := site_mutations |} in
                  match avl_insert_node (sites self) site with
                  | None => Done (MSP_ERR_DUPLICATE_SITE_POSITION, self)
                  | Some tree =>
                      initialise_sites_loop tables n' (S site_id)
                        (mutation_id + num_mutations) (set_sites self tree)
                  end
            end
        end
  end.

Definition mutget_initialise_sites (self : mutgen_t) (tables : tsk_table_collection_t)
    : outcome (msp_ret * mutgen_t) :=
  initialise_sites_loop tables (site_num_rows (tc_sites tables)) 0 0 self.

(** ** [mutgen_populate_tables] *)

(** The inner loop, over the mutations of the site of row [site_id]. *)
Fixpoint populate_mutations (ms : list tsk_mutation_t) (site_id : site_id_t)
    (mutations_t : tsk_mutation_table_t) (new_mutations : mutation_id_t)
    : msp_ret * tsk_mutation_table_t * mutation_id_t :=
  match ms with
  | [] => (MSP_OK, mutations_t, new_mutations)
  | mutation :: ms' =>
      let parent := mut_parent mutation in
      (* [parent += new_mutations], both of type [mutation_id_t] *)
      let parent := if (parent =? TSK_NULL)%Z then parent
                    else wrap_id (parent + new_mutations) in
      match tsk_mutation_table_add_row mutations_t site_id (mut_node mutation) parent
              (mut_derived_state mutation) (mut_metadata mutation) with
      | (inl e, mutations_t) => (msp_set_tsk_error e, mutations_t, new_mutations)
      | (inr _, mutations_t) =>
          let new_mutations :=
            if (mut_id mutation =? 0)%Z then wrap_id (new_mutations + 1)
            else new_mutations in
          populate_mutations ms' site_id mutations_t new_mutations
      end
  end.

(** The outer loop, over the sites in the order of the registry. *)
Fixpoint populate_sites (tree : list tsk_site_t) (sites_t : tsk_site_table_t)
    (mutations_t : tsk_mutation_table_t) (new_mutations : mutation_id_t)
    : msp_ret * tsk_site_table_t * tsk_mutation_table_t :=
  match tree with
  | [] => (MSP_OK, sites_t, mutations_t)
  | site :: tree' =>
      match tsk_site_table_add_row sites_t (position site) (ancestral_state site)
              (metadata site) with
      | (inl e, sites_t) => (msp_set_tsk_error e, sites_t, mutations_t)
      | (inr site_id, sites_t) =>
          match populate_mutations (mutations site) site_id mutations_t
                  new_mutations with
          | (MSP_OK, mutations_t, new_mutations) =>
              populate_sites tree' sites_t mutations_t new_mutations
          | (ret, mutations_t, _) => (ret, sites_t, mutations_t)
          end
      end
  end.

Definition mutgen_populate_tables (self : mutgen_t) (sites_t : tsk_site_table_t)
    (mutations_t : tsk_mutation_table_t)
    : msp_ret * tsk_site_table_t * tsk_mutation_table_t :=
  populate_sites (sites self) sites_t mutations_t 0%Z.

(** ** [mutgen_generate] *)

(** The rejection loop: positions are drawn until one is not in the
    registry.  One unit of fuel per draw. *)
Fixpoint sample_position (fuel : nat) (tree : list tsk_site_t) (g : gsl_rng)
    (left right : double) : outcome (double * gsl_rng) :=
  match fuel with
  | 0 => OutOfFuel
  | S fuel' =>
      let '(position, g) := gsl_ran_flat g left right in
      let search := {| position := position; ancestral_state := [];
                       metadata := []; mutations := [] |} in
      match avl_search tree search with
      | Some _ => sample_position fuel' tree g left right
      | None => Done (position, g)
      end
  end.

(** The [for] loop over the [branch_mutations] mutations of a segment. *)
Fixpoint generate_mutations (fuel : nat) (branch_mutations : nat) (self : mutgen_t)
    (g : gsl_rng) (child : node_id_t) (left right : double)
    (mutation_types : list mutation_type_t)
    : outcome (msp_ret * mutgen_t * gsl_rng) :=
  match branch_mutations with
  | 0 => Done (MSP_OK, self, g)
  | S l =>
      (* Rejection sample positions until we get one we haven't seen before. *)
      '(position, g) ← sample_position fuel (sites self) g left right;
      if negb (dle left position && dlt position right)
      then Crash (* assert(left <= position && position < right) *)
      else
        let '(type, g) := gsl_rng_uniform_int g (length mutation_types) in
        mt ← load mutation_types type;
        '(ret, self) ← mutgen_add_mutation self child position
                         (mt_ancestral_state mt) (mt_derived_state mt);
        if negb (is_ok ret) then Done (ret, self, g)
        else generate_mutations fuel l self g child left right mutation_types
  end.

(** The [while (right != edge_right)] loop over the segments of an edge,
    entered with the current [right] and [map_index].  One unit of fuel per
    round. *)
Fixpoint generate_segments (fuel : nat) (self : mutgen_t) (g : gsl_rng)
    (child : node_id_t) (left edge_right branch_length : double)
    (mutation_types : list mutation_type_t) (right : double) (map_index : nat)
    : outcome (msp_ret * mutgen_t * gsl_rng) :=
  if negb (dne right edge_right) then Done (MSP_OK, self, g)
  else
    match fuel with
    | 0 => OutOfFuel
    | S fuel' =>
        mp ← from_option Done Crash (map_position (mutation_map self));
        mr ← from_option Done Crash (map_rate (mutation_map self));
        p ← load_cell mp (map_index + 1);
        let right := GSL_MIN_dbl edge_right p in
        r ← load_cell mr map_index;
        let mu := (branch_length * (right - left) * r)%float in
        let '(branch_mutations, g) := gsl_ran_poisson g mu in
        '(ret, self, g) ← generate_mutations (S fuel') branch_mutations self g child
                            left right mutation_types;
        if negb (is_ok ret) then Done (ret, self, g)
        else generate_segments fuel' self g child left edge_right branch_length
               mutation_types right (S map_index)
    end.

(** The first [n] cells of a block, all written. *)
Fixpoint read_cells (a : block) (n : nat) : outcome (list double) :=
  match n, a with
  | 0, _ => Done []
  | S n', Some x :: a' => r ← read_cells a' n'; Done (x :: r)
  | S _, _ => Crash
  end.

(** One round of the [for] loop over the edges: edge [j]. *)
Definition generate_edge (fuel : nat) (self : mutgen_t) (g : gsl_rng)
    (tables : tsk_table_collection_t) (mutation_types : list mutation_type_t)
    (j : nat) : outcome (msp_ret * mutgen_t * gsl_rng) :=
  let nodes := tc_nodes tables in
  let edges := tc_edges tables in
  left ← load (edge_left edges) j;
  edge_right ← load (edge_right edges) j;
  parent ← load (edge_parent edges) j;
  child ← load (edge_child edges) j;
  if negb ((0 <=? child)%Z && (child <? Z.of_nat (node_num_rows nodes))%Z)
  then Crash (* assert(child >= 0 && child < (node_id_t) nodes->num_rows) *)
  else
    child_time ← load (node_time nodes) (Z.to_nat child);
    parent_time ← (if (parent <? 0)%Z then Crash
                   else load (node_time nodes) (Z.to_nat parent));
    let branch_start := GSL_MAX_dbl (start_time self) child_time in
    let branch_end := GSL_MIN_dbl (end_time self) parent_time in
    let branch_length := (branch_end - branch_start)%float in
    mp ← from_option Done Crash (map_position (mutation_map self));
    cells ← read_cells mp (map_size (mutation_map self));
    let map_index := tsk_search_sorted cells left in
    p ← load_cell mp map_index;
    map_index ← (if dgt p left
                 then if map_index =? 0 then Crash else Done (map_index - 1)
                 else Done map_index);
    generate_segments fuel self g child left edge_right branch_length
      mutation_types 0%float map_index.

(** The [for] loop over the edges, [n] edges left from edge [j]. *)
Fixpoint generate_edges (fuel : nat) (self : mutgen_t) (g : gsl_rng)
    (tables : tsk_table_collection_t) (mutation_types : list mutation_type_t)
    (n j : nat) : outcome (msp_ret * mutgen_t * gsl_rng) :=
  match n with
  | 0 => Done (MSP_OK, self, g)
  | S n' =>
      '(ret, self, g) ← generate_edge fuel self g tables mutation_types j;
      if negb (is_ok ret) then Done (ret, self, g)
      else generate_edges fuel self g tables mutation_types n' (S j)
  end.

Definition mutgen_generate (fuel : nat) (self : mutgen_t) (g : gsl_rng)
    (tables : tsk_table_collection_t) (flags : Z)
    : outcome (msp_ret * mutgen_t * gsl_rng * tsk_table_collection_t) :=
  let self := set_sites self (avl_clear_tree (sites self)) in
  let '(ret, self) := mutgen_init_allocator self tables in
  if negb (is_ok ret) then Done (ret, self, g, tables)
  else
    match tsk_table_collection_check_integrity tables with
    | Some e => Done (msp_set_tsk_error e, self, g, tables)
    | None =>
        (* Insert the sentinel at the end of the position map. *)
        let size := map_size (mutation_map self) in
        mp ← from_option Done Crash (map_position (mutation_map self));
        mp ← store_cell mp size (sequence_length tables);
        let self := set_mutation_map self
              {| map_size := size; map_position := Some mp;
                 map_rate := map_rate (mutation_map self) |} in
        last ← (if size =? 0 then Crash else load_cell mp (size - 1));
        if dge last (sequence_length tables)
        then Done (MSP_ERR_INCOMPATIBLE_MUTATION_MAP, self, g, tables)
        else
          '(ret, self) ← (if negb (Z.land flags MSP_KEEP_SITES =? 0)%Z
                          then mutget_initialise_sites self tables
                          else Done (MSP_OK, self));
          if negb (is_ok ret) then Done (ret, self, g, tables)
          else
            let tables := set_site_mutation_tables tables
                  (tsk_site_table_clear (tc_sites tables))
                  (tsk_mutation_table_clear (tc_mutations tables)) in
            let mutation_types :=
              if (alphabet self =? 0)%Z then binary_mutation_types
              else acgt_mutation_types in
            '(ret, self, g) ← generate_edges fuel self g tables mutation_types
                                (edge_num_rows (tc_edges tables)) 0;
            if negb (is_ok ret) then Done (ret, self, g, tables)
            else
              let '(ret, sites_t, mutations_t) :=
                mutgen_populate_tables self (tc_sites tables) (tc_mutations tables) in
              Done (ret, self, g, set_site_mutation_tables tables sites_t mutations_t)
    end.

End Mutgen.

(** * The vocabulary of the properties *)

Section Vocabulary.

Context {P : Platform}.

(** ** The rate map *)

(** A block of [length l + extra] cells whose first [k] cells hold the
    first [k] entries of [l] and whose other cells were never written. *)
Definition written (l : list double) (k extra : nat) : block :=
  (Some <$> take k l) ++ replicate (length l + extra - k) None.

(** Position [j] is not above position [j - 1]. *)
Definition bad_pair (position : list double) (j : nat) : Prop :=
  exists a b, 0 < j /\ position !! (j - 1) = Some a /\ position !! j = Some b
              /\ dge a b = true.

(** Rate [j] is negative. *)
Definition bad_rate (rate : list double) (j : nat) : Prop :=
  exists r, rate !! j = Some r /\ dlt r 0%float = true.

(** The first position is not zero. *)
Definition bad_first (position : list double) : Prop :=
  exists p0, position !! 0 = Some p0 /\ dne p0 0%float = true.

(** What [set_map] accepts: a first position equal to zero, no position
    pair and no rate refused by the comparisons of the source. *)
Definition map_accepted (size : nat) (position rate : list double) : Prop :=
  1 <= size /\ ~ bad_first position
  /\ (forall j, j < size -> ~ bad_pair position j)
  /\ (forall j, j < size -> ~ bad_rate rate j).

(** The conditions as the specification words them, with the IEEE order:
    at least one entry, [positions[0] == 0], positions strictly
    increasing, rates at least zero. *)
Definition map_valid (size : nat) (position rate : list double) : Prop :=
  1 <= size
  /\ (exists p0, position !! 0 = Some p0 /\ deq p0 0%float = true)
  /\ (forall j a b, position !! j = Some a -> position !! (S j) = Some b ->
        dlt a b = true)
  /\ (forall j r, rate !! j = Some r -> dle 0%float r = true).

(** ** The site registry *)

Definition distinct_from (s : tsk_site_t) (tree : list tsk_site_t) : Prop :=
  Forall (fun x => cmp_site s x <> 0%Z) tree.

(** No two sites of the list are equated by [cmp_site]. *)
Fixpoint pairwise_distinct (tree : list tsk_site_t) : Prop :=
  match tree with
  | [] => True
  | x :: r => distinct_from x r /\ pairwise_distinct r
  end.

(** ** The sampling loops keep what [mutgen_add_mutation] keeps *)

(** The fields the sampling does not touch. *)
Definition same_config (a b : mutgen_t) : Prop :=
  alphabet a = alphabet b /\ start_time a = start_time b /\ end_time a = end_time b
  /\ block_size a = block_size b /\ mutation_map a = mutation_map b.

(** The site [mutgen_add_mutation] builds. *)
Definition new_site (node : node_id_t) (pos : double)
    (ancestral derived : list byte) : tsk_site_t :=
  {| position := pos; ancestral_state := take 1 ancestral; metadata := [];
     mutations := [ {| mut_id := 0%Z; mut_node := node; mut_parent := TSK_NULL;
                       mut_derived_state := take 1 derived; mut_metadata := [] |} ] |}.

(** ** The export *)

(** The mutations of the registry in the order the export emits them. *)
Definition emitted_mutations (tree : list tsk_site_t) : list tsk_mutation_t :=
  concat (mutations <$> tree).

(** The number of mutations made by the generator among the first [i]. *)
Definition generated_before (ms : list tsk_mutation_t) (i : nat) : Z :=
  Z.of_nat (length (filter (fun m => mut_id m = 0%Z) (take i ms))).

(** The parent written for a mutation when the counter stands at [n]. *)
Definition shifted (n : Z) (m : tsk_mutation_t) : Z :=
  if (mut_parent m =? TSK_NULL)%Z then mut_parent m else wrap_id (mut_parent m + n).

(** ** The stages of [mutgen_generate] *)

(** The block size [mutgen_init_allocator] settles on. *)
Definition arena_block_size (self : mutgen_t) (tables : tsk_table_collection_t) : nat :=
  let b := if block_size self =? 0 then default_block_size else block_size self in
  Nat.max (Nat.max (Nat.max (Nat.max (Nat.max (Nat.max b 128)
    (tsk_size_wrap (1 + length (site_ancestral_state (tc_sites tables)))))
    (tsk_size_wrap (1 + length (site_metadata (tc_sites tables)))))
    (tsk_size_wrap (1 + length (mutation_derived_state (tc_mutations tables)))))
    (tsk_size_wrap (1 + length (mutation_metadata (tc_mutations tables)))))
    (tsk_size_wrap (1 + mutation_num_rows (tc_mutations tables)) * sizeof_mutation).

(** What [mutgen_generate] does before it clears the tables: the arena,
    the check of the tables, the sentinel and the check of the map against
    the sequence length, and the import when asked for. *)
Definition generate_prologue (self : mutgen_t) (tables : tsk_table_collection_t)
    (flags : Z) : outcome (msp_ret * mutgen_t) :=
  let self := set_sites self (avl_clear_tree (sites self)) in
  let '(ret, self) := mutgen_init_allocator self tables in
  if negb (is_ok ret) then Done (ret, self)
  else
    match tsk_table_collection_check_integrity tables with
    | Some e => Done (msp_set_tsk_error e, self)
    | None =>
        let size := map_size (mutation_map self) in
        mp ← from_option Done Crash (map_position (mutation_map self));
        mp ← store_cell mp size (sequence_length tables);
        let self := set_mutation_map self
              {| map_size := size; map_position := Some mp;
                 map_rate := map_rate (mutation_map self) |} in
        last ← (if size =? 0 then Crash else load_cell mp (size - 1));
        if dge last (sequence_length tables)
        then Done (MSP_ERR_INCOMPATIBLE_MUTATION_MAP, self)
        else if negb (Z.land flags MSP_KEEP_SITES =? 0)%Z
             then mutget_initialise_sites self tables
             else Done (MSP_OK, self)
    end.

(** The tables as [mutgen_generate] clears them. *)
Definition cleared (tables : tsk_table_collection_t) : tsk_table_collection_t :=
  set_site_mutation_tables tables (tsk_site_table_clear (tc_sites tables))
    (tsk_mutation_table_clear (tc_mutations tables)).

Definition mutation_types_of (self : mutgen_t) : list mutation_type_t :=
  if (alphabet self =? 0)%Z then binary_mutation_types else acgt_mutation_types.

(** What [mutgen_generate] does from there: the clearing of the tables,
    the sampling and the export. *)
Definition generate_body (fuel : nat) (self : mutgen_t) (g : gsl_rng)
    (tables : tsk_table_collection_t)
    : outcome (msp_ret * mutgen_t * gsl_rng * tsk_table_collection_t) :=
  let tables := cleared tables in
  '(ret, self, g) ← generate_edges fuel self g tables (mutation_types_of self)
                      (edge_num_rows (tc_edges tables)) 0;
  if negb (is_ok ret) then Done (ret, self, g, tables)
  else
    let '(ret, sites_t, mutations_t) :=
      mutgen_populate_tables self (tc_sites tables) (tc_mutations tables) in
    Done (ret, self, g, set_site_mutation_tables tables sites_t mutations_t).

(** ** Rows of the tables *)

(** Row [i] of a text column, when the offsets delimit it. *)
Definition row_text (column : list byte) (offset : list nat) (i : nat)
    : option (list byte) :=
  match offset !! i, offset !! (i + 1) with
  | Some a, Some b =>
      if (a <=? b) && (b <=? length column) then Some (take (b - a) (drop a column))
      else None
  | _, _ => None
  end.

(** The mutation the import makes of row [i] of the mutation table. *)
Definition imports_row (mt : tsk_mutation_table_t) (i : nat) (m : tsk_mutation_t) : Prop :=
  mut_id m = 1%Z
  /\ mutation_node mt !! i = Some (mut_node m)
  /\ mutation_parent mt !! i = Some (mut_parent m)
  /\ row_text (mutation_derived_state mt) (mutation_derived_state_offset mt) i
     = Some (mut_derived_state m)
  /\ row_text (mutation_metadata mt) (mutation_metadata_offset mt) i
     = Some (mut_metadata m).

(** The site the import makes of row [k] of the site table, with the
    mutation rows from row [start] on. *)
Definition imports_site (tables : tsk_table_collection_t) (k start : nat)
    (s : tsk_site_t) : Prop :=
  site_position (tc_sites tables) !! k = Some (position s)
  /\ row_text (site_ancestral_state (tc_sites tables))
       (site_ancestral_state_offset (tc_sites tables)) k = Some (ancestral_state s)
  /\ row_text (site_metadata (tc_sites tables))
       (site_metadata_offset (tc_sites tables)) k = Some (metadata s)
  /\ length (mutations s)
     = site_run (drop start (mutation_site (tc_mutations tables))) (Z.of_nat k)
  /\ forall j m, mutations s !! j = Some m ->
       imports_row (tc_mutations tables) (start + j) m.

(** Where the run of site [site_id + k] starts when the run of site
    [site_id] starts at row [mutation_id]: each run starts where the run of
    the site before ended. *)
Fixpoint run_start_from (col : list site_id_t) (site_id mutation_id k : nat) : nat :=
  match k with
  | 0 => mutation_id
  | S k' =>
      run_start_from col (S site_id)
        (mutation_id + site_run (drop mutation_id col) (Z.of_nat site_id)) k'
  end.

Definition run_start (col : list site_id_t) (k : nat) : nat :=
  run_start_from col 0 0 k.

(** ** What a run of [mutgen_generate] went through *)

(** A mutation of the registry is either one the generator made, with a
    null parent, or one read from the tables. *)
Definition mutation_wf (m : tsk_mutation_t) : Prop :=
  (mut_id m = 0%Z /\ mut_parent m = TSK_NULL) \/ mut_id m = 1%Z.

Definition registry_wf (tree : list tsk_site_t) : Prop :=
  Forall (fun s => Forall mutation_wf (mutations s)) tree.

(** Two positions that [cmp_site] equates. *)
Definition equal_positions (p q : double) : Prop :=
  (Z.b2z (dgt p q) - Z.b2z (dlt p q))%Z = 0%Z.




(** ** Which mutation rows the import reads *)

(** The rows the loop over [k] sites reads of a column of which [suffix]
    is left, the first site being [site_id]. *)
Fixpoint consumed (suffix : list site_id_t) (site_id k : nat) : nat :=
  match k with
  | 0 => 0
  | S k' =>
      let r := site_run suffix (Z.of_nat site_id) in
      r + consumed (drop r suffix) (S site_id) k'
  end.

(** A site column grouped by site in increasing order of the site ids:
    [counts !! i] rows of site [site_id + i], for each [i] in turn. *)
Definition groups (site_id : nat) (counts : list nat) : list site_id_t :=
  concat (imap (fun i c => replicate c (Z.of_nat (site_id + i))) counts).

Definition grouped_increasing (col : list site_id_t) (n : nat) : Prop :=
  exists counts, length counts = n /\ col = groups 0 counts.

(** ** The arena is large enough for the import *)

(** Blocks of [c] bytes hold every single request of the import of
    [tables]: the two records of a site, each text column, with a byte to
    spare, and the mutation records of all rows, with a record to spare. *)
Definition arena_fits (c : nat) (tables : tsk_table_collection_t) : Prop :=
  sizeof_site <= c /\ sizeof_avl_node <= c
  /\ 1 + length (site_ancestral_state (tc_sites tables)) <= c
  /\ 1 + length (site_metadata (tc_sites tables)) <= c
  /\ 1 + length (mutation_derived_state (tc_mutations tables)) <= c
  /\ 1 + length (mutation_metadata (tc_mutations tables)) <= c
  /\ (1 + mutation_num_rows (tc_mutations tables)) * sizeof_mutation <= c.

(** The sums [mutgen_init_allocator] forms in [tsk_size_t] do not wrap
    around: the length of each text column plus one, and the number of
    mutation rows plus one, are below [2^32]. *)
Definition sizes_fit (tables : tsk_table_collection_t) : Prop :=
  (Z.of_nat (1 + length (site_ancestral_state (tc_sites tables))) < 2 ^ 32)%Z
  /\ (Z.of_nat (1 + length (site_metadata (tc_sites tables))) < 2 ^ 32)%Z
  /\ (Z.of_nat (1 + length (mutation_derived_state (tc_mutations tables))) < 2 ^ 32)%Z
  /\ (Z.of_nat (1 + length (mutation_metadata (tc_mutations tables))) < 2 ^ 32)%Z
  /\ (Z.of_nat (1 + mutation_num_rows (tc_mutations tables)) < 2 ^ 32)%Z.

(** ** An edge outside the time window *)

(** Not above zero: a zero, a negative number or a NaN. *)
Definition SFnot_pos (f : spec_float) : Prop :=
  match f with
  | S754_zero _ | S754_nan => True
  | S754_infinity s | S754_finite s _ _ => s = true
  end.

(** A zero or a positive number. *)
Definition SFpos_or_zero (f : spec_float) : Prop :=
  match f with
  | S754_zero _ => True
  | S754_nan => False
  | S754_infinity s | S754_finite s _ _ => s = false
  end.

(** The sampler returns no mutation for a mean that is not above zero, as
    the Poisson sampler of GSL does. *)
Definition poisson_zero_below : Prop :=
  forall g mu, dgt mu 0%float = false -> fst (gsl_ran_poisson g mu) = 0.

(** The rates of the map are at least zero. *)
Definition rates_nonnegative (self : mutgen_t) : Prop :=
  forall mr i r, map_rate (mutation_map self) = Some mr -> mr !! i = Some (Some r) ->
    dle 0%float r = true.

(** The segment of the map in which the loop over an edge starts, as
    [mutgen_generate] finds it: the search for [left] among the
    breakpoints and a step back when the breakpoint found is above
    [left]. *)
Definition first_segment (self : mutgen_t) (left : double) : outcome nat :=
  mp ← from_option Done Crash (map_position (mutation_map self));
  cells ← read_cells mp (map_size (mutation_map self));
  let map_index := tsk_search_sorted cells left in
  p ← load_cell mp map_index;
  if dgt p left then (if map_index =? 0 then Crash else Done (map_index - 1))
  else Done map_index.

(** The segments of the edge [[left, edge_right)] from segment [k] on have
    a width, as the source computes it, of at least zero. *)
Definition widths_nonnegative (self : mutgen_t) (left edge_right : double) (k : nat)
    : Prop :=
  forall mp i p, map_position (mutation_map self) = Some mp -> k < i ->
    mp !! i = Some (Some p) ->
    dle 0%float (GSL_MIN_dbl edge_right p - left)%float = true.

(** Segment [k] is a segment of the map, and from there on the map is
    written up to its sentinel, which is not below [edge_right]. *)
Definition map_covers (self : mutgen_t) (k : nat) (edge_right : double) : Prop :=
  exists mp mr sentinel,
    map_position (mutation_map self) = Some mp
    /\ map_rate (mutation_map self) = Some mr
    /\ k < map_size (mutation_map self)
    /\ (forall i, k < i -> i <= map_size (mutation_map self) ->
          exists p, mp !! i = Some (Some p))
    /\ (forall i, k <= i -> i < map_size (mutation_map self) ->
          exists r, mr !! i = Some (Some r))
    /\ mp !! map_size (mutation_map self) = Some (Some sentinel)
    /\ dle edge_right sentinel = true.

(** ** Two runs on the same inputs *)

(** Two generators that differ at most in their arena. *)
Definition same_but_arena (a b : mutgen_t) : Prop :=
  alphabet a = alphabet b /\ start_time a = start_time b /\ end_time a = end_time b
  /\ sites a = sites b /\ mutation_map a = mutation_map b.

(** The position block of a map once the sentinel [x] is written. *)
Definition with_sentinel (m : mutation_map_t) (x : double) : option block :=
  match map_position m with
  | Some mp => if map_size m <? length mp then Some (<[map_size m := Some x]> mp) else None
  | None => None
  end.

(** Two generators with the same alphabet, time window and rate map, the
    sentinel cell of the map apart. *)
Definition same_inputs (a b : mutgen_t) : Prop :=
  alphabet a = alphabet b /\ start_time a = start_time b /\ end_time a = end_time b
  /\ map_size (mutation_map a) = map_size (mutation_map b)
  /\ map_rate (mutation_map a) = map_rate (mutation_map b)
  /\ forall x, with_sentinel (mutation_map a) x = with_sentinel (mutation_map b) x.

(** The order of the draws in the words of the specification, "outer loop
    over edges in table order": the rows [rows] of the edge table one after
    the other, each from the generator and the registry the row before
    left, up to the first that fails. *)
Fixpoint edges_in_order (fuel : nat) (tables : tsk_table_collection_t)
    (types : list mutation_type_t) (rows : list nat) (self : mutgen_t) (g : gsl_rng)
    : outcome (msp_ret * mutgen_t * gsl_rng) :=
  match rows with
  | [] => Done (MSP_OK, self, g)
  | j :: rows' =>
      '(ret, self, g) ← generate_edge fuel self g tables types j;
      if negb (is_ok ret) then Done (ret, self, g)
      else edges_in_order fuel tables types rows' self g
  end.

(** ** Further vocabulary *)



(** The three requests of [mutgen_add_mutation] are all granted. *)
Definition add_mutation_memory (a : tsk_blkalloc_t) : bool :=
  let '(site_ok, a) := tsk_blkalloc_get a sizeof_site in
  let '(mutation_ok, a) := tsk_blkalloc_get a sizeof_mutation in
  let '(avl_node_ok, _) := tsk_blkalloc_get a sizeof_avl_node in
  site_ok && mutation_ok && avl_node_ok.

(** The registry after the sites of [l] were inserted one after the other,
    when [avl_insert_node] accepted every one of them. *)
Fixpoint insert_all (tree l : list tsk_site_t) : option (list tsk_site_t) :=
  match l with
  | [] => Some tree
  | s :: r =>
      match avl_insert_node tree s with
      | Some t => insert_all t r
      | None => None
      end
  end.

(** The order of the registry. *)
Definition position_lt (x y : tsk_site_t) : Prop :=
  dlt (position x) (position y) = true.

(** A site the sampling loop makes on an edge of the tables: one mutation
    on the child of the edge, with the states of a mutation type, at a
    position of the interval of the edge. *)
Definition generated_on (tables : tsk_table_collection_t)
    (types : list mutation_type_t) (s : tsk_site_t) : Prop :=
  exists j left right_end child mt,
    edge_left (tc_edges tables) !! j = Some left
    /\ edge_right (tc_edges tables) !! j = Some right_end
    /\ edge_child (tc_edges tables) !! j = Some child
    /\ node_in_bounds (node_num_rows (tc_nodes tables)) child = true
    /\ mt ∈ types
    /\ s = new_site child (position s) (mt_ancestral_state mt) (mt_derived_state mt)
    /\ dle left (position s) = true
    /\ (deq right_end right_end = true -> dlt (position s) right_end = true).

(** Every rate of the map is zero. *)
Definition rates_zero (self : mutgen_t) : Prop :=
  forall mr i r, map_rate (mutation_map self) = Some mr -> mr !! i = Some (Some r) ->
    deq r 0%float = true.

(** The breakpoints of the map are [cells], the sentinel included, all
    written and increasing. *)
Definition map_sorted (self : mutgen_t) (cells : list double) : Prop :=
  map_position (mutation_map self) = Some (Some <$> cells)
  /\ length cells = map_size (mutation_map self) + 1
  /\ StronglySorted (fun a b => dlt a b = true) cells.





(** The text columns of a site table, and the columns of a mutation table,
    are as the check of the tables wants them. *)
Definition site_table_ok (t : tsk_site_table_t) : Prop :=
  offsets_ok (site_num_rows t) (site_ancestral_state_offset t)
    (length (site_ancestral_state t)) = true
  /\ offsets_ok (site_num_rows t) (site_metadata_offset t)
       (length (site_metadata t)) = true.

Definition mutation_table_ok (t : tsk_mutation_table_t) : Prop :=
  length (mutation_node t) = mutation_num_rows t
  /\ length (mutation_parent t) = mutation_num_rows t
  /\ offsets_ok (mutation_num_rows t) (mutation_derived_state_offset t)
       (length (mutation_derived_state t)) = true
  /\ offsets_ok (mutation_num_rows t) (mutation_metadata_offset t)
       (length (mutation_metadata t)) = true
  /\ forallb id_in_range (mutation_parent t) = true.

End Vocabulary.

(** * Concrete runs *)

(** ** A scripted platform

    A platform on which the model runs on concrete inputs: the generator
    reads its draws off a script and records the means the Poisson sampler
    was asked for; as GSL's sampler does, the Poisson sampler returns [0]
    for a mean that is not above zero.  The system grants the arena
    [heap_chunks] blocks and a table holds [max_rows] rows. *)

Record script_rng : Type := {
  answers : list nat;
  poisson_means : list double
}.

Definition script_fractions : list double :=
  [ 0%float; 0.5%float; 0.25%float; 0.75%float; 0.125%float ].

Definition script_poisson (g : script_rng) (mu : double) : nat * script_rng :=
  if dgt mu 0%float
  then (hd 0 (answers g),
        {| answers := tl (answers g); poisson_means := poisson_means g ++ [mu] |})
  else (0, {| answers := answers g; poisson_means := poisson_means g ++ [mu] |}).

Definition script_flat (g : script_rng) (left right : double) : double * script_rng :=
  let f := nth (hd 0 (answers g)) script_fractions 0%float in
  ((left + (right - left) * f)%float,
   {| answers := tl (answers g); poisson_means := poisson_means g |}).

Definition script_uniform_int (g : script_rng) (n : nat) : nat * script_rng :=
  (hd 0 (answers g) mod n,
   {| answers := tl (answers g); poisson_means := poisson_means g |}).

Definition scripted (heap_chunks max_rows : nat) : Platform :=
  {| gsl_rng := script_rng;
     gsl_ran_poisson := script_poisson;
     gsl_ran_flat := script_flat;
     gsl_rng_uniform_int := script_uniform_int;
     malloc_ok := fun _ => true;
     chunk_ok := fun k _ => k <? heap_chunks;
     sizeof_site := 56;
     sizeof_mutation := 48;
     sizeof_avl_node := 64;
     tsk_max_rows := max_rows |}.

(** A generator as [mutgen_alloc] leaves it on the scripted platform, with
    the uniform rate [1] installed. *)
Definition fresh_mutgen : mutgen_t :=
  {| alphabet := 0%Z; start_time := (- DBL_MAX)%float; end_time := DBL_MAX;
     block_size := 0; sites := [];
     allocator := {| chunk_size := default_block_size; num_chunks := 1; blk_top := 0 |};
     mutation_map := {| map_size := 1; map_position := Some [Some 0%float; None];
                        map_rate := Some [Some 1%float] |} |}.

(** ** Concrete tables *)

Definition empty_site_table : tsk_site_table_t :=
  {| site_position := []; site_ancestral_state := [];
     site_ancestral_state_offset := [0]; site_metadata := [];
     site_metadata_offset := [0] |}.

Definition empty_mutation_table : tsk_mutation_table_t :=
  {| mutation_site := []; mutation_node := []; mutation_parent := [];
     mutation_derived_state := []; mutation_derived_state_offset := [0];
     mutation_metadata := []; mutation_metadata_offset := [0] |}.

(** Two nodes at times 0 and 1 and the edge [[0, 10)] between them, on a
    sequence of length 10, with the given sites and mutations. *)
Definition one_edge_tables (s : tsk_site_table_t) (m : tsk_mutation_table_t)
    : tsk_table_collection_t :=
  {| sequence_length := 10%float;
     tc_nodes := {| node_time := [0%float; 1%float] |};
     tc_edges := {| edge_left := [0%float]; edge_right := [10%float];
                    edge_parent := [1%Z]; edge_child := [0%Z] |};
     tc_sites := s; tc_mutations := m |}.

(** The same genealogy on a sequence of length 0, which no map fits. *)
Definition short_tables : tsk_table_collection_t :=
  {| sequence_length := 0%float;
     tc_nodes := {| node_time := [0%float; 1%float] |};
     tc_edges := {| edge_left := []; edge_right := []; edge_parent := [];
                    edge_child := [] |};
     tc_sites := empty_site_table; tc_mutations := empty_mutation_table |}.

(** One site at position 5 with ancestral state "0" and no mutation. *)
Definition one_site_table : tsk_site_table_t :=
  {| site_position := [5%float]; site_ancestral_state := ["0"%byte];
     site_ancestral_state_offset := [0; 1]; site_metadata := [];
     site_metadata_offset := [0; 0] |}.

(** The site above with two stacked mutations: the second has the first as
    its parent. *)
Definition stacked_mutation_table : tsk_mutation_table_t :=
  {| mutation_site := [0%Z; 0%Z]; mutation_node := [0%Z; 0%Z];
     mutation_parent := [(-1)%Z; 0%Z];
     mutation_derived_state := ["1"%byte; "0"%byte];
     mutation_derived_state_offset := [0; 1; 2];
     mutation_metadata := []; mutation_metadata_offset := [0; 0; 0] |}.

Definition keep_tables : tsk_table_collection_t :=
  one_edge_tables one_site_table stacked_mutation_table.

(** A generator that gives the answers of [l] in turn. *)
Definition script (l : list nat) : script_rng :=
  {| answers := l; poisson_means := [] |}.

(** What a run returned, or [d] when it did not return. *)
Definition result_of {A : Type} (d : A) (o : outcome A) : A :=
  match o with Done x => x | _ => d end.

(** A run on [keep_tables] that keeps the two mutations of the tables and
    adds one at position 2.5. *)
Definition keep_run
    : outcome (msp_ret * mutgen_t * script_rng * tsk_table_collection_t) :=
  @mutgen_generate (scripted 8 8) 4 fresh_mutgen (script [1; 2; 0]) keep_tables 1.

Definition keep_run_result : msp_ret * mutgen_t * script_rng * tsk_table_collection_t :=
  result_of (MSP_OK, fresh_mutgen, script [], keep_tables) keep_run.

Definition keep_run_self : mutgen_t := snd (fst (fst keep_run_result)).
Definition keep_run_rng : script_rng := snd (fst keep_run_result).
Definition keep_run_tables : tsk_table_collection_t := snd keep_run_result.



(** The tables of [keep_run] with the largest [mutation_id_t] as the parent
    of the second mutation, and the same run on them: one generated
    mutation comes before the two of the tables. *)
Definition far_parent_tables : tsk_table_collection_t :=
  one_edge_tables one_site_table
    {| mutation_site := [0%Z; 0%Z]; mutation_node := [0%Z; 0%Z];
       mutation_parent := [(-1)%Z; 2147483647%Z];
       mutation_derived_state := ["1"%byte; "0"%byte];
       mutation_derived_state_offset := [0; 1; 2];
       mutation_metadata := []; mutation_metadata_offset := [0; 0; 0] |}.

Definition far_run_result : msp_ret * mutgen_t * script_rng * tsk_table_collection_t :=
  result_of (MSP_OK, fresh_mutgen, script [], far_parent_tables)
    (@mutgen_generate (scripted 8 8) 4 fresh_mutgen (script [1; 2; 0])
       far_parent_tables 1).

Definition far_run_self : mutgen_t := snd (fst (fst far_run_result)).
Definition far_run_tables : tsk_table_collection_t := snd far_run_result.

(** A generator whose block size hint is one byte. *)
Definition small_block_mutgen : mutgen_t := set_block_size fresh_mutgen 1.

(** A run that keeps the site of [one_site_table] and then fails in the
    sampling: the arena has blocks of 128 bytes and the system grants one. *)
Definition oom_tables : tsk_table_collection_t :=
  one_edge_tables one_site_table empty_mutation_table.

Definition oom_run_result : msp_ret * mutgen_t * script_rng * tsk_table_collection_t :=
  result_of (MSP_OK, fresh_mutgen, script [], oom_tables)
    (@mutgen_generate (scripted 1 8) 4 small_block_mutgen (script [1; 2; 0])
       oom_tables 1).

Definition oom_run_self : mutgen_t := snd (fst (fst oom_run_result)).
Definition oom_run_rng : script_rng := snd (fst oom_run_result).
Definition oom_run_tables : tsk_table_collection_t := snd oom_run_result.

(** Two sites at positions 5 and 7. *)
Definition two_site_table : tsk_site_table_t :=
  {| site_position := [5%float; 7%float];
     site_ancestral_state := ["0"%byte; "0"%byte];
     site_ancestral_state_offset := [0; 1; 2]; site_metadata := [];
     site_metadata_offset := [0; 0; 0] |}.

Definition two_site_tables : tsk_table_collection_t :=
  one_edge_tables two_site_table empty_mutation_table.



(** The generator [fresh_mutgen] with the time window [[5, 6]], which lies
    above the edge of [one_edge_tables] (it spans the times 0 to 1), after
    a generation pass on a sequence of length 10: the sentinel is in
    place. *)
Definition windowed_mutgen : mutgen_t :=
  {| alphabet := 0%Z; start_time := 5%float; end_time := 6%float;
     block_size := default_block_size; sites := [];
     allocator := {| chunk_size := default_block_size; num_chunks := 1; blk_top := 0 |};
     mutation_map := {| map_size := 1;
                        map_position := Some [Some 0%float; Some 10%float];
                        map_rate := Some [Some 1%float] |} |}.

Definition plain_tables : tsk_table_collection_t :=
  one_edge_tables empty_site_table empty_mutation_table.

(** Two calls in a row on [plain_tables] with the same script: the second
    starts from the generator and the tables the first left. *)
Definition first_run_result : msp_ret * mutgen_t * script_rng * tsk_table_collection_t :=
  result_of (MSP_ERR_NO_MEMORY, fresh_mutgen, script [], plain_tables)
    (@mutgen_generate (scripted 8 8) 4 fresh_mutgen (script [1; 2; 0]) plain_tables 0).

Definition first_run_self : mutgen_t := snd (fst (fst first_run_result)).
Definition first_run_rng : script_rng := snd (fst first_run_result).
Definition first_run_tables : tsk_table_collection_t := snd first_run_result.



Definition oom_prologue_self : mutgen_t :=
  snd (result_of (MSP_OK, small_block_mutgen)
         (@generate_prologue (scripted 1 8) small_block_mutgen oom_tables 1)).


(** A registry that holds one site, at position 3. *)
Definition site_at_3 : tsk_site_t :=
  {| position := 3%float; ancestral_state := ["0"%byte]; metadata := [];
     mutations := [] |}.

(** [fresh_mutgen] with the rate 0 that [mutgen_alloc] installs. *)
Definition zero_rate_mutgen : mutgen_t :=
  set_mutation_map fresh_mutgen
    {| map_size := 1; map_position := Some [Some 0%float; None];
       map_rate := Some [Some 0%float] |}.

Definition zero_rate_result : msp_ret * mutgen_t * script_rng * tsk_table_collection_t :=
  result_of (MSP_ERR_NO_MEMORY, fresh_mutgen, script [], plain_tables)
    (@mutgen_generate (scripted 8 8) 4 zero_rate_mutgen (script [1; 2; 0]) plain_tables 0).

(** [fresh_mutgen] with the two segments [[0, 4)] and [[4, 10)], of rates 1
    and 2, after a generation pass on a sequence of length 10. *)
Definition two_segment_mutgen : mutgen_t :=
  set_mutation_map fresh_mutgen
    {| map_size := 2;
       map_position := Some [Some 0%float; Some 4%float; Some 10%float];
       map_rate := Some [Some 1%float; Some 2%float] |}.

(** Two edges, [[0, 10)] and [[2, 6)], over the nodes of
    [one_edge_tables], and a run on them with the two segments of
    [two_segment_mutgen]: two mutations in the first segment of the first
    edge, the second after a position drawn twice, one in its second
    segment, none and one in the segments of the second edge; then the
    same call again on what the first left. *)
Definition two_edge_tables : tsk_table_collection_t :=
  {| sequence_length := 10%float;
     tc_nodes := {| node_time := [0%float; 1%float] |};
     tc_edges := {| edge_left := [0%float; 2%float];
                    edge_right := [10%float; 6%float];
                    edge_parent := [1%Z; 1%Z]; edge_child := [0%Z; 0%Z] |};
     tc_sites := empty_site_table; tc_mutations := empty_mutation_table |}.

Definition order_script : script_rng :=
  script [2; 1; 0; 1; 2; 0; 1; 3; 0; 0; 1; 4; 0].

Definition order_run_result : msp_ret * mutgen_t * script_rng * tsk_table_collection_t :=
  result_of (MSP_ERR_NO_MEMORY, fresh_mutgen, script [], plain_tables)
    (@mutgen_generate (scripted 8 8) 4 two_segment_mutgen order_script
       two_edge_tables 0).

Definition order_run_self : mutgen_t := snd (fst (fst order_run_result)).
Definition order_run_rng : script_rng := snd (fst order_run_result).
Definition order_run_tables : tsk_table_collection_t := snd order_run_result.

Definition order_rerun_result
    : msp_ret * mutgen_t * script_rng * tsk_table_collection_t :=
  result_of (MSP_ERR_NO_MEMORY, fresh_mutgen, script [], plain_tables)
    (@mutgen_generate (scripted 8 8) 4 order_run_self order_script
       order_run_tables 0).

(** The genealogy of [one_edge_tables] with the edge [[1, 3)]. *)
Definition inner_edge_tables : tsk_table_collection_t :=
  {| sequence_length := 10%float;
     tc_nodes := {| node_time := [0%float; 1%float] |};
     tc_edges := {| edge_left := [1%float]; edge_right := [3%float];
                    edge_parent := [1%Z]; edge_child := [0%Z] |};
     tc_sites := empty_site_table; tc_mutations := empty_mutation_table |}.







(** * Properties *)

(** ** Outcomes and arrays *)

Ltac unbind := unfold mbind, outcome_bind, mret, outcome_ret in *.

Lemma load_lookup {A : Type} (a : list A) (i : nat) (x : A) :
  a !! i = Some x -> load a i = Done x.
Proof. intros E. unfold load. rewrite E. reflexivity. Qed.

Lemma load_Done {A : Type} (a : list A) (i : nat) (x : A) :
  load a i = Done x -> a !! i = Some x.
Proof. unfold load. destruct (a !! i); congruence. Qed.

Lemma load_lt {A : Type} (a : list A) (i : nat) :
  i < length a -> exists x, a !! i = Some x /\ load a i = Done x.
Proof.
  intros Hi. destruct (lookup_lt_is_Some_2 a i Hi) as [x E].
  exists x. split; [exact E | apply load_lookup, E].
Qed.

(** ** Integers of 32 bits *)

Lemma wrap_id_add_l (a b : Z) : wrap_id (wrap_id a + b) = wrap_id (a + b).
Proof.
  unfold wrap_id. f_equal.
  replace ((a + 2 ^ 31) mod 2 ^ 32 - 2 ^ 31 + b + 2 ^ 31)%Z
    with ((a + 2 ^ 31) mod 2 ^ 32 + b)%Z by lia.
  rewrite Zplus_mod_idemp_l. f_equal. lia.
Qed.

Lemma wrap_id_add_r (a b : Z) : wrap_id (a + wrap_id b) = wrap_id (a + b).
Proof. rewrite Z.add_comm, wrap_id_add_l. f_equal. lia. Qed.

Lemma wrap_id_small (z : Z) : id_in_range z = true -> wrap_id z = z.
Proof.
  unfold id_in_range, wrap_id. rewrite andb_true_iff, Z.leb_le, Z.ltb_lt.
  intros [H1 H2]. rewrite Z.mod_small; lia.
Qed.

Lemma wrap_id_range (z : Z) : id_in_range (wrap_id z) = true.
Proof.
  unfold id_in_range, wrap_id. rewrite andb_true_iff, Z.leb_le, Z.ltb_lt.
  pose proof (Z.mod_pos_bound (z + 2 ^ 31) (2 ^ 32) ltac:(lia)). lia.
Qed.

(** The parent written depends on the counter through its 32 bits only. *)
Lemma shifted_congr (a b : Z) (m : tsk_mutation_t) :
  wrap_id a = wrap_id b -> shifted a m = shifted b m.
Proof.
  intros H. unfold shifted. destruct (mut_parent m =? TSK_NULL)%Z; [reflexivity|].
  rewrite <- (wrap_id_add_r _ a), <- (wrap_id_add_r _ b), H. reflexivity.
Qed.

Lemma tsk_size_wrap_small (n : nat) :
  (Z.of_nat n < 2 ^ 32)%Z -> tsk_size_wrap n = n.
Proof. intros H. unfold tsk_size_wrap. rewrite Z.mod_small; lia. Qed.

Lemma tsk_size_wrap_le (n : nat) : tsk_size_wrap n <= n.
Proof.
  unfold tsk_size_wrap.
  pose proof (Z.mod_le (Z.of_nat n) (2 ^ 32) ltac:(lia) ltac:(lia)). lia.
Qed.

Lemma tsk_size_wrap_zero (n : nat) :
  Z.of_nat n = (2 ^ 32 - 1)%Z -> tsk_size_wrap (1 + n) = 0.
Proof.
  intros H. unfold tsk_size_wrap.
  replace (Z.of_nat (1 + n)) with (2 ^ 32)%Z by lia.
  rewrite Z.mod_same by lia. reflexivity.
Qed.

(** ** IEEE comparisons *)

Lemma SFcompare_antisym (x y : spec_float) :
  SFcompare y x = option_map CompOpp (SFcompare x y).
Proof.
  destruct x as [sx|sx| |sx mx ex], y as [sy|sy| |sy my ey]; simpl; try reflexivity;
    try (destruct sx; reflexivity); try (destruct sy; reflexivity);
    try (destruct sx, sy; reflexivity).
  destruct sx, sy; simpl; try reflexivity;
    rewrite (Z.compare_antisym ex ey); destruct (ex ?= ey)%Z; simpl; try reflexivity;
    pose proof (Pos.compare_cont_antisym mx my Eq) as E; simpl in E;
    change (PosDef.Pos.compare_cont Eq my mx) with (Pos.compare_cont Eq my mx);
    rewrite <- E; reflexivity.
Qed.

Lemma dlt_not_dge (a b : double) : dlt a b = true -> dge a b = false.
Proof.
  unfold dlt, dge. rewrite ltb_spec, leb_spec. unfold SFltb, SFleb.
  rewrite (SFcompare_antisym (Prim2SF a) (Prim2SF b)).
  destruct (SFcompare (Prim2SF a) (Prim2SF b)) as [[]|]; simpl; congruence.
Qed.

Lemma dle_not_dgt (a b : double) : dle a b = true -> dgt a b = false.
Proof.
  unfold dle, dgt. rewrite ltb_spec, leb_spec. unfold SFltb, SFleb.
  rewrite (SFcompare_antisym (Prim2SF a) (Prim2SF b)).
  destruct (SFcompare (Prim2SF a) (Prim2SF b)) as [[]|]; simpl; congruence.
Qed.

Lemma dlt_not_deq (a b : double) : dlt a b = true -> deq a b = false.
Proof.
  unfold dlt, deq. rewrite ltb_spec, FloatAxioms.eqb_spec. unfold SFltb, SFeqb.
  destruct (SFcompare (Prim2SF a) (Prim2SF b)) as [[]|]; simpl; congruence.
Qed.

Lemma dgt_not_deq (a b : double) : dgt a b = true -> deq a b = false.
Proof.
  unfold dgt, deq. rewrite ltb_spec, FloatAxioms.eqb_spec. unfold SFltb, SFeqb.
  rewrite (SFcompare_antisym (Prim2SF a) (Prim2SF b)).
  destruct (SFcompare (Prim2SF a) (Prim2SF b)) as [[]|]; simpl; congruence.
Qed.

Lemma SFcompare_refl_not_Lt (x : spec_float) : SFcompare x x <> Some Lt.
Proof.
  destruct x as [s|s| |s m e]; simpl; try congruence.
  - destruct s; congruence.
  - rewrite Z.compare_refl.
    change (PosDef.Pos.compare_cont Eq m m) with (Pos.compare_cont Eq m m).
    rewrite Pos.compare_cont_refl. destruct s; simpl; congruence.
Qed.

Lemma dlt_irrefl (a : double) : dlt a a = false.
Proof.
  unfold dlt. rewrite ltb_spec. unfold SFltb.
  pose proof (SFcompare_refl_not_Lt (Prim2SF a)).
  destruct (SFcompare _ _) as [[]|]; congruence.
Qed.


Lemma SFcompare_refl (x : spec_float) :
  x <> S754_nan -> SFcompare x x = Some Eq.
Proof.
  destruct x as [[]|[]| |[] m e]; simpl; try reflexivity; try congruence; intros _;
    rewrite Z.compare_refl;
    change (PosDef.Pos.compare_cont Eq m m) with (Pos.compare m m);
    rewrite Pos.compare_refl; reflexivity.
Qed.

Lemma SFcompare_None (x y : spec_float) :
  SFcompare x y = None -> x = S754_nan \/ y = S754_nan.
Proof.
  destruct x as [[]|[]| |[] ? ?], y as [[]|[]| |[] ? ?]; simpl; intros H;
    try discriminate H; auto.
Qed.

(** [a == a] holds of every double but a NaN. *)
Lemma deq_refl_not_nan (a : double) : deq a a = true -> Prim2SF a <> S754_nan.
Proof.
  unfold deq. rewrite FloatAxioms.eqb_spec. intros H E. rewrite E in H. discriminate H.
Qed.

Lemma not_dge_dlt (a b : double) :
  deq a a = true -> deq b b = true -> dge a b = false -> dlt a b = true.
Proof.
  intros Ha Hb. apply deq_refl_not_nan in Ha, Hb.
  unfold dge, dlt. rewrite leb_spec, ltb_spec. unfold SFleb, SFltb.
  rewrite (SFcompare_antisym (Prim2SF a) (Prim2SF b)).
  destruct (SFcompare (Prim2SF a) (Prim2SF b)) as [[]|] eqn:E; simpl; try congruence.
  destruct (SFcompare_None _ _ E); contradiction.
Qed.

Lemma not_dlt_dge (a b : double) :
  deq a a = true -> deq b b = true -> dlt a b = false -> dge a b = true.
Proof.
  intros Ha Hb. apply deq_refl_not_nan in Ha, Hb.
  unfold dge, dlt. rewrite leb_spec, ltb_spec. unfold SFleb, SFltb.
  rewrite (SFcompare_antisym (Prim2SF a) (Prim2SF b)).
  destruct (SFcompare (Prim2SF a) (Prim2SF b)) as [[]|] eqn:E; simpl; try congruence.
  destruct (SFcompare_None _ _ E); contradiction.
Qed.

(** ** The rate map *)

Section SetMap.

Context {P : Platform}.

Lemma written_length (l : list double) (k extra : nat) :
  k <= length l -> length (written l k extra) = length l + extra.
Proof.
  intros Hk. unfold written.
  rewrite length_app, length_fmap, length_take, length_replicate. lia.
Qed.

Lemma written_store (l : list double) (j extra : nat) (x : double) :
  l !! j = Some x ->
  store_cell (written l j extra) j x = Done (written l (S j) extra).
Proof.
  intros E. pose proof (lookup_lt_Some _ _ _ E) as Hj.
  unfold store_cell. rewrite written_length by lia.
  destruct (Nat.ltb_spec j (length l + extra)); [|lia].
  f_equal. unfold written.
  rewrite (take_S_r l j x E), fmap_app, <- app_assoc. simpl.
  replace (length l + extra - j) with (S (length l + extra - S j)) by lia.
  simpl.
  assert (Hlen : length (Some <$> take j l) = j)
    by (rewrite length_fmap, length_take; lia).
  transitivity (<[length (Some <$> take j l) + 0 := Some x]>
    ((Some <$> take j l) ++ None :: replicate (length l + extra - S j) None)).
  { rewrite Hlen, Nat.add_0_r. reflexivity. }
  rewrite insert_app_r. reflexivity.
Qed.


Lemma mutgen_set_map_loop_spec (position rate : list double) :
  length rate = length position ->
  forall n j, j + n = length position ->
  exists ret k,
    mutgen_set_map_loop position rate n j (written position j 1) (written rate j 0)
      = Done (ret, written position k 1, written rate k 0)
    /\ j <= k <= length position
    /\ (forall i, j <= i < k -> ~ bad_pair position i /\ ~ bad_rate rate i)
    /\ ((ret = MSP_OK /\ k = length position)
        \/ (ret = MSP_ERR_BAD_MUTATION_MAP_POSITION /\ k < length position
            /\ bad_pair position k)
        \/ (ret = MSP_ERR_BAD_MUTATION_MAP_RATE /\ k < length position
            /\ ~ bad_pair position k /\ bad_rate rate k)).
Proof.
  intros Hlen n. induction n as [|n IH]; intros j Hj.
  - exists MSP_OK, j. simpl. repeat split; try lia. left. split; [reflexivity | lia].
  - assert (Hjp : j < length position) by lia.
    assert (Hjr : j < length rate) by lia.
    destruct (load_lt position j Hjp) as (pj & Epj & Lpj).
    destruct (load_lt rate j Hjr) as (rj & Erj & Lrj).
    cbn [mutgen_set_map_loop].
    assert (Hbad : exists bad : bool,
               (if 0 <? j
                then a ← load position (j - 1); b ← load position j; Done (dge a b)
                else Done false) = Done bad
               /\ (bad = true <-> bad_pair position j)).
    { destruct (Nat.ltb_spec 0 j) as [H0|H0].
      - destruct (load_lt position (j - 1) ltac:(lia)) as (a & Ea & La).
        rewrite La, Lpj. unbind. exists (dge a pj). split; [reflexivity|].
        split.
        + intros Hb. exists a, pj. auto.
        + intros (a' & b' & _ & Ea' & Eb' & Hb). congruence.
      - exists false. split; [reflexivity|]. split; [discriminate|].
        intros (a' & b' & H0' & _). lia. }
    destruct Hbad as (bad & -> & Hbad). unbind.
    destruct bad.
    + exists MSP_ERR_BAD_MUTATION_MAP_POSITION, j. repeat split; try lia.
      right. left. repeat split; [lia | apply Hbad; reflexivity].
    + assert (Hnp : ~ bad_pair position j)
        by (intros Hp; apply Hbad in Hp; discriminate).
      rewrite Lrj. destruct (dlt rj 0%float) eqn:Hr.
      * exists MSP_ERR_BAD_MUTATION_MAP_RATE, j. repeat split; try lia.
        right. right. repeat split; [lia | exact Hnp | exists rj; auto].
      * rewrite Lpj, (written_store position j 1 pj Epj),
          (written_store rate j 0 rj Erj).
        destruct (IH (S j) ltac:(lia)) as (ret & k & E & Hk & Hok & Hret).
        exists ret, k. split; [exact E|]. split; [lia|]. split; [|exact Hret].
        intros i Hi. destruct (decide (i = j)) as [->|Hne].
        -- split; [exact Hnp|]. intros (r & Er & Hr'). congruence.
        -- apply Hok. lia.
Qed.

Lemma malloc_doubles_written (l : list double) (extra n : nat) :
  n = length l + extra ->
  malloc_ok (n * sizeof_double) = true ->
  malloc_doubles n = Some (written l 0 extra).
Proof.
  intros -> H. unfold malloc_doubles, written. rewrite H. simpl.
  rewrite Nat.sub_0_r. reflexivity.
Qed.

(** One run of [mutgen_set_map] when both allocations succeed: the code
    returned, the index [k] where validation stopped and the size [n] left
    in the map. *)
Lemma mutgen_set_map_run (self : mutgen_t) (size : nat) (position rate : list double) :
  length position = size -> length rate = size ->
  malloc_ok ((size + 1) * sizeof_double) = true ->
  malloc_ok (size * sizeof_double) = true ->
  exists ret k n,
    mutgen_set_map self size position rate
      = Done (ret, set_mutation_map self
                {| map_size := n; map_position := Some (written position k 1);
                   map_rate := Some (written rate k 0) |})
    /\ k <= size
    /\ (forall i, i < k -> ~ bad_pair position i /\ ~ bad_rate rate i)
    /\ ((ret = MSP_ERR_BAD_MUTATION_MAP_SIZE /\ size < 1 /\ k = 0
         /\ n = map_size (mutation_map self))
        \/ (ret = MSP_ERR_BAD_MUTATION_MAP_POSITION /\ 1 <= size /\ bad_first position
            /\ k = 0 /\ n = map_size (mutation_map self))
        \/ (ret = MSP_ERR_BAD_MUTATION_MAP_POSITION /\ 1 <= size /\ ~ bad_first position
            /\ k < size /\ bad_pair position k /\ n = size)
        \/ (ret = MSP_ERR_BAD_MUTATION_MAP_RATE /\ 1 <= size /\ ~ bad_first position
            /\ k < size /\ ~ bad_pair position k /\ bad_rate rate k /\ n = size)
        \/ (ret = MSP_OK /\ 1 <= size /\ ~ bad_first position /\ k = size /\ n = size)).
Proof.
  intros Hp Hr Mp Mr. subst size. unfold mutgen_set_map.
  rewrite (malloc_doubles_written position 1 _ eq_refl Mp).
  rewrite (malloc_doubles_written rate 0 (length position) ltac:(lia) Mr).
  destruct (Nat.ltb_spec (length position) 1) as [H0|H1].
  - exists MSP_ERR_BAD_MUTATION_MAP_SIZE, 0, (map_size (mutation_map self)).
    split; [reflexivity|]. split; [lia|]. split; [intros i Hi; lia|].
    left. repeat split; lia.
  - destruct (load_lt position 0 ltac:(lia)) as (p0 & E0 & L0).
    rewrite L0. unbind. destruct (dne p0 0%float) eqn:Hne.
    + exists MSP_ERR_BAD_MUTATION_MAP_POSITION, 0, (map_size (mutation_map self)).
      split; [reflexivity|]. split; [lia|]. split; [intros i Hi; lia|].
      right. left. repeat split; try lia. exists p0. auto.
    + assert (Hnf : ~ bad_first position).
      { intros (q & Eq & Hq). congruence. }
      destruct (mutgen_set_map_loop_spec position rate Hr (length position) 0
                  ltac:(lia)) as (ret & k & E & Hk & Hok & Hret).
      rewrite E. exists ret, k, (length position).
      split; [reflexivity|]. split; [lia|].
      split; [intros i Hi; apply Hok; lia|].
      destruct Hret as [(-> & ->)|[(-> & Hlt & Hbp)|(-> & Hlt & Hnp & Hbr)]].
      * right. right. right. right. repeat split; auto.
      * right. right. left. repeat split; auto.
      * right. right. right. left. repeat split; auto.
Qed.

Lemma map_valid_accepted (size : nat) (position rate : list double) :
  map_valid size position rate -> map_accepted size position rate.
Proof.
  intros (H1 & (p0 & E0 & H0) & Hinc & Hrate). split; [exact H1|]. split; [|split].
  - intros (q & Eq & Hq). unfold dne in Hq. unfold deq in H0.
    assert (q = p0) by congruence. subst q. rewrite H0 in Hq. discriminate.
  - intros j _ (a & b & Hj & Ea & Eb & Hge).
    replace j with (S (j - 1)) in Eb by lia.
    rewrite (dlt_not_dge a b (Hinc _ _ _ Ea Eb)) in Hge. discriminate.
  - intros j _ (r & Er & Hr).
    pose proof (dle_not_dgt _ _ (Hrate _ _ Er)) as Hn.
    unfold dgt in Hn. unfold dlt in Hr. congruence.
Qed.

(** Without NaNs the maps the source accepts are the valid ones. *)
Lemma map_accepted_valid (size : nat) (position rate : list double) :
  length position = size -> length rate = size ->
  (forall a, a ∈ position ++ rate -> deq a a = true) ->
  map_accepted size position rate -> map_valid size position rate.
Proof.
  intros Hp Hr Hn (Hs & Hf & Hpair & Hrate).
  assert (Hnp : forall j a, position !! j = Some a -> deq a a = true).
  { intros j a Ha. apply Hn, elem_of_app. left. eapply list_elem_of_lookup_2, Ha. }
  assert (Hnr : forall j a, rate !! j = Some a -> deq a a = true).
  { intros j a Ha. apply Hn, elem_of_app. right. eapply list_elem_of_lookup_2, Ha. }
  split; [exact Hs|]. split; [|split].
  - destruct position as [|p0 l]; [simpl in Hp; lia|].
    exists p0. split; [reflexivity|].
    destruct (deq p0 0%float) eqn:E; [reflexivity|]. exfalso. apply Hf.
    exists p0. split; [reflexivity|]. unfold dne. unfold deq in E. rewrite E. reflexivity.
  - intros j a b Ha Hb. apply (not_dge_dlt a b (Hnp _ _ Ha) (Hnp _ _ Hb)).
    destruct (dge a b) eqn:E; [|reflexivity]. exfalso.
    apply (Hpair (S j)).
    + apply lookup_lt_Some in Hb. lia.
    + exists a, b. split; [lia|]. split; [|split; [exact Hb | exact E]].
      replace (S j - 1) with j by lia. exact Ha.
  - intros j r Er. change (dle 0%float r) with (dge r 0%float).
    apply (not_dlt_dge r 0%float (Hnr _ _ Er) eq_refl).
    destruct (dlt r 0%float) eqn:E; [|reflexivity]. exfalso.
    apply (Hrate j).
    + apply lookup_lt_Some in Er. lia.
    + exists r. split; [exact Er | exact E].
Qed.

(** C6: [set_map] returns [BadMutationMapSize] exactly for an empty map,
    [BadMutationMapPosition] for a first position other than zero or a
    non-increasing pair, [BadMutationMapRate] for a negative rate, and
    succeeds exactly on the maps with none of these, among them every map
    that is valid in the IEEE order; on positions and rates without a NaN
    it succeeds exactly on the valid maps. *)
Theorem mutgen_set_map_validation (self : mutgen_t) (size : nat)
    (position rate : list double) :
  length position = size -> length rate = size ->
  malloc_ok ((size + 1) * sizeof_double) = true ->
  malloc_ok (size * sizeof_double) = true ->
  exists ret self',
    mutgen_set_map self size position rate = Done (ret, self')
    /\ (ret = MSP_ERR_BAD_MUTATION_MAP_SIZE <-> size < 1)
    /\ (ret = MSP_ERR_BAD_MUTATION_MAP_POSITION ->
          1 <= size /\ (bad_first position \/ exists j, j < size /\ bad_pair position j))
    /\ (1 <= size -> bad_first position -> ret = MSP_ERR_BAD_MUTATION_MAP_POSITION)
    /\ (1 <= size -> (exists j, j < size /\ bad_pair position j) ->
          (forall j, j < size -> ~ bad_rate rate j) ->
          ret = MSP_ERR_BAD_MUTATION_MAP_POSITION)
    /\ (ret = MSP_ERR_BAD_MUTATION_MAP_RATE ->
          1 <= size /\ exists j, j < size /\ bad_rate rate j)
    /\ (1 <= size -> ~ bad_first position ->
          (forall j, j < size -> ~ bad_pair position j) ->
          (exists j, j < size /\ bad_rate rate j) ->
          ret = MSP_ERR_BAD_MUTATION_MAP_RATE)
    /\ (ret = MSP_OK <-> map_accepted size position rate)
    /\ (map_valid size position rate -> ret = MSP_OK)
    /\ ((forall a, a ∈ position ++ rate -> deq a a = true) ->
        ret = MSP_OK -> map_valid size position rate).
Proof.
  intros Hp Hr Mp Mr.
  destruct (mutgen_set_map_run self size position rate Hp Hr Mp Mr)
    as (ret & k & n & E & Hk & Hok & Hret).
  exists ret. eexists. split; [exact E|].
  assert (Hacc : ret = MSP_OK <-> map_accepted size position rate).
  { unfold map_accepted.
    destruct Hret as [(-> & Hs & -> & ->)|[(-> & H1 & Hbf & -> & ->)
      |[(-> & H1 & Hnf & Hlt & Hbp & ->)|[(-> & H1 & Hnf & Hlt & Hnp & Hbr & ->)
      |(-> & H1 & Hnf & -> & ->)]]]];
      (split; [try discriminate | intros (A1 & A2 & A3 & A4)]);
      try lia; try contradiction; try reflexivity.
    - exfalso. exact (A3 k Hlt Hbp).
    - exfalso. exact (A4 k Hlt Hbr).
    - intros _. split; [exact H1|]. split; [exact Hnf|].
      split; intros j Hj; apply Hok; exact Hj. }
  split; [|split; [|split; [|split; [|split; [|split; [|split; [|split]]]]]]].
  - destruct Hret as [(-> & Hs & _)|[(-> & H1 & _)|[(-> & H1 & _)|[(-> & H1 & _)
      |(-> & H1 & _)]]]]; split; intros; try discriminate; try lia; reflexivity.
  - destruct Hret as [(-> & _)|[(-> & H1 & Hbf & _)|[(-> & H1 & Hnf & Hlt & Hbp & _)
      |[(-> & _)|(-> & _)]]]]; intros; try discriminate; eauto.
  - destruct Hret as [(-> & Hs & _)|[(-> & _)|[(-> & H1 & Hnf & _)
      |[(-> & H1 & Hnf & _)|(-> & H1 & Hnf & _)]]]];
      intros; try lia; try contradiction; reflexivity.
  - intros H1 (j & Hj & Hbp) Hnr.
    destruct Hret as [(-> & Hs & _)|[(-> & _)|[(-> & _)
      |[(-> & _ & _ & Hlt & _ & Hbr & _)|(-> & _ & _ & -> & _)]]]];
      try lia; try reflexivity; exfalso.
    + exact (Hnr k Hlt Hbr).
    + exact (proj1 (Hok j Hj) Hbp).
  - destruct Hret as [(-> & _)|[(-> & _)|[(-> & _)
      |[(-> & H1 & _ & Hlt & _ & Hbr & _)|(-> & _)]]]]; intros; try discriminate; eauto.
  - intros H1 Hnf Hnp (j & Hj & Hbr).
    destruct Hret as [(-> & Hs & _)|[(-> & _ & Hbf & _)|[(-> & _ & _ & Hlt & Hbp & _)
      |[(-> & _)|(-> & _ & _ & -> & _)]]]];
      try lia; try contradiction; try reflexivity; exfalso.
    + exact (Hnp k Hlt Hbp).
    + exact (proj2 (Hok j Hj) Hbr).
  - exact Hacc.
  - intros Hv. apply Hacc, map_valid_accepted, Hv.
  - intros Hn Hok'. apply (map_accepted_valid size position rate Hp Hr Hn), Hacc, Hok'.
Qed.


End SetMap.

(** [fresh_mutgen] is what [mutgen_alloc] and [mutgen_set_rate] make. *)
Lemma mutgen_alloc_fresh :
  exists self0,
    @mutgen_alloc (scripted 8 8) MSP_ALPHABET_BINARY 0 = Done (MSP_OK, self0)
    /\ @mutgen_set_rate (scripted 8 8) self0 1%float = Done (MSP_OK, fresh_mutgen).
Proof. eexists. split; vm_compute; reflexivity. Qed.



Lemma mutgen_set_map_validation_witness :
  exists self',
    @mutgen_set_map (scripted 1 1) fresh_mutgen 2 [0%float; 5%float] [1%float; 2%float]
      = Done (MSP_OK, self').
Proof.
  destruct (@mutgen_set_map_validation (scripted 1 1) fresh_mutgen 2
              [0%float; 5%float] [1%float; 2%float] eq_refl eq_refl eq_refl eq_refl)
    as (ret & self' & E & _ & _ & _ & _ & _ & _ & _ & Hvalid & _).
  exists self'. rewrite E. f_equal. f_equal. apply Hvalid.
  split; [lia|]. split; [exists 0%float; split; reflexivity|]. split.
  - intros [|[|j]] a b Ha Hb; simpl in *; try discriminate.
    inversion Ha; inversion Hb; subst. reflexivity.
  - intros [|[|j]] r Hr; simpl in *; try discriminate;
      inversion Hr; subst; reflexivity.
Defined.

(** ** The site registry *)

Lemma cmp_site_opp (x y : tsk_site_t) : cmp_site y x = (- cmp_site x y)%Z.
Proof.
  unfold cmp_site, dgt, dlt.
  destruct (position x <? position y)%float, (position y <? position x)%float;
    reflexivity.
Qed.

Lemma cmp_site_sym (x y : tsk_site_t) : cmp_site x y <> 0%Z -> cmp_site y x <> 0%Z.
Proof. rewrite (cmp_site_opp x y). lia. Qed.


Lemma avl_search_None (tree : list tsk_site_t) (s : tsk_site_t) :
  avl_search tree s = None <-> distinct_from s tree.
Proof.
  unfold avl_search, distinct_from. induction tree as [|x r IH]; simpl.
  - split; auto.
  - destruct (Z.eqb_spec (cmp_site s x) 0) as [E|E].
    + split; [discriminate|]. intros H. inversion H; subst. contradiction.
    + rewrite IH. split.
      * intros H. constructor; assumption.
      * intros H. inversion H; assumption.
Qed.

Lemma avl_search_Some (tree : list tsk_site_t) (s x : tsk_site_t) :
  avl_search tree s = Some x -> x ∈ tree /\ cmp_site s x = 0%Z.
Proof.
  unfold avl_search. induction tree as [|y r IH]; simpl; [discriminate|].
  destruct (Z.eqb_spec (cmp_site s y) 0) as [E|E].
  - intros [= ->]. split; [left | exact E].
  - intros H. destruct (IH H) as [Hin Hc]. split; [right; exact Hin | exact Hc].
Qed.

Lemma avl_place_perm (tree : list tsk_site_t) (s : tsk_site_t) :
  avl_place tree s ≡ₚ s :: tree.
Proof.
  induction tree as [|x r IH]; simpl; [reflexivity|].
  destruct (cmp_site s x <? 0)%Z; [reflexivity|].
  rewrite IH. apply Permutation_swap.
Qed.

Lemma avl_place_distinct_from (tree : list tsk_site_t) (s y : tsk_site_t) :
  cmp_site y s <> 0%Z -> distinct_from y tree -> distinct_from y (avl_place tree s).
Proof.
  intros Hs Ht. unfold distinct_from. rewrite (avl_place_perm tree s).
  constructor; assumption.
Qed.

Lemma avl_place_distinct (tree : list tsk_site_t) (s : tsk_site_t) :
  distinct_from s tree -> pairwise_distinct tree -> pairwise_distinct (avl_place tree s).
Proof.
  induction tree as [|x r IH]; simpl; intros Hs Ht.
  - split; [constructor | exact I].
  - destruct Ht as [Hx Hr]. inversion Hs as [|? ? Hsx Hsr]; subst.
    destruct (cmp_site s x <? 0)%Z; simpl.
    + split; [constructor; assumption | split; assumption].
    + split.
      * apply avl_place_distinct_from; [apply cmp_site_sym, Hsx | exact Hx].
      * apply IH; assumption.
Qed.

Lemma avl_insert_node_Some (tree tree' : list tsk_site_t) (s : tsk_site_t) :
  avl_insert_node tree s = Some tree' ->
  tree' = avl_place tree s /\ distinct_from s tree.
Proof.
  unfold avl_insert_node. destruct (avl_search tree s) eqn:E; [discriminate|].
  intros [= <-]. split; [reflexivity | apply avl_search_None, E].
Qed.

Lemma avl_insert_node_None (tree : list tsk_site_t) (s : tsk_site_t) :
  avl_insert_node tree s = None <-> exists x, x ∈ tree /\ cmp_site s x = 0%Z.
Proof.
  unfold avl_insert_node. destruct (avl_search tree s) as [x|] eqn:E.
  - split; [intros _; exists x; apply avl_search_Some, E | reflexivity].
  - split; [discriminate|]. intros (x & Hin & Hc).
    apply avl_search_None in E. unfold distinct_from in E.
    rewrite Forall_forall in E. exfalso. exact (E x Hin Hc).
Qed.


(** ** The sampling loops keep what [mutgen_add_mutation] keeps *)

Lemma same_config_refl (a : mutgen_t) : same_config a a.
Proof. repeat split. Qed.

Lemma same_config_trans (a b c : mutgen_t) :
  same_config a b -> same_config b c -> same_config a c.
Proof.
  intros (? & ? & ? & ? & ?) (? & ? & ? & ? & ?). repeat split; congruence.
Qed.

Section Sampling.

Context {P : Platform}.

Lemma mutgen_add_mutation_inv (self self' : mutgen_t) (node : node_id_t)
    (pos : double) (a d : list byte) (ret : msp_ret) :
  mutgen_add_mutation self node pos a d = Done (ret, self') ->
  same_config self self'
  /\ ((ret = MSP_ERR_NO_MEMORY /\ sites self' = sites self)
      \/ (ret = MSP_OK
          /\ sites self' = avl_place (sites self) (new_site node pos a d)
          /\ distinct_from (new_site node pos a d) (sites self))).
Proof.
  unfold mutgen_add_mutation.
  destruct (tsk_blkalloc_get (allocator self) sizeof_site) as [ok1 a1].
  destruct (tsk_blkalloc_get a1 sizeof_mutation) as [ok2 a2].
  destruct (tsk_blkalloc_get a2 sizeof_avl_node) as [ok3 a3].
  destruct (negb ok1 || negb ok2 || negb ok3).
  - intros [= <- <-]. split; [repeat split|]. left. split; reflexivity.
  - fold (new_site node pos a d). simpl.
    destruct (avl_insert_node (sites self) (new_site node pos a d)) as [tree|] eqn:E;
      [|discriminate].
    intros [= <- <-]. split; [repeat split|]. right.
    apply avl_insert_node_Some in E. destruct E as [-> Hd]. simpl. auto.
Qed.

Section Invariant.

Variable Inv : mutgen_t -> Prop.

Hypothesis Inv_add :
  forall self self' node pos a d ret,
    Inv self -> mutgen_add_mutation self node pos a d = Done (ret, self') -> Inv self'.

Lemma generate_mutations_Inv (fuel k : nat) :
  forall self g child left right types ret self' g',
    Inv self ->
    generate_mutations fuel k self g child left right types = Done (ret, self', g') ->
    Inv self'.
Proof.
  induction k as [|k IH]; intros self g child left right types ret self' g' HI H.
  - simpl in H. injection H as <- <- <-. exact HI.
  - cbn [generate_mutations] in H. unbind.
    destruct (sample_position fuel (sites self) g left right) as [[pos g1]| |];
      try discriminate.
    destruct (negb (dle left pos && dlt pos right)); [discriminate|].
    destruct (gsl_rng_uniform_int g1 (length types)) as [type g2].
    destruct (load types type) as [mt| |]; try discriminate.
    destruct (mutgen_add_mutation self child pos _ _) as [[ret1 self1]| |] eqn:E;
      try discriminate.
    pose proof (Inv_add _ _ _ _ _ _ _ HI E) as HI1.
    destruct (negb (is_ok ret1)).
    + injection H as <- <- <-. exact HI1.
    + eapply IH; eauto.
Qed.

Lemma generate_segments_Inv (fuel : nat) :
  forall self g child left edge_right branch_length types right map_index ret self' g',
    Inv self ->
    generate_segments fuel self g child left edge_right branch_length types right
      map_index = Done (ret, self', g') ->
    Inv self'.
Proof.
  induction fuel as [|fuel IH];
    intros self g child left edge_right bl types right map_index ret self' g' HI H.
  - simpl in H. destruct (negb (dne right edge_right)); [|discriminate].
    injection H as <- <- <-. exact HI.
  - cbn [generate_segments] in H.
    destruct (negb (dne right edge_right)).
    { injection H as <- <- <-. exact HI. }
    unbind.
    destruct (from_option Done Crash (map_position (mutation_map self))) as [mp| |];
      try discriminate.
    destruct (from_option Done Crash (map_rate (mutation_map self))) as [mr| |];
      try discriminate.
    destruct (load_cell mp (map_index + 1)) as [p| |]; try discriminate.
    destruct (load_cell mr map_index) as [r| |]; try discriminate.
    destruct (gsl_ran_poisson g _) as [k g1].
    destruct (generate_mutations (S fuel) k self g1 child left _ types)
      as [[[ret1 self1] g2]| |] eqn:E; try discriminate.
    pose proof (generate_mutations_Inv _ _ _ _ _ _ _ _ _ _ _ HI E) as HI1.
    destruct (negb (is_ok ret1)).
    + injection H as <- <- <-. exact HI1.
    + eapply IH; eauto.
Qed.

Lemma generate_edge_Inv (fuel : nat) (self : mutgen_t) (g : gsl_rng)
    (tables : tsk_table_collection_t) (types : list mutation_type_t) (j : nat)
    (ret : msp_ret) (self' : mutgen_t) (g' : gsl_rng) :
  Inv self ->
  generate_edge fuel self g tables types j = Done (ret, self', g') ->
  Inv self'.
Proof.
  intros HI H. unfold generate_edge in H. unbind.
  repeat (match type of H with
          | match ?x with _ => _ end = _ => destruct x; try discriminate
          | (if ?b then _ else _) = _ => destruct b; try discriminate
          end).
  all: eapply generate_segments_Inv; eauto.
Qed.

Lemma generate_edges_Inv (fuel : nat) (tables : tsk_table_collection_t)
    (types : list mutation_type_t) (n : nat) :
  forall j self g ret self' g',
    Inv self ->
    generate_edges fuel self g tables types n j = Done (ret, self', g') ->
    Inv self'.
Proof.
  induction n as [|n IH]; intros j self g ret self' g' HI H.
  - simpl in H. injection H as <- <- <-. exact HI.
  - cbn [generate_edges] in H. unbind.
    destruct (generate_edge fuel self g tables types j) as [[[ret1 self1] g1]| |] eqn:E;
      try discriminate.
    pose proof (generate_edge_Inv _ _ _ _ _ _ _ _ _ HI E) as HI1.
    destruct (negb (is_ok ret1)).
    + injection H as <- <- <-. exact HI1.
    + eapply IH; eauto.
Qed.

End Invariant.

End Sampling.

(** ** The export *)

Lemma emitted_mutations_cons (s : tsk_site_t) (tree : list tsk_site_t) :
  emitted_mutations (s :: tree) = mutations s ++ emitted_mutations tree.
Proof. reflexivity. Qed.

Lemma generated_before_0 (ms : list tsk_mutation_t) : generated_before ms 0 = 0%Z.
Proof. reflexivity. Qed.

Lemma generated_before_cons (m : tsk_mutation_t) (ms : list tsk_mutation_t) (i : nat) :
  generated_before (m :: ms) (S i)
  = ((if (mut_id m =? 0)%Z then 1 else 0) + generated_before ms i)%Z.
Proof.
  unfold generated_before. simpl. rewrite filter_cons.
  destruct (Z.eqb_spec (mut_id m) 0) as [E|E].
  - rewrite decide_True by exact E. simpl. lia.
  - rewrite decide_False by exact E. lia.
Qed.

Lemma generated_before_app_l (l1 l2 : list tsk_mutation_t) (i : nat) :
  i <= length l1 -> generated_before (l1 ++ l2) i = generated_before l1 i.
Proof.
  intros Hi. unfold generated_before. rewrite take_app_le by exact Hi. reflexivity.
Qed.

Lemma generated_before_app_r (l1 l2 : list tsk_mutation_t) (i : nat) :
  generated_before (l1 ++ l2) (length l1 + i)
  = (generated_before l1 (length l1) + generated_before l2 i)%Z.
Proof.
  unfold generated_before.
  rewrite take_app_ge by lia. rewrite firstn_all, filter_app, length_app.
  replace (length l1 + i - length l1) with i by lia. lia.
Qed.

Lemma generated_before_take (ms : list tsk_mutation_t) (j i : nat) :
  i <= j -> generated_before (take j ms) i = generated_before ms i.
Proof.
  intros Hi. unfold generated_before. rewrite take_take, Nat.min_l by lia. reflexivity.
Qed.

Section ExportTables.

Context {P : Platform}.

Lemma tsk_mutation_table_add_row_inv (t t' : tsk_mutation_table_t) (site : site_id_t)
    (node : node_id_t) (parent : mutation_id_t) (d md : list byte)
    (r : tsk_err + mutation_id_t) :
  tsk_mutation_table_add_row t site node parent d md = (r, t') ->
  (r = inl TSK_ERR_TABLE_OVERFLOW /\ t' = t)
  \/ (r = inr (Z.of_nat (mutation_num_rows t))
      /\ mutation_parent t' = mutation_parent t ++ [parent]
      /\ mutation_site t' = mutation_site t ++ [site]).
Proof.
  unfold tsk_mutation_table_add_row.
  destruct (tsk_max_rows <=? mutation_num_rows t); intros [= <- <-]; auto.
Qed.

Lemma tsk_site_table_add_row_inv (t t' : tsk_site_table_t) (pos : double)
    (a md : list byte) (r : tsk_err + site_id_t) :
  tsk_site_table_add_row t pos a md = (r, t') ->
  (r = inl TSK_ERR_TABLE_OVERFLOW /\ t' = t)
  \/ (r = inr (Z.of_nat (site_num_rows t))
      /\ site_position t' = site_position t ++ [pos]).
Proof.
  unfold tsk_site_table_add_row.
  destruct (tsk_max_rows <=? site_num_rows t); intros [= <- <-]; auto.
Qed.

(** The rows the inner loop appends: the parents of the first [j]
    mutations, shifted by the counter as it stood at each. *)
Lemma populate_mutations_parents (ms : list tsk_mutation_t) :
  forall site_id mt nm ret mt' nm',
    populate_mutations ms site_id mt nm = (ret, mt', nm') ->
    exists j,
      j <= length ms
      /\ mutation_parent mt'
         = mutation_parent mt
             ++ imap (fun i m => shifted (nm + generated_before ms i) m) (take j ms)
      /\ (ret = MSP_OK ->
            j = length ms
            /\ wrap_id nm' = wrap_id (nm + generated_before ms (length ms)))
      /\ (ret = MSP_OK \/ ret = msp_set_tsk_error TSK_ERR_TABLE_OVERFLOW).
Proof.
  induction ms as [|m ms IH]; intros site_id mt nm ret mt' nm' H.
  - simpl in H. injection H as <- <- <-. exists 0. simpl.
    rewrite app_nil_r. repeat split; auto. unfold generated_before. simpl.
    f_equal. lia.
  - cbn [populate_mutations] in H.
    destruct (tsk_mutation_table_add_row mt site_id (mut_node m) _ _ _)
      as [r mt1] eqn:E.
    apply tsk_mutation_table_add_row_inv in E.
    destruct E as [(-> & ->)|(-> & Ep & _)].
    + injection H as <- <- <-. exists 0. simpl. rewrite app_nil_r.
      repeat split; auto; try lia; discriminate.
    + apply IH in H. destruct H as (j & Hj & Hp & Hok & Hret).
      exists (S j). split; [simpl; lia|]. split; [|split; [|exact Hret]].
      * rewrite Hp, Ep, <- app_assoc. f_equal. simpl. f_equal.
        -- unfold shifted. rewrite generated_before_0, Z.add_0_r. reflexivity.
        -- apply imap_ext. intros i x _. simpl. apply shifted_congr.
           rewrite generated_before_cons.
           destruct (mut_id m =? 0)%Z;
             [rewrite wrap_id_add_l|]; f_equal; lia.
      * intros Hr. destruct (Hok Hr) as [-> Hnm]. split; [reflexivity|].
        simpl. rewrite Hnm, generated_before_cons.
        destruct (mut_id m =? 0)%Z;
          [rewrite wrap_id_add_l|]; f_equal; lia.
Qed.

(** The rows the export appends to the two tables. *)
Lemma populate_sites_rows (tree : list tsk_site_t) :
  forall st mt nm ret st' mt',
    populate_sites tree st mt nm = (ret, st', mt') ->
    exists k j,
      k <= length tree /\ j <= length (emitted_mutations tree)
      /\ site_position st' = site_position st ++ (position <$> take k tree)
      /\ mutation_parent mt'
         = mutation_parent mt
             ++ imap (fun i m => shifted (nm + generated_before (emitted_mutations tree) i) m)
                  (take j (emitted_mutations tree))
      /\ (ret = MSP_OK -> k = length tree /\ j = length (emitted_mutations tree))
      /\ (ret = MSP_OK \/ ret = msp_set_tsk_error TSK_ERR_TABLE_OVERFLOW).
Proof.
  induction tree as [|site tree IH]; intros st mt nm ret st' mt' H.
  - simpl in H. injection H as <- <- <-. exists 0, 0. simpl.
    rewrite !app_nil_r. repeat split; auto.
  - cbn [populate_sites] in H.
    destruct (tsk_site_table_add_row st (position site) _ _) as [r st1] eqn:E.
    apply tsk_site_table_add_row_inv in E. destruct E as [(-> & ->)|(-> & Ep)].
    + injection H as <- <- <-. exists 0, 0. simpl. rewrite !app_nil_r.
      repeat split; auto; try lia; discriminate.
    + destruct (populate_mutations (mutations site) _ mt nm) as [[ret1 mt1] nm1] eqn:Em.
      apply populate_mutations_parents in Em.
      destruct Em as (j1 & Hj1 & Hp1 & Hok1 & Hret1).
      rewrite !emitted_mutations_cons.
      assert (Hfail : ret1 <> MSP_OK -> (ret, st', mt') = (ret1, st1, mt1)).
      { intros Hne. destruct ret1; try contradiction; exact (eq_sym H). }
      destruct (decide (ret1 = MSP_OK)) as [->|Hne].
      * destruct (Hok1 eq_refl) as [-> Hnm1].
        apply IH in H. destruct H as (k & j & Hk & Hj & Hs & Hp & Hok & Hret).
        exists (S k), (length (mutations site) + j).
        split; [simpl; lia|]. split; [rewrite length_app; lia|].
        split; [|split; [|split; [|exact Hret]]].
        -- rewrite Hs, Ep, <- app_assoc. reflexivity.
        -- rewrite Hp, Hp1, <- app_assoc. f_equal.
           rewrite take_app_ge by lia. rewrite firstn_all, imap_app.
           replace (length (mutations site) + j - length (mutations site)) with j by lia.
           f_equal.
           ++ apply imap_ext. intros i x Hx. simpl. f_equal. f_equal.
              symmetry. apply generated_before_app_l.
              apply lookup_lt_Some in Hx. lia.
           ++ apply imap_ext. intros i x _. simpl. apply shifted_congr.
              rewrite generated_before_app_r, Z.add_assoc.
              rewrite <- (wrap_id_add_l nm1), Hnm1, wrap_id_add_l. reflexivity.
        -- intros Hr. destruct (Hok Hr) as [-> ->]. split; [reflexivity|].
           rewrite length_app. reflexivity.
      * specialize (Hfail Hne). injection Hfail as -> -> ->.
        exists 1, j1. split; [simpl; lia|]. split; [rewrite length_app; lia|].
        split; [|split; [|split]].
        -- rewrite Ep. destruct tree; reflexivity.
        -- rewrite Hp1. f_equal. rewrite take_app_le by lia.
           apply imap_ext. intros i x Hx. simpl. f_equal. f_equal.
           symmetry. apply generated_before_app_l.
           apply lookup_lt_Some in Hx. rewrite length_take in Hx. lia.
        -- intros ->. contradiction.
        -- destruct Hret1 as [-> | ->]; [contradiction | right; reflexivity].
Qed.

End ExportTables.

(** ** The stages of [mutgen_generate] *)

Section Generate.

Context {P : Platform}.

Lemma GSL_MAX_max (a b : nat) : GSL_MAX a b = Nat.max a b.
Proof. unfold GSL_MAX. destruct (Nat.ltb_spec b a); lia. Qed.

Lemma mutgen_init_allocator_spec (self self1 : mutgen_t)
    (tables : tsk_table_collection_t) (ret : msp_ret) :
  mutgen_init_allocator self tables = (ret, self1) ->
  block_size self1 = arena_block_size self tables
  /\ chunk_size (allocator self1) = arena_block_size self tables
  /\ sites self1 = sites self
  /\ mutation_map self1 = mutation_map self
  /\ alphabet self1 = alphabet self
  /\ start_time self1 = start_time self
  /\ end_time self1 = end_time self
  /\ ((ret = MSP_OK /\ num_chunks (allocator self1) = 1 /\ blk_top (allocator self1) = 0
       /\ chunk_ok 0 (arena_block_size self tables) = true)
      \/ (ret = msp_set_tsk_error TSK_ERR_NO_MEMORY
          /\ chunk_ok 0 (arena_block_size self tables) = false)).
Proof.
  unfold mutgen_init_allocator, tsk_blkalloc_init. rewrite !GSL_MAX_max.
  cbn [block_size set_block_size set_allocator].
  assert (Hb : block_size
                 (if block_size self =? 0
                  then set_block_size
                         (set_allocator self (tsk_blkalloc_free (allocator self)))
                         default_block_size
                  else set_allocator self (tsk_blkalloc_free (allocator self)))
               = (if block_size self =? 0 then default_block_size else block_size self)).
  { destruct (block_size self =? 0); reflexivity. }
  rewrite Hb. fold (arena_block_size self tables).
  assert (H128 : 128 <= arena_block_size self tables) by (unfold arena_block_size; lia).
  destruct (Nat.ltb_spec (arena_block_size self tables) 1) as [|_]; [lia|].
  destruct (chunk_ok 0 (arena_block_size self tables)) eqn:Hc;
    intros [= <- <-]; cbn; destruct (block_size self =? 0); cbn; auto 20.
Qed.

Lemma mutgen_generate_stages (fuel : nat) (self : mutgen_t) (g : gsl_rng)
    (tables : tsk_table_collection_t) (flags : Z) :
  mutgen_generate fuel self g tables flags
  = '(ret, self1) ← generate_prologue self tables flags;
    if negb (is_ok ret) then Done (ret, self1, g, tables)
    else generate_body fuel self1 g tables.
Proof.
  unfold mutgen_generate, generate_prologue, generate_body, cleared, mutation_types_of.
  destruct (mutgen_init_allocator _ tables) as [ret0 self0].
  destruct (negb (is_ok ret0)) eqn:E0.
  { unbind. rewrite E0. reflexivity. }
  destruct (tsk_table_collection_check_integrity tables); [reflexivity|].
  unbind.
  destruct (from_option Done Crash (map_position (mutation_map self0))) as [mp| |];
    try reflexivity.
  destruct (store_cell mp _ _) as [mp'| |]; try reflexivity.
  match goal with |- context [if ?s =? 0 then Crash else ?l] =>
    destruct (if s =? 0 then Crash else l) as [last| |]; try reflexivity end.
  destruct (dge last (sequence_length tables)); [reflexivity|].
  destruct (negb (Z.land flags MSP_KEEP_SITES =? 0)%Z); reflexivity.
Qed.

Lemma store_cell_Done (a : block) (i : nat) (x : double) :
  i < length a -> store_cell a i x = Done (<[i := Some x]> a).
Proof. intros H. unfold store_cell. destruct (Nat.ltb_spec i (length a)); [reflexivity|lia]. Qed.

(** C5: when the last breakpoint of the map is at or beyond the sequence
    length, [generate] returns an error with the tables and the random
    generator as they were and an empty registry, and, once the arena is
    set up and the tables pass their check, that error is
    [IncompatibleMutationMap]. *)
Theorem mutgen_generate_incompatible_map (fuel : nat) (self : mutgen_t) (g : gsl_rng)
    (tables : tsk_table_collection_t) (flags : Z) (mp : block) (last : double) :
  map_position (mutation_map self) = Some mp ->
  0 < map_size (mutation_map self) < length mp ->
  mp !! (map_size (mutation_map self) - 1) = Some (Some last) ->
  dge last (sequence_length tables) = true ->
  exists ret self',
    mutgen_generate fuel self g tables flags = Done (ret, self', g, tables)
    /\ sites self' = []
    /\ ret <> MSP_OK
    /\ (chunk_ok 0 (arena_block_size self tables) = true ->
        tsk_table_collection_check_integrity tables = None ->
        ret = MSP_ERR_INCOMPATIBLE_MUTATION_MAP).
Proof.
  intros Hmp Hsize Hlast Hge.
  rewrite mutgen_generate_stages. unfold generate_prologue.
  destruct (mutgen_init_allocator (set_sites self (avl_clear_tree (sites self))) tables)
    as [ret0 self0] eqn:E0.
  apply mutgen_init_allocator_spec in E0.
  destruct E0 as (_ & _ & Hs & Hm & _ & _ & _ & Hret). simpl in Hs, Hm.
  change (arena_block_size (set_sites self (avl_clear_tree (sites self))) tables)
    with (arena_block_size self tables) in Hret.
  destruct Hret as [(-> & _ & _ & Hc)|(-> & Hc)]; simpl.
  - destruct (tsk_table_collection_check_integrity tables) as [e|] eqn:Ei.
    + unbind. simpl. exists (msp_set_tsk_error e), self0.
      repeat split; auto; try discriminate.
    + rewrite Hm, Hmp. simpl. unbind.
      rewrite (store_cell_Done mp _ _ (proj2 Hsize)).
      destruct (Nat.eqb_spec (map_size (mutation_map self)) 0) as [|_]; [lia|].
      unfold load_cell.
      assert (El : <[map_size (mutation_map self) := Some (sequence_length tables)]> mp
                     !! (map_size (mutation_map self) - 1) = Some (Some last)).
      { rewrite <- Hlast. apply list_lookup_insert_ne. lia. }
      rewrite El, Hge.
      simpl. eexists _, _. split; [reflexivity|].
      repeat split; auto; discriminate.
  - unbind. simpl. exists (msp_set_tsk_error TSK_ERR_NO_MEMORY), self0.
    repeat split; auto; try discriminate. intros Hc'. congruence.
Qed.

End Generate.

Lemma mutgen_generate_incompatible_map_witness :
  exists self',
    @mutgen_generate (scripted 1 1) 0 fresh_mutgen
      {| answers := []; poisson_means := [] |} short_tables 0
    = Done (MSP_ERR_INCOMPATIBLE_MUTATION_MAP, self',
            {| answers := []; poisson_means := [] |}, short_tables).
Proof.
  destruct (@mutgen_generate_incompatible_map (scripted 1 1) 0 fresh_mutgen
              {| answers := []; poisson_means := [] |} short_tables 0
              [Some 0%float; None] 0%float eq_refl
              (conj (Nat.lt_0_succ 0) (Nat.lt_succ_diag_r 1)) eq_refl eq_refl)
    as (ret & self' & E & _ & _ & Hret).
  exists self'. rewrite E. rewrite (Hret eq_refl eq_refl). reflexivity.
Defined.

(** ** The arena *)

Section Arena.

Context {P : Platform}.

Lemma tsk_blkalloc_get_spec (a a' : tsk_blkalloc_t) (n : nat) (ok : bool) :
  tsk_blkalloc_get a n = (ok, a') ->
  chunk_size a' = chunk_size a
  /\ (ok = false ->
        a' = a /\ (chunk_size a < n \/ chunk_ok (num_chunks a) (chunk_size a) = false)).
Proof.
  unfold tsk_blkalloc_get.
  destruct (Nat.ltb_spec (chunk_size a) n) as [Hn|Hn].
  - intros [= <- <-]. auto.
  - destruct (chunk_size a <? blk_top a + n).
    + destruct (chunk_ok (num_chunks a) (chunk_size a)) eqn:Hc; intros [= <- <-].
      * split; [reflexivity | discriminate].
      * auto.
    + intros [= <- <-]. split; [reflexivity | discriminate].
Qed.

(** A request within the block size fails only when the system refuses a
    block. *)
Lemma tsk_blkalloc_get_fits (a a' : tsk_blkalloc_t) (n : nat) (ok : bool) :
  tsk_blkalloc_get a n = (ok, a') -> n <= chunk_size a ->
  chunk_size a' = chunk_size a
  /\ (ok = false -> exists k, chunk_ok k (chunk_size a) = false).
Proof.
  intros H Hn. apply tsk_blkalloc_get_spec in H. destruct H as [Hc Hf].
  split; [exact Hc|]. intros ->. destruct (Hf eq_refl) as [_ [Hlt|Hr]]; [lia|eauto].
Qed.

End Arena.

(** ** Rows of the tables *)

Lemma lookup_offsets_sorted (l : list nat) :
  offsets_sorted l = true ->
  forall i j x y, i <= j -> l !! i = Some x -> l !! j = Some y -> x <= y.
Proof.
  induction l as [|a l IH]; intros Hs i j x y Hij Hi Hj; [discriminate|].
  assert (Hl : offsets_sorted l = true).
  { destruct l as [|b l]; [reflexivity|]. simpl in Hs.
    apply andb_true_iff in Hs. apply Hs. }
  assert (Ha : forall k z, l !! k = Some z -> a <= z).
  { intros k. induction k as [|k IHk]; intros z Hz.
    - destruct l as [|b l]; [discriminate|]. simpl in Hz. injection Hz as ->.
      simpl in Hs. apply andb_true_iff in Hs. destruct Hs as [Hab _].
      apply Nat.leb_le, Hab.
    - destruct l as [|b l]; [discriminate|].
      assert (Hab : a <= b).
      { simpl in Hs. apply andb_true_iff in Hs. apply Nat.leb_le, Hs. }
      specialize (IH Hl 0 (S k) b z ltac:(lia) eq_refl Hz). lia. }
  destruct i as [|i], j as [|j]; simpl in Hi, Hj.
  - assert (x = y) by congruence. lia.
  - injection Hi as <-. eapply Ha, Hj.
  - lia.
  - eapply (IH Hl i j); eauto. lia.
Qed.

Lemma offsets_ok_row (n : nat) (offset : list nat) (len i : nat) :
  offsets_ok n offset len = true -> i < n ->
  exists a b, offset !! i = Some a /\ offset !! (i + 1) = Some b /\ a <= b /\ b <= len.
Proof.
  unfold offsets_ok. intros H Hi.
  apply andb_true_iff in H. destruct H as [H Hs].
  apply andb_true_iff in H. destruct H as [H Hn].
  apply andb_true_iff in H. destruct H as [Hl _].
  apply Nat.eqb_eq in Hl. apply bool_decide_eq_true in Hn.
  destruct (lookup_lt_is_Some_2 offset i ltac:(lia)) as [a Ea].
  destruct (lookup_lt_is_Some_2 offset (i + 1) ltac:(lia)) as [b Eb].
  exists a, b. split; [exact Ea|]. split; [exact Eb|]. split.
  - eapply (lookup_offsets_sorted offset Hs i (i + 1)); eauto. lia.
  - eapply (lookup_offsets_sorted offset Hs (i + 1) n); eauto. lia.
Qed.

(** ** The import *)


Section ImportSites.

Context {P : Platform}.

Lemma copy_row_inv (a a' : tsk_blkalloc_t) (column : list byte) (offset : list nat)
    (i : nat) (r : option (list byte)) :
  copy_row a column offset i = Done (r, a') ->
  chunk_size a' = chunk_size a
  /\ match r with
     | Some buff => row_text column offset i = Some buff
     | None => True
     end.
Proof.
  unfold copy_row, row_length, row_bytes, row_text, load. unbind.
  destruct (offset !! i) as [x|]; [|discriminate].
  destruct (offset !! (i + 1)) as [y|]; [|discriminate].
  destruct (Nat.ltb_spec y x) as [Hyx|Hxy]; [discriminate|].
  destruct (tsk_blkalloc_get a (y - x)) as [ok a1] eqn:Eg.
  apply tsk_blkalloc_get_spec in Eg. destruct Eg as [Hc _].
  destruct ok.
  - destruct (Nat.ltb_spec (length column) (x + (y - x))) as [Hl|Hl]; [discriminate|].
    intros [= <- <-]. split; [exact Hc|].
    destruct (Nat.leb_spec x y); [|lia].
    destruct (Nat.leb_spec y (length column)); [reflexivity|lia].
  - intros [= <- <-]. split; [exact Hc | exact I].
Qed.

Lemma initialise_site_mutations_inv (mt : tsk_mutation_table_t) (n : nat) :
  forall a mutation_id ret ms a',
    initialise_site_mutations mt a n mutation_id = Done (ret, ms, a') ->
    chunk_size a' = chunk_size a
    /\ (ret = MSP_OK \/ ret = MSP_ERR_NO_MEMORY)
    /\ (ret = MSP_OK ->
          length ms = n
          /\ forall j m, ms !! j = Some m -> imports_row mt (mutation_id + j) m).
Proof.
  induction n as [|n IH]; intros a mid ret ms a' H.
  - simpl in H. injection H as <- <- <-.
    split; [reflexivity|]. split; [auto|]. intros _. split; [reflexivity|].
    intros j m Hj. discriminate.
  - cbn [initialise_site_mutations] in H. unbind.
    destruct (load (mutation_node mt) mid) as [node| |] eqn:En; try discriminate.
    destruct (load (mutation_parent mt) mid) as [parent| |] eqn:Ep; try discriminate.
    apply load_Done in En, Ep.
    destruct (copy_row a (mutation_derived_state mt) _ mid) as [[b1 a1]| |] eqn:E1;
      try discriminate.
    apply copy_row_inv in E1. destruct E1 as [Hc1 Hb1].
    destruct b1 as [derived|].
    2:{ injection H as <- <- <-. split; [exact Hc1|]. split; [auto|]. discriminate. }
    destruct (copy_row a1 (mutation_metadata mt) _ mid) as [[b2 a2]| |] eqn:E2;
      try discriminate.
    apply copy_row_inv in E2. destruct E2 as [Hc2 Hb2].
    destruct b2 as [meta|].
    2:{ injection H as <- <- <-. split; [congruence|]. split; [auto|]. discriminate. }
    destruct (initialise_site_mutations mt a2 n (S mid)) as [[[ret1 ms1] a3]| |] eqn:E3;
      try discriminate.
    injection H as <- <- <-.
    apply IH in E3. destruct E3 as (Hc3 & Hret & Hok).
    split; [congruence|]. split; [exact Hret|].
    intros Hr. destruct (Hok Hr) as [Hlen Hrows]. split; [simpl; congruence|].
    intros [|j] m Hj; simpl in Hj.
    + injection Hj as <-. rewrite Nat.add_0_r. repeat split; assumption.
    + replace (mid + S j) with (S mid + j) by lia. apply Hrows, Hj.
Qed.


(** What a run of the import loop that returned has done: the sites it
    added, in the order of their rows, each with the run of mutation rows
    that starts where the run before ended. *)
Lemma initialise_sites_loop_inv (tables : tsk_table_collection_t) (n : nat) :
  forall site_id mutation_id self ret self',
    initialise_sites_loop tables n site_id mutation_id self = Done (ret, self') ->
    same_config self self'
    /\ chunk_size (allocator self') = chunk_size (allocator self)
    /\ (ret = MSP_OK \/ ret = MSP_ERR_NO_MEMORY \/ ret = MSP_ERR_DUPLICATE_SITE_POSITION)
    /\ (pairwise_distinct (sites self) -> pairwise_distinct (sites self'))
    /\ exists l,
         sites self' ≡ₚ l ++ sites self
         /\ length l <= n
         /\ (ret = MSP_OK -> length l = n)
         /\ (forall k s, l !! k = Some s ->
               imports_site tables (site_id + k)
                 (run_start_from (mutation_site (tc_mutations tables))
                    site_id mutation_id k) s)
         /\ (ret = MSP_ERR_DUPLICATE_SITE_POSITION ->
               exists s x,
                 imports_site tables (site_id + length l)
                   (run_start_from (mutation_site (tc_mutations tables))
                      site_id mutation_id (length l)) s
                 /\ x ∈ sites self' /\ cmp_site s x = 0%Z).
Proof.
  induction n as [|n IH]; intros sid mid self ret self' H.
  - simpl in H. injection H as <- <-.
    split; [apply same_config_refl|]. split; [reflexivity|]. split; [auto|].
    split; [auto|]. exists []. simpl.
    repeat split; auto; try discriminate.
  - cbn [initialise_sites_loop] in H.
    set (num := site_run (drop mid (mutation_site (tc_mutations tables))) (Z.of_nat sid))
      in *.
    destruct (tsk_blkalloc_get (allocator self) sizeof_site) as [ok1 a1] eqn:G1.
    destruct (tsk_blkalloc_get a1 sizeof_avl_node) as [ok2 a2] eqn:G2.
    destruct (tsk_blkalloc_get a2 (num * sizeof_mutation)) as [ok3 a3] eqn:G3.
    apply tsk_blkalloc_get_spec in G1, G2, G3.
    destruct G1 as [C1 _], G2 as [C2 _], G3 as [C3 _].
    assert (Hfail : forall a, chunk_size a = chunk_size (allocator self) ->
              same_config self (set_allocator self a)
              /\ chunk_size (allocator (set_allocator self a)) = chunk_size (allocator self)
              /\ (MSP_ERR_NO_MEMORY = MSP_OK \/ MSP_ERR_NO_MEMORY = MSP_ERR_NO_MEMORY
                  \/ MSP_ERR_NO_MEMORY = MSP_ERR_DUPLICATE_SITE_POSITION)
              /\ (pairwise_distinct (sites self) ->
                  pairwise_distinct (sites (set_allocator self a)))
              /\ exists l,
                   sites (set_allocator self a) ≡ₚ l ++ sites self
                   /\ length l <= S n
                   /\ (MSP_ERR_NO_MEMORY = MSP_OK -> length l = S n)
                   /\ (forall k s, l !! k = Some s ->
                         imports_site tables (sid + k)
                           (run_start_from (mutation_site (tc_mutations tables))
                              sid mid k) s)
                   /\ (MSP_ERR_NO_MEMORY = MSP_ERR_DUPLICATE_SITE_POSITION ->
                         exists s x,
                           imports_site tables (sid + length l)
                             (run_start_from (mutation_site (tc_mutations tables))
                                sid mid (length l)) s
                           /\ x ∈ sites (set_allocator self a) /\ cmp_site s x = 0%Z)).
    { intros a Ha. split; [repeat split|]. split; [exact Ha|]. split; [auto|].
      split; [auto|]. exists []. simpl. repeat split; auto; try lia; try discriminate. }
    destruct (negb ok1 || negb ok2 || negb ok3).
    { injection H as <- <-. apply Hfail. congruence. }
    unbind.
    destruct (load (site_position (tc_sites tables)) sid) as [pos| |] eqn:Epos;
      try discriminate.
    apply load_Done in Epos.
    destruct (copy_row a3 (site_ancestral_state (tc_sites tables)) _ sid)
      as [[b1 a4]| |] eqn:E1; try discriminate.
    apply copy_row_inv in E1. destruct E1 as [C4 Hb1].
    destruct b1 as [ancestral|].
    2:{ injection H as <- <-. apply Hfail. congruence. }
    destruct (copy_row a4 (site_metadata (tc_sites tables)) _ sid)
      as [[b2 a5]| |] eqn:E2; try discriminate.
    apply copy_row_inv in E2. destruct E2 as [C5 Hb2].
    destruct b2 as [meta|].
    2:{ injection H as <- <-. apply Hfail. congruence. }
    destruct (initialise_site_mutations (tc_mutations tables) a5 num mid)
      as [[[ret1 ms] a6]| |] eqn:E3; try discriminate.
    apply initialise_site_mutations_inv in E3. destruct E3 as (C6 & Hret1 & Hms).
    destruct Hret1 as [-> | ->]; simpl in H.
    2:{ injection H as <- <-. apply Hfail. congruence. }
    destruct (Hms eq_refl) as [Hlen Hrows].
    set (site := {| position := pos; ancestral_state := ancestral; metadata := meta;
                    mutations := ms |}) in *.
    assert (Hsite : imports_site tables sid mid site).
    { unfold imports_site. simpl. split; [exact Epos|]. split; [exact Hb1|].
      split; [exact Hb2|]. split; [exact Hlen | exact Hrows]. }
    destruct (avl_insert_node (sites self) site) as [tree|] eqn:Ei.
    + apply avl_insert_node_Some in Ei. destruct Ei as [-> Hd].
      apply IH in H. destruct H as (Hcfg & Hc & Hret & Hpd & l & Hperm & Hl & Hok & Hl' & Hdup).
      simpl in Hc, Hperm, Hpd.
      split; [exact (same_config_trans _ (set_sites (set_allocator self a6) _) _
                       ltac:(repeat split) Hcfg)|].
      split; [congruence|]. split; [exact Hret|].
      split; [intros Hs; apply Hpd, avl_place_distinct; assumption|].
      exists (site :: l). split.
      { rewrite Hperm, avl_place_perm.
        change ((site :: l) ++ sites self) with (site :: l ++ sites self).
        symmetry. apply Permutation_middle. }
      split; [simpl; lia|]. split; [intros Hr; simpl; rewrite (Hok Hr); reflexivity|].
      split.
      * intros [|k] s Hk; simpl in Hk.
        -- injection Hk as <-. rewrite Nat.add_0_r. exact Hsite.
        -- replace (sid + S k) with (S sid + k) by lia. simpl. apply Hl', Hk.
      * intros Hr. destruct (Hdup Hr) as (s & x & Hs & Hx & Hcmp).
        exists s, x. simpl length. replace (sid + S (length l)) with (S sid + length l) by lia.
        split; [exact Hs | split; assumption].
    + injection H as <- <-.
      apply avl_insert_node_None in Ei. destruct Ei as (x & Hx & Hcmp).
      split; [repeat split|]. split; [simpl; congruence|]. split; [auto|].
      split; [auto|]. exists []. simpl. rewrite Nat.add_0_r.
      repeat split; auto; try lia; try discriminate.
      intros _. exists site, x. auto.
Qed.

End ImportSites.

(** ** What a run of [mutgen_generate] went through *)

Section Runs.

Context {P : Platform}.

Lemma generate_prologue_inv (self self1 : mutgen_t) (tables : tsk_table_collection_t)
    (flags : Z) (ret : msp_ret) :
  generate_prologue self tables flags = Done (ret, self1) ->
  alphabet self1 = alphabet self
  /\ start_time self1 = start_time self
  /\ end_time self1 = end_time self
  /\ ((sites self1 = []
       /\ ((ret = MSP_OK /\ Z.land flags MSP_KEEP_SITES = 0%Z)
           \/ ret = MSP_ERR_INCOMPATIBLE_MUTATION_MAP
           \/ exists e, ret = msp_set_tsk_error e))
      \/ (exists self0,
            sites self0 = []
            /\ tsk_table_collection_check_integrity tables = None
            /\ Z.land flags MSP_KEEP_SITES <> 0%Z
            /\ chunk_size (allocator self0) = arena_block_size self tables
            /\ mutget_initialise_sites self0 tables = Done (ret, self1))).
Proof.
  unfold generate_prologue.
  destruct (mutgen_init_allocator (set_sites self (avl_clear_tree (sites self))) tables)
    as [ret0 self0] eqn:E0.
  apply mutgen_init_allocator_spec in E0.
  destruct E0 as (_ & Hc & Hs & Hm & Ha & Hst & Het & Hret). simpl in Hs, Ha, Hst, Het.
  change (arena_block_size (set_sites self (avl_clear_tree (sites self))) tables)
    with (arena_block_size self tables) in *.
  destruct Hret as [(-> & _)|(-> & _)]; simpl.
  2:{ intros [= <- <-]. split; [exact Ha|]. split; [exact Hst|]. split; [exact Het|].
      left. split; [exact Hs|]. right. right. eauto. }
  destruct (tsk_table_collection_check_integrity tables) as [e|] eqn:Ei.
  { intros [= <- <-]. split; [exact Ha|]. split; [exact Hst|]. split; [exact Het|].
    left. split; [exact Hs|]. right. right. eauto. }
  unbind.
  destruct (from_option Done Crash (map_position (mutation_map self0))) as [mp| |];
    try discriminate.
  destruct (store_cell mp _ _) as [mp'| |]; try discriminate.
  match goal with |- context [if ?s =? 0 then Crash else ?l] =>
    destruct (if s =? 0 then Crash else l) as [last| |]; try discriminate end.
  destruct (dge last (sequence_length tables)).
  { intros [= <- <-]. split; [exact Ha|]. split; [exact Hst|]. split; [exact Het|].
    left. split; [exact Hs|]. right. left. reflexivity. }
  destruct (Z.eqb_spec (Z.land flags MSP_KEEP_SITES) 0) as [Hf|Hf]; simpl.
  - intros [= <- <-]. split; [exact Ha|]. split; [exact Hst|]. split; [exact Het|].
    left. split; [exact Hs|]. left. split; [reflexivity | exact Hf].
  - intros H. pose proof H as H'. unfold mutget_initialise_sites in H'.
    apply initialise_sites_loop_inv in H'. destruct H' as ((Ha' & Hst' & Het' & _) & _).
    simpl in Ha', Hst', Het'.
    split; [congruence|]. split; [congruence|]. split; [congruence|].
    right. eexists. split; [|split; [reflexivity|split; [exact Hf|split; [|exact H]]]].
    + exact Hs.
    + exact Hc.
Qed.

Lemma generate_body_inv (fuel : nat) (self1 self' : mutgen_t) (g g' : gsl_rng)
    (tables tables' : tsk_table_collection_t) (ret : msp_ret) :
  generate_body fuel self1 g tables = Done (ret, self', g', tables') ->
  exists ret_s,
    generate_edges fuel self1 g (cleared tables) (mutation_types_of self1)
      (edge_num_rows (tc_edges tables)) 0 = Done (ret_s, self', g')
    /\ ((ret_s <> MSP_OK /\ ret = ret_s /\ tables' = cleared tables)
        \/ (ret_s = MSP_OK
            /\ exists st mt,
                 mutgen_populate_tables self' (tc_sites (cleared tables))
                   (tc_mutations (cleared tables)) = (ret, st, mt)
                 /\ tables' = set_site_mutation_tables (cleared tables) st mt)).
Proof.
  unfold generate_body. unbind.
  change (edge_num_rows (tc_edges (cleared tables)))
    with (edge_num_rows (tc_edges tables)).
  destruct (generate_edges fuel self1 g (cleared tables) _ _ 0)
    as [[[ret_s self2] g2]| |]; try discriminate.
  destruct ret_s; simpl;
    try (intros [= <- <- <- <-]; eexists; split; [reflexivity|];
         left; repeat split; discriminate).
  destruct (mutgen_populate_tables self2 _ _) as [[ret2 st] mt] eqn:Ep.
  intros [= <- <- <- <-]. exists MSP_OK. split; [reflexivity|]. right.
  split; [reflexivity|]. exists st, mt. split; [exact Ep | reflexivity].
Qed.

Lemma mutgen_generate_inv (fuel : nat) (self self' : mutgen_t) (g g' : gsl_rng)
    (tables tables' : tsk_table_collection_t) (flags : Z) (ret : msp_ret) :
  mutgen_generate fuel self g tables flags = Done (ret, self', g', tables') ->
  (ret <> MSP_OK /\ generate_prologue self tables flags = Done (ret, self')
   /\ g' = g /\ tables' = tables)
  \/ (exists self1,
        generate_prologue self tables flags = Done (MSP_OK, self1)
        /\ generate_body fuel self1 g tables = Done (ret, self', g', tables')).
Proof.
  rewrite mutgen_generate_stages. unbind.
  destruct (generate_prologue self tables flags) as [[ret1 self1]| |]; try discriminate.
  destruct ret1; simpl;
    try (intros [= <- <- <- <-]; left; repeat split; discriminate).
  intros H. right. exists self1. split; [reflexivity | exact H].
Qed.



Lemma registry_wf_perm (l l' : list tsk_site_t) :
  l ≡ₚ l' -> registry_wf l -> registry_wf l'.
Proof. unfold registry_wf. intros Hp H. rewrite <- Hp. exact H. Qed.

Lemma mutgen_add_mutation_keeps (self self' : mutgen_t) (node : node_id_t)
    (pos : double) (a d : list byte) (ret : msp_ret) :
  pairwise_distinct (sites self) /\ registry_wf (sites self) ->
  mutgen_add_mutation self node pos a d = Done (ret, self') ->
  pairwise_distinct (sites self') /\ registry_wf (sites self').
Proof.
  intros [Hd Hw] H. apply mutgen_add_mutation_inv in H.
  destruct H as [_ [(_ & ->)|(_ & -> & Hn)]]; [auto|]. split.
  - apply avl_place_distinct; assumption.
  - eapply registry_wf_perm; [symmetry; apply avl_place_perm|].
    constructor; [|exact Hw]. simpl. constructor; [|constructor].
    left. split; reflexivity.
Qed.

(** The registry a run of [mutgen_generate] leaves holds no two sites of
    one position, and its mutations are those the generator made, with a
    null parent, and those the import read. *)
Lemma mutgen_generate_registry (fuel : nat) (self self' : mutgen_t) (g g' : gsl_rng)
    (tables tables' : tsk_table_collection_t) (flags : Z) (ret : msp_ret) :
  mutgen_generate fuel self g tables flags = Done (ret, self', g', tables') ->
  pairwise_distinct (sites self') /\ registry_wf (sites self').
Proof.
  intros H.
  assert (Hpro : forall r s1, generate_prologue self tables flags = Done (r, s1) ->
            pairwise_distinct (sites s1) /\ registry_wf (sites s1)).
  { intros r s1 Hp. apply generate_prologue_inv in Hp.
    destruct Hp as (_ & _ & _ & [(-> & _)|(self0 & Hs0 & _ & _ & _ & Hi)]).
    - split; [exact I | constructor].
    - unfold mutget_initialise_sites in Hi. apply initialise_sites_loop_inv in Hi.
      destruct Hi as (_ & _ & _ & Hpd & l & Hperm & _ & _ & Hl & _).
      rewrite Hs0 in *. split; [apply Hpd; exact I|].
      rewrite app_nil_r in Hperm.
      eapply registry_wf_perm; [symmetry; exact Hperm|].
      unfold registry_wf. rewrite Forall_lookup. intros k s Hk.
      rewrite Forall_lookup. intros j m Hj.
      destruct (Hl k s Hk) as (_ & _ & _ & _ & Hrows).
      destruct (Hrows j m Hj) as (Hid & _). right. exact Hid. }
  apply mutgen_generate_inv in H.
  destruct H as [(_ & Hp & _)|(self1 & Hp & Hb)]; [eapply Hpro, Hp|].
  apply generate_body_inv in Hb. destruct Hb as (ret_s & He & _).
  eapply (generate_edges_Inv
            (fun s => pairwise_distinct (sites s) /\ registry_wf (sites s))).
  - intros s s' node pos a d r Hs Ha. eapply mutgen_add_mutation_keeps; eauto.
  - eapply Hpro, Hp.
  - exact He.
Qed.

Lemma equal_positions_cmp_site (s x : tsk_site_t) :
  cmp_site s x = 0%Z <-> equal_positions (position s) (position x).
Proof. reflexivity. Qed.


(** C1: in the mutation table a successful [generate] leaves, the row of
    every mutation the generator made has a null parent, and the row of
    every imported mutation with a parent has that parent plus the number
    of generated mutations in the rows before it: the sum as
    [mutation_id_t] holds it, wrapped around to 32 bits, which is the sum
    itself whenever it is a value of that type. *)
Theorem mutgen_generate_export_parents (fuel : nat) (self self' : mutgen_t)
    (g g' : gsl_rng) (tables tables' : tsk_table_collection_t) (flags : Z) :
  mutgen_generate fuel self g tables flags = Done (MSP_OK, self', g', tables') ->
  let ms := emitted_mutations (sites self') in
  let out := mutation_parent (tc_mutations tables') in
  length out = length ms
  /\ forall i m, ms !! i = Some m ->
       (mut_id m = 0%Z \/ mut_id m = 1%Z)
       /\ (mut_id m = 0%Z -> out !! i = Some TSK_NULL)
       /\ (mut_id m = 1%Z -> mut_parent m <> TSK_NULL ->
             out !! i = Some (wrap_id (mut_parent m + generated_before ms i))
             /\ (id_in_range (mut_parent m + generated_before ms i) = true ->
                 out !! i = Some (mut_parent m + generated_before ms i)%Z))
       /\ (mut_id m = 1%Z -> mut_parent m = TSK_NULL -> out !! i = Some TSK_NULL).
Proof.
  intros H ms out.
  pose proof (mutgen_generate_registry _ _ _ _ _ _ _ _ _ H) as [_ Hwf].
  apply mutgen_generate_inv in H.
  destruct H as [(Hne & _)|(self1 & _ & Hb)]; [contradiction|].
  apply generate_body_inv in Hb.
  destruct Hb as (ret_s & _ & [(Hne & <- & _)|(_ & st & mt & Hp & ->)]);
    [contradiction|].
  unfold mutgen_populate_tables in Hp. apply populate_sites_rows in Hp.
  destruct Hp as (k & j & _ & _ & _ & Hout & Hok & _).
  destruct (Hok eq_refl) as [_ ->]. fold ms in Hout.
  rewrite firstn_all in Hout. simpl in Hout.
  assert (Eout : out = imap (fun i m => shifted (0 + generated_before ms i) m) ms)
    by exact Hout.
  split; [rewrite Eout; apply length_imap|].
  intros i m Hm.
  assert (Hwm : mutation_wf m).
  { assert (Hall : Forall mutation_wf ms).
    { unfold ms, emitted_mutations. apply Forall_concat, Forall_fmap. exact Hwf. }
    rewrite Forall_lookup in Hall. exact (Hall i m Hm). }
  assert (Ei : out !! i = Some (shifted (generated_before ms i) m)).
  { rewrite Eout, list_lookup_imap, Hm. reflexivity. }
  rewrite Ei. unfold shifted.
  split; [destruct Hwm as [[? _]|?]; auto|]. split; [|split].
  - intros Hid. destruct Hwm as [[_ Hpar]|Hid']; [|congruence].
    rewrite Hpar. reflexivity.
  - intros _ Hpar. destruct (Z.eqb_spec (mut_parent m) TSK_NULL); [contradiction|].
    split; [reflexivity|]. intros Hr. rewrite (wrap_id_small _ Hr). reflexivity.
  - intros _ Hpar. rewrite Hpar. reflexivity.
Qed.


(** C9: a call of [generate] that gets past the import clears the site and
    mutation tables whatever the flags are.  When the sampling then fails
    the two tables are left empty, and when the export fails they hold the
    rows the export appended to the empty tables; in both cases the sites
    the import read are still in the registry, and the other tables are
    untouched. *)
Theorem mutgen_generate_clears_tables (fuel : nat) (self self1 self' : mutgen_t)
    (g g' : gsl_rng) (tables tables' : tsk_table_collection_t) (flags : Z)
    (ret : msp_ret) :
  generate_prologue self tables flags = Done (MSP_OK, self1) ->
  mutgen_generate fuel self g tables flags = Done (ret, self', g', tables') ->
  sequence_length tables' = sequence_length tables
  /\ tc_nodes tables' = tc_nodes tables
  /\ tc_edges tables' = tc_edges tables
  /\ (forall x, x ∈ sites self1 -> x ∈ sites self')
  /\ ((ret <> MSP_OK
       /\ tc_sites tables' = tsk_site_table_clear (tc_sites tables)
       /\ tc_mutations tables' = tsk_mutation_table_clear (tc_mutations tables)
       /\ site_num_rows (tc_sites tables') = 0
       /\ mutation_num_rows (tc_mutations tables') = 0)
      \/ mutgen_populate_tables self' (tsk_site_table_clear (tc_sites tables))
           (tsk_mutation_table_clear (tc_mutations tables))
         = (ret, tc_sites tables', tc_mutations tables')).
Proof.
  intros Hp H. rewrite mutgen_generate_stages, Hp in H. unbind. simpl in H.
  apply generate_body_inv in H. destruct H as (ret_s & He & Hcase).
  assert (Hkeep : forall x, x ∈ sites self1 -> x ∈ sites self').
  { eapply (generate_edges_Inv (fun s => forall x, x ∈ sites self1 -> x ∈ sites s));
      [|intros x Hx; exact Hx|exact He].
    intros s s' node pos a d r Hs Ha x Hx. apply mutgen_add_mutation_inv in Ha.
    destruct Ha as [_ [(_ & ->)|(_ & -> & _)]]; [auto|].
    rewrite avl_place_perm. right. auto. }
  destruct Hcase as [(Hne & -> & ->)|(_ & st & mt & Hpop & ->)].
  - repeat split; auto. left. repeat split; auto.
  - repeat split; auto.
Qed.

End Runs.

Lemma keep_run_Done :
  @mutgen_generate (scripted 8 8) 4 fresh_mutgen (script [1; 2; 0]) keep_tables 1
  = Done (MSP_OK, keep_run_self, keep_run_rng, keep_run_tables).
Proof. vm_compute. reflexivity. Qed.

Lemma far_run_Done :
  @mutgen_generate (scripted 8 8) 4 fresh_mutgen (script [1; 2; 0]) far_parent_tables 1
  = Done (MSP_OK, far_run_self, snd (fst far_run_result), far_run_tables).
Proof. vm_compute. reflexivity. Qed.

Lemma mutgen_generate_export_parents_witness :
  mutation_parent (tc_mutations keep_run_tables) !! 0 = Some TSK_NULL
  /\ mutation_parent (tc_mutations keep_run_tables) !! 2 = Some 1%Z
  /\ mutation_parent (tc_mutations far_parent_tables) !! 1 = Some 2147483647%Z
  /\ mutation_parent (tc_mutations far_run_tables) !! 2 = Some (-2147483648)%Z.
Proof.
  pose proof (@mutgen_generate_export_parents (scripted 8 8) 4 fresh_mutgen
                keep_run_self (script [1; 2; 0]) keep_run_rng keep_tables
                keep_run_tables 1 keep_run_Done) as [_ H].
  pose proof (@mutgen_generate_export_parents (scripted 8 8) 4 fresh_mutgen
                far_run_self (script [1; 2; 0]) (snd (fst far_run_result))
                far_parent_tables far_run_tables 1 far_run_Done) as [_ Hfar].
  split; [|split; [|split; [reflexivity|]]].
  - destruct (H 0 {| mut_id := 0%Z; mut_node := 0%Z; mut_parent := TSK_NULL;
                     mut_derived_state := ["1"%byte]; mut_metadata := [] |} eq_refl)
      as (_ & H0 & _).
    exact (H0 eq_refl).
  - destruct (H 2 {| mut_id := 1%Z; mut_node := 0%Z; mut_parent := 0%Z;
                     mut_derived_state := ["0"%byte]; mut_metadata := [] |} eq_refl)
      as (_ & _ & H2 & _).
    destruct (H2 eq_refl ltac:(discriminate)) as [_ Hx].
    rewrite (Hx eq_refl). reflexivity.
  - destruct (Hfar 2 {| mut_id := 1%Z; mut_node := 0%Z; mut_parent := 2147483647%Z;
                        mut_derived_state := ["0"%byte]; mut_metadata := [] |} eq_refl)
      as (_ & _ & H2 & _).
    destruct (H2 eq_refl ltac:(discriminate)) as [Hx _].
    rewrite Hx. reflexivity.
Defined.



Lemma oom_run_Done :
  @mutgen_generate (scripted 1 8) 4 small_block_mutgen (script [1; 2; 0]) oom_tables 1
  = Done (MSP_ERR_NO_MEMORY, oom_run_self, oom_run_rng, oom_run_tables).
Proof. vm_compute. reflexivity. Qed.

Lemma oom_prologue_Done :
  @generate_prologue (scripted 1 8) small_block_mutgen oom_tables 1
  = Done (MSP_OK, oom_prologue_self).
Proof. vm_compute. reflexivity. Qed.

Lemma mutgen_generate_clears_tables_witness :
  site_num_rows (tc_sites oom_tables) = 1
  /\ site_num_rows (tc_sites oom_run_tables) = 0
  /\ length (sites oom_run_self) = 1.
Proof.
  split; [reflexivity|].
  destruct (@mutgen_generate_clears_tables (scripted 1 8) 4 small_block_mutgen
              oom_prologue_self oom_run_self (script [1; 2; 0]) oom_run_rng
              oom_tables oom_run_tables 1 MSP_ERR_NO_MEMORY
              oom_prologue_Done oom_run_Done)
    as (_ & _ & _ & _ & [(_ & _ & _ & Hs & _)|Hpop]).
  - split; [exact Hs | reflexivity].
  - vm_compute in Hpop. discriminate Hpop.
Defined.

(** ** Which mutation rows the import reads *)

Lemma run_start_from_consumed (col : list site_id_t) (k : nat) :
  forall site_id mutation_id,
    run_start_from col site_id mutation_id k
    = mutation_id + consumed (drop mutation_id col) site_id k.
Proof.
  induction k as [|k IH]; intros sid mid; simpl; [lia|].
  rewrite IH, drop_drop. lia.
Qed.

Lemma groups_cons (site_id c : nat) (counts : list nat) :
  groups site_id (c :: counts)
  = replicate c (Z.of_nat site_id) ++ groups (S site_id) counts.
Proof.
  unfold groups. rewrite imap_cons. simpl. rewrite Nat.add_0_r. f_equal. f_equal.
  apply imap_ext. intros i x _. simpl. f_equal. f_equal. lia.
Qed.

Lemma site_run_le (l : list site_id_t) (v : site_id_t) : site_run l v <= length l.
Proof. induction l as [|x l IH]; simpl; [lia|]. destruct (x =? v)%Z; lia. Qed.

Lemma site_run_take (l : list site_id_t) (v : site_id_t) :
  take (site_run l v) l = replicate (site_run l v) v.
Proof.
  induction l as [|x l IH]; simpl; [reflexivity|].
  destruct (Z.eqb_spec x v) as [->|]; simpl; [f_equal; exact IH | reflexivity].
Qed.

Lemma site_run_replicate_app (c : nat) (v : site_id_t) (rest : list site_id_t) :
  site_run (replicate c v ++ rest) v = c + site_run rest v.
Proof.
  induction c as [|c IH]; simpl; [reflexivity|].
  rewrite Z.eqb_refl, IH. reflexivity.
Qed.

Lemma site_run_groups_above (counts : list nat) :
  forall site_id v, (v < Z.of_nat site_id)%Z -> site_run (groups site_id counts) v = 0.
Proof.
  induction counts as [|c counts IH]; intros sid v Hv; [reflexivity|].
  rewrite groups_cons. destruct c as [|c]; simpl.
  - apply IH. lia.
  - destruct (Z.eqb_spec (Z.of_nat sid) v); [lia | reflexivity].
Qed.


(** The loop reads every row exactly when the column is grouped by site
    in increasing order. *)
Lemma consumed_all (k : nat) :
  forall suffix site_id,
    consumed suffix site_id k = length suffix
    <-> exists counts, length counts = k /\ suffix = groups site_id counts.
Proof.
  induction k as [|k IH]; intros suffix sid; simpl.
  - split.
    + intros H. exists []. split; [reflexivity|].
      destruct suffix; [reflexivity | discriminate].
    + intros (counts & Hl & ->). destruct counts; [reflexivity | discriminate].
  - set (r := site_run suffix (Z.of_nat sid)).
    pose proof (site_run_le suffix (Z.of_nat sid)) as Hr. fold r in Hr.
    split.
    + intros H.
      assert (Hd : consumed (drop r suffix) (S sid) k = length (drop r suffix))
        by (rewrite length_drop; lia).
      apply IH in Hd. destruct Hd as (counts & Hl & Hs).
      exists (r :: counts). split; [simpl; lia|].
      rewrite groups_cons, <- Hs. unfold r. rewrite <- site_run_take.
      symmetry. apply take_drop.
    + intros (counts & Hl & Hs). destruct counts as [|c counts]; [discriminate|].
      rewrite groups_cons in Hs.
      assert (Hrc : r = c).
      { unfold r. rewrite Hs, site_run_replicate_app, site_run_groups_above; lia. }
      rewrite Hrc.
      assert (Hdrop : drop c suffix = groups (S sid) counts).
      { rewrite Hs, drop_app_length'; [reflexivity | symmetry; apply length_replicate]. }
      rewrite Hdrop.
      assert (Hk : consumed (groups (S sid) counts) (S sid) k
                   = length (groups (S sid) counts)).
      { apply IH. exists counts. split; [simpl in Hl; lia | reflexivity]. }
      rewrite Hk, Hs, length_app, length_replicate. reflexivity.
Qed.

Section ImportRuns.

Context {P : Platform}.


End ImportRuns.

(** ** The arena is large enough for the import *)

Section ImportMemory.

Context {P : Platform}.

Lemma arena_block_size_fits (self : mutgen_t) (tables : tsk_table_collection_t) :
  sizeof_site <= 128 -> sizeof_avl_node <= 128 -> sizes_fit tables ->
  arena_fits (arena_block_size self tables) tables.
Proof.
  intros H1 H2 (F1 & F2 & F3 & F4 & F5). unfold arena_fits, arena_block_size.
  rewrite !tsk_size_wrap_small by assumption. repeat split; lia.
Qed.

Lemma check_integrity_None (tables : tsk_table_collection_t) :
  tsk_table_collection_check_integrity tables = None ->
  columns_ok tables = true
  /\ offsets_ok (site_num_rows (tc_sites tables))
       (site_ancestral_state_offset (tc_sites tables))
       (length (site_ancestral_state (tc_sites tables))) = true
  /\ offsets_ok (site_num_rows (tc_sites tables))
       (site_metadata_offset (tc_sites tables))
       (length (site_metadata (tc_sites tables))) = true
  /\ offsets_ok (mutation_num_rows (tc_mutations tables))
       (mutation_derived_state_offset (tc_mutations tables))
       (length (mutation_derived_state (tc_mutations tables))) = true
  /\ offsets_ok (mutation_num_rows (tc_mutations tables))
       (mutation_metadata_offset (tc_mutations tables))
       (length (mutation_metadata (tc_mutations tables))) = true.
Proof.
  unfold tsk_table_collection_check_integrity.
  destruct (columns_ok tables); simpl; [|discriminate].
  match goal with |- (if negb ?b then _ else _) = _ -> _ =>
    destruct b; simpl; [|discriminate] end.
  match goal with |- (if negb ?b then _ else _) = _ -> _ =>
    destruct b eqn:E; simpl; [|discriminate] end.
  intros _. split; [reflexivity|].
  apply andb_true_iff in E. destruct E as [E E4].
  apply andb_true_iff in E. destruct E as [E E3].
  apply andb_true_iff in E. destruct E as [E1 E2]. auto.
Qed.

Lemma copy_row_progress (a : tsk_blkalloc_t) (column : list byte)
    (offset : list nat) (n i : nat) :
  offsets_ok n offset (length column) = true -> i < n ->
  1 + length column <= chunk_size a ->
  exists r a',
    copy_row a column offset i = Done (r, a')
    /\ chunk_size a' = chunk_size a
    /\ (r = None -> exists k, chunk_ok k (chunk_size a) = false).
Proof.
  intros Ho Hi Hc.
  destruct (offsets_ok_row n offset (length column) i Ho Hi) as (x & y & Ex & Ey & Hxy & Hy).
  unfold copy_row, row_length, row_bytes.
  rewrite (load_lookup _ _ _ Ex), (load_lookup _ _ _ Ey). unbind.
  destruct (Nat.ltb_spec y x); [lia|].
  destruct (tsk_blkalloc_get a (y - x)) as [ok a1] eqn:Eg.
  apply tsk_blkalloc_get_fits in Eg; [|lia]. destruct Eg as [Hc1 Hf].
  destruct ok.
  - destruct (Nat.ltb_spec (length column) (x + (y - x))); [lia|].
    eexists _, _. split; [reflexivity|]. split; [exact Hc1 | discriminate].
  - eexists _, _. split; [reflexivity|]. split; [exact Hc1|]. intros _. auto.
Qed.

Lemma initialise_site_mutations_progress (tables : tsk_table_collection_t) (c : nat) :
  tsk_table_collection_check_integrity tables = None ->
  arena_fits c tables ->
  forall n a mutation_id,
    chunk_size a = c ->
    mutation_id + n <= mutation_num_rows (tc_mutations tables) ->
    exists ret ms a',
      initialise_site_mutations (tc_mutations tables) a n mutation_id
        = Done (ret, ms, a')
      /\ chunk_size a' = c
      /\ (ret = MSP_OK
          \/ (ret = MSP_ERR_NO_MEMORY /\ exists k, chunk_ok k c = false)).
Proof.
  intros Hi (_ & _ & _ & _ & Fd & Fm & _).
  apply check_integrity_None in Hi. destruct Hi as (Hcol & _ & _ & Od & Om).
  unfold columns_ok in Hcol.
  apply andb_true_iff in Hcol. destruct Hcol as [Hcol _].
  apply andb_true_iff in Hcol. destruct Hcol as [Hcol Lp].
  apply andb_true_iff in Hcol. destruct Hcol as [_ Ln].
  apply Nat.eqb_eq in Lp, Ln.
  induction n as [|n IH]; intros a mid Ha Hmid.
  - eexists _, _, _. split; [reflexivity|]. auto.
  - cbn [initialise_site_mutations].
    destruct (load_lt (mutation_node (tc_mutations tables)) mid ltac:(lia))
      as (node & _ & ->).
    destruct (load_lt (mutation_parent (tc_mutations tables)) mid ltac:(lia))
      as (parent & _ & ->).
    unbind.
    destruct (copy_row_progress a _ _ _ mid Od ltac:(lia) ltac:(lia))
      as (r1 & a1 & -> & C1 & F1).
    destruct r1 as [derived|].
    2:{ eexists _, _, _. split; [reflexivity|]. split; [congruence|].
        right. split; [reflexivity|]. rewrite <- Ha. auto. }
    destruct (copy_row_progress a1 _ _ _ mid Om ltac:(lia) ltac:(lia))
      as (r2 & a2 & -> & C2 & F2).
    destruct r2 as [meta|].
    2:{ eexists _, _, _. split; [reflexivity|]. split; [congruence|].
        right. split; [reflexivity|]. rewrite <- Ha, <- C1. auto. }
    destruct (IH a2 (S mid) ltac:(congruence) ltac:(lia))
      as (ret & ms & a3 & -> & C3 & Hret).
    eexists _, _, _. split; [reflexivity|]. split; [exact C3 | exact Hret].
Qed.

Lemma initialise_sites_loop_progress (tables : tsk_table_collection_t) (c : nat) :
  tsk_table_collection_check_integrity tables = None ->
  arena_fits c tables ->
  forall n site_id mutation_id self,
    chunk_size (allocator self) = c ->
    site_id + n = site_num_rows (tc_sites tables) ->
    mutation_id <= mutation_num_rows (tc_mutations tables) ->
    exists ret self',
      initialise_sites_loop tables n site_id mutation_id self = Done (ret, self')
      /\ (ret = MSP_OK \/ ret = MSP_ERR_DUPLICATE_SITE_POSITION
          \/ (ret = MSP_ERR_NO_MEMORY /\ exists k, chunk_ok k c = false)).
Proof.
  intros Hi Hfit.
  pose proof Hfit as (Fs & Fa & Fas & Fsm & _ & _ & Fmut).
  pose proof (check_integrity_None _ Hi) as (_ & Oa & Os & _ & _).
  induction n as [|n IH]; intros sid mid self Ha Hsid Hmid.
  - eexists _, _. split; [reflexivity|]. auto.
  - cbn [initialise_sites_loop].
    set (num := site_run (drop mid (mutation_site (tc_mutations tables))) (Z.of_nat sid)).
    assert (Hnum : mid + num <= mutation_num_rows (tc_mutations tables)).
    { pose proof (site_run_le (drop mid (mutation_site (tc_mutations tables)))
                    (Z.of_nat sid)) as Hr.
      rewrite length_drop in Hr. fold num in Hr.
      unfold mutation_num_rows in *. lia. }
    assert (Hreq : num * sizeof_mutation <= c).
    { etransitivity; [|exact Fmut]. apply Nat.mul_le_mono_r. lia. }
    destruct (tsk_blkalloc_get (allocator self) sizeof_site) as [ok1 a1] eqn:G1.
    apply tsk_blkalloc_get_fits in G1; [|lia]. destruct G1 as [C1 F1].
    destruct (tsk_blkalloc_get a1 sizeof_avl_node) as [ok2 a2] eqn:G2.
    apply tsk_blkalloc_get_fits in G2; [|lia]. destruct G2 as [C2 F2].
    destruct (tsk_blkalloc_get a2 (num * sizeof_mutation)) as [ok3 a3] eqn:G3.
    apply tsk_blkalloc_get_fits in G3; [|lia]. destruct G3 as [C3 F3].
    rewrite C1 in F2. rewrite C2, C1 in F3. rewrite Ha in F1, F2, F3.
    destruct ok1; simpl.
    2:{ eexists _, _. split; [reflexivity|]. right. right. auto. }
    destruct ok2; simpl.
    2:{ eexists _, _. split; [reflexivity|]. right. right. auto. }
    destruct ok3; simpl.
    2:{ eexists _, _. split; [reflexivity|]. right. right. auto. }
    destruct (load_lt (site_position (tc_sites tables)) sid
                ltac:(unfold site_num_rows in Hsid; lia)) as (pos & _ & ->).
    unbind.
    destruct (copy_row_progress a3 _ _ _ sid Oa ltac:(lia) ltac:(lia))
      as (r1 & a4 & -> & C4 & F4).
    assert (E3 : chunk_size a3 = c) by congruence. rewrite E3 in F4.
    destruct r1 as [ancestral|].
    2:{ eexists _, _. split; [reflexivity|]. right. right. auto. }
    destruct (copy_row_progress a4 _ _ _ sid Os ltac:(lia) ltac:(lia))
      as (r2 & a5 & -> & C5 & F5).
    assert (E4 : chunk_size a4 = c) by congruence. rewrite E4 in F5.
    destruct r2 as [meta|].
    2:{ eexists _, _. split; [reflexivity|]. right. right. auto. }
    destruct (initialise_site_mutations_progress tables c Hi Hfit num a5 mid
                ltac:(congruence) Hnum) as (ret1 & ms & a6 & -> & C6 & Hret1).
    destruct Hret1 as [-> | (-> & Hk)]; simpl.
    2:{ eexists _, _. split; [reflexivity|]. right. right. auto. }
    destruct (avl_insert_node (sites self) _) as [tree|].
    + apply IH; simpl; try lia; exact C6.
    + eexists _, _. split; [reflexivity|]. auto.
Qed.

(** C8, amended: the block size [mutgen_init_allocator] settles on is the
    largest of the hint (8192 when zero), 128, each text column's length
    plus one and the number of mutation rows plus one, these sums formed in
    the 32 bits of [tsk_size_t], the last times the size of a mutation
    record.  A sum of [2^32] wraps around to 0 and raises nothing.  When
    no sum wraps, no single request of the import exceeds the block size,
    so that on tables that passed their check the import returns, and it
    returns [OutOfMemory] only when the system refused the arena a
    block. *)
Theorem mutget_initialise_sites_memory (self self0 self2 : mutgen_t)
    (tables : tsk_table_collection_t) :
  sizeof_site <= 128 -> sizeof_avl_node <= 128 ->
  mutgen_init_allocator self tables = (MSP_OK, self0) ->
  tsk_table_collection_check_integrity tables = None ->
  allocator self2 = allocator self0 ->
  block_size self0 = arena_block_size self tables
  /\ chunk_size (allocator self0) = arena_block_size self tables
  /\ (forall n, Z.of_nat n = (2 ^ 32 - 1)%Z -> tsk_size_wrap (1 + n) = 0)
  /\ (sizes_fit tables ->
      arena_fits (arena_block_size self tables) tables
      /\ exists ret self1,
           mutget_initialise_sites self2 tables = Done (ret, self1)
           /\ (ret = MSP_OK \/ ret = MSP_ERR_DUPLICATE_SITE_POSITION
               \/ (ret = MSP_ERR_NO_MEMORY
                   /\ exists k, chunk_ok k (arena_block_size self tables) = false))).
Proof.
  intros Hs Ha Hinit Hint Halloc.
  apply mutgen_init_allocator_spec in Hinit. destruct Hinit as (Hb & Hc & _).
  split; [exact Hb|]. split; [exact Hc|].
  split; [exact tsk_size_wrap_zero|]. intros Hsz.
  pose proof (arena_block_size_fits self tables Hs Ha Hsz) as Hfit.
  split; [exact Hfit|].
  unfold mutget_initialise_sites.
  apply (initialise_sites_loop_progress tables _ Hint Hfit); try lia.
  congruence.
Qed.

End ImportMemory.

(** C8, as stated, fails: with blocks of 128 bytes, of which the system
    grants one, the import of the second of two sites runs out of memory,
    though the arena was sized for the tables and they passed their check. *)
Lemma import_out_of_memory :
  let self0 := snd (@mutgen_init_allocator (scripted 1 8) small_block_mutgen
                      two_site_tables) in
  @mutgen_init_allocator (scripted 1 8) small_block_mutgen two_site_tables
    = (MSP_OK, self0)
  /\ tsk_table_collection_check_integrity two_site_tables = None
  /\ chunk_size (allocator self0)
     = @arena_block_size (scripted 1 8) small_block_mutgen two_site_tables
  /\ exists self1,
       @mutget_initialise_sites (scripted 1 8) self0 two_site_tables
       = Done (MSP_ERR_NO_MEMORY, self1).
Proof.
  split; [reflexivity|]. split; [reflexivity|]. split; [reflexivity|].
  eexists. vm_compute. reflexivity.
Qed.

Lemma mutget_initialise_sites_memory_witness :
  exists ret self1,
    @mutget_initialise_sites (scripted 1 8)
      (snd (@mutgen_init_allocator (scripted 1 8) small_block_mutgen two_site_tables))
      two_site_tables = Done (ret, self1)
    /\ (ret = MSP_ERR_NO_MEMORY -> exists k, (k <? 1) = false).
Proof.
  destruct (@mutget_initialise_sites_memory (scripted 1 8) small_block_mutgen
              (snd (@mutgen_init_allocator (scripted 1 8) small_block_mutgen
                      two_site_tables))
              (snd (@mutgen_init_allocator (scripted 1 8) small_block_mutgen
                      two_site_tables))
              two_site_tables ltac:(simpl; lia) ltac:(simpl; lia)
              eq_refl eq_refl eq_refl)
    as (_ & _ & _ & H).
  destruct (H ltac:(repeat split; reflexivity)) as (_ & ret & self1 & E & Hret).
  exists ret, self1. split; [exact E|].
  intros ->. destruct Hret as [Hr|[Hr|(_ & k & Hk)]]; try discriminate.
  exists k. exact Hk.
Defined.


(** ** An edge outside the time window *)

Lemma dle_0_SFnot_pos (x : double) : dle x 0%float = true -> SFnot_pos (Prim2SF x).
Proof.
  unfold dle. rewrite leb_spec. unfold SFleb.
  change (Prim2SF 0%float) with (S754_zero false).
  destruct (Prim2SF x) as [[]|[]| |[] m e]; simpl; auto; discriminate.
Qed.

Lemma dle_0_SFpos_or_zero (x : double) :
  dle 0%float x = true -> SFpos_or_zero (Prim2SF x).
Proof.
  unfold dle. rewrite leb_spec. unfold SFleb.
  change (Prim2SF 0%float) with (S754_zero false).
  destruct (Prim2SF x) as [[]|[]| |[] m e]; simpl; auto; discriminate.
Qed.

Lemma SFnot_pos_dgt (x : double) : SFnot_pos (Prim2SF x) -> dgt x 0%float = false.
Proof.
  unfold dgt. rewrite ltb_spec. unfold SFltb.
  change (Prim2SF 0%float) with (S754_zero false).
  destruct (Prim2SF x) as [[]|[]| |[] m e]; simpl; auto; discriminate.
Qed.

Lemma binary_round_aux_not_pos (prec emax mx ex : Z) (lx : location) :
  SFnot_pos (binary_round_aux prec emax true mx ex lx).
Proof.
  unfold binary_round_aux.
  destruct (shr_fexp prec emax mx ex lx) as [mrs e].
  destruct (shr_fexp prec emax _ e loc_Exact) as [mrs' e'].
  destruct (shr_m mrs'); simpl; auto.
  destruct (e' <=? emax - prec)%Z; reflexivity.
Qed.

Lemma SFmul_not_pos (a b : spec_float) :
  SFnot_pos a -> SFpos_or_zero b -> SFnot_pos (SF64mul a b).
Proof.
  unfold SF64mul, SFmul.
  destruct a as [sa|sa| |sa ma ea], b as [sb|sb| |sb mb eb]; simpl; auto;
    try (intros -> ->; simpl; auto); try contradiction.
  apply binary_round_aux_not_pos.
Qed.

(** The smaller of [a] and a bound [s] that is not below [a] compares
    equal to [a]. *)
Lemma dle_min_eq (a s : double) :
  dle a s = true -> dne (GSL_MIN_dbl a s) a = false.
Proof.
  unfold dle, dne, GSL_MIN_dbl, dlt.
  rewrite leb_spec, ltb_spec. unfold SFleb, SFltb.
  destruct (SFcompare (Prim2SF a) (Prim2SF s)) as [[]|] eqn:E; try discriminate;
    intros _; apply negb_false_iff; rewrite FloatAxioms.eqb_spec; unfold SFeqb.
  - rewrite SFcompare_antisym, E. reflexivity.
  - rewrite SFcompare_refl; [reflexivity|].
    intros Hn. rewrite Hn in E. discriminate E.
Qed.

(** The Poisson mean of a segment of a branch of length at most zero is
    not above zero. *)
Lemma mean_not_positive (branch_length width rate : double) :
  dle branch_length 0%float = true -> dle 0%float width = true ->
  dle 0%float rate = true ->
  dgt (branch_length * width * rate)%float 0%float = false.
Proof.
  intros Hb Hw Hr. apply SFnot_pos_dgt. rewrite !mul_spec.
  apply SFmul_not_pos; [|apply dle_0_SFpos_or_zero, Hr].
  apply SFmul_not_pos; [apply dle_0_SFnot_pos, Hb | apply dle_0_SFpos_or_zero, Hw].
Qed.

Section Window.

Context {P : Platform}.

Lemma generate_segments_nonpositive (fuel : nat) :
  forall self g child left edge_right branch_length types right map_index ret self' g',
    poisson_zero_below ->
    rates_nonnegative self ->
    widths_nonnegative self left edge_right map_index ->
    dle branch_length 0%float = true ->
    generate_segments fuel self g child left edge_right branch_length types right
      map_index = Done (ret, self', g') ->
    ret = MSP_OK /\ self' = self.
Proof.
  induction fuel as [|fuel IH];
    intros self g child left edge_right bl types right map_index ret self' g'
      Hpz Hrates Hwidths Hbl H.
  - simpl in H. destruct (negb (dne right edge_right)); [|discriminate].
    injection H as <- <- <-. auto.
  - cbn [generate_segments] in H.
    destruct (negb (dne right edge_right)).
    { injection H as <- <- <-. auto. }
    unbind.
    destruct (map_position (mutation_map self)) as [mp|] eqn:Emp; [|discriminate].
    destruct (map_rate (mutation_map self)) as [mr|] eqn:Emr; [|discriminate].
    simpl in H.
    unfold load_cell in H.
    destruct (mp !! (map_index + 1)) as [[p|]|] eqn:Ep; try discriminate.
    destruct (mr !! map_index) as [[r|]|] eqn:Er; try discriminate.
    assert (Hlt : map_index < map_index + 1) by lia.
    pose proof (mean_not_positive bl _ r Hbl (Hwidths mp _ p Emp Hlt Ep)
                  (Hrates mr _ r Emr Er)) as Hmu.
    pose proof (Hpz g _ Hmu) as Hk.
    destruct (gsl_ran_poisson g _) as [k g1]. simpl in Hk. subst k.
    simpl in H.
    apply (IH self g1 child left edge_right bl types (GSL_MIN_dbl edge_right p)
             (S map_index) ret self' g'); auto.
    intros mp' i p' Hmp' Hi. apply (Hwidths mp' i p' Hmp'). lia.
Qed.

(** With a sampler that returns zero the loop over the segments ends at
    the sentinel at the latest. *)
Lemma generate_segments_returns (fuel : nat) :
  forall self g child left edge_right branch_length types right map_index mp mr sentinel,
    poisson_zero_below ->
    rates_nonnegative self ->
    widths_nonnegative self left edge_right map_index ->
    dle branch_length 0%float = true ->
    map_position (mutation_map self) = Some mp ->
    map_rate (mutation_map self) = Some mr ->
    (forall i, map_index < i -> i <= map_size (mutation_map self) ->
       exists p, mp !! i = Some (Some p)) ->
    (forall i, map_index <= i -> i < map_size (mutation_map self) ->
       exists r, mr !! i = Some (Some r)) ->
    mp !! map_size (mutation_map self) = Some (Some sentinel) ->
    dle edge_right sentinel = true ->
    map_index < map_size (mutation_map self)
      \/ (map_index = map_size (mutation_map self) /\ dne right edge_right = false) ->
    map_size (mutation_map self) - map_index < fuel ->
    exists g',
      generate_segments fuel self g child left edge_right branch_length types right
        map_index = Done (MSP_OK, self, g').
Proof.
  induction fuel as [|fuel IH];
    intros self g child left edge_right bl types right map_index mp mr sentinel
      Hpz Hrates Hwidths Hbl Emp Emr Hp Hr Hs Hle Hidx Hfuel; [lia|].
  cbn [generate_segments].
  destruct (dne right edge_right) eqn:Hne; simpl; [|eauto].
  destruct Hidx as [Hidx|[_ Hidx]]; [|congruence].
  rewrite Emp, Emr. unbind. simpl.
  destruct (Hp (map_index + 1)) as (p & Ep); [lia..|].
  destruct (Hr map_index) as (r & Er); [lia..|].
  unfold load_cell. rewrite Ep, Er.
  assert (Hlt : map_index < map_index + 1) by lia.
  pose proof (mean_not_positive bl _ r Hbl (Hwidths mp _ p Emp Hlt Ep)
                (Hrates mr _ r Emr Er)) as Hmu.
  pose proof (Hpz g _ Hmu) as Hk.
  destruct (gsl_ran_poisson g _) as [k g1]. simpl in Hk. subst k.
  simpl.
  apply (IH self g1 child left edge_right bl types (GSL_MIN_dbl edge_right p)
           (S map_index) mp mr sentinel); auto; try lia.
  - intros mp' i p' Hmp' Hi. apply (Hwidths mp' i p' Hmp'). lia.
  - intros i Hi Hi'. apply Hp; lia.
  - intros i Hi Hi'. apply Hr; lia.
  - destruct (Nat.eq_dec (S map_index) (map_size (mutation_map self))) as [E|E];
      [right | left; lia].
    split; [exact E|].
    replace (map_index + 1) with (map_size (mutation_map self)) in Ep by lia.
    rewrite Hs in Ep. injection Ep as <-.
    apply dle_min_eq, Hle.
Qed.

Lemma generate_edge_first_segment (fuel : nat) (self : mutgen_t) (g : gsl_rng)
    (tables : tsk_table_collection_t) (types : list mutation_type_t) (j k : nat)
    (left right_end child_time parent_time : double) (parent child : node_id_t) :
  edge_left (tc_edges tables) !! j = Some left ->
  edge_right (tc_edges tables) !! j = Some right_end ->
  edge_parent (tc_edges tables) !! j = Some parent ->
  edge_child (tc_edges tables) !! j = Some child ->
  node_time (tc_nodes tables) !! Z.to_nat child = Some child_time ->
  node_time (tc_nodes tables) !! Z.to_nat parent = Some parent_time ->
  first_segment self left = Done k ->
  (0 <= child)%Z -> (0 <= parent)%Z ->
  generate_edge fuel self g tables types j
  = generate_segments fuel self g child left right_end
      (GSL_MIN_dbl (end_time self) parent_time
       - GSL_MAX_dbl (start_time self) child_time)%float types 0%float k.
Proof.
  intros El Er Ep Ec Etc Etp Hk Hc Hp.
  unfold generate_edge.
  rewrite (load_lookup _ _ _ El), (load_lookup _ _ _ Er), (load_lookup _ _ _ Ep),
    (load_lookup _ _ _ Ec).
  unbind.
  assert (Hrows : (child <? Z.of_nat (node_num_rows (tc_nodes tables)))%Z = true).
  { apply Z.ltb_lt. apply lookup_lt_Some in Etc. unfold node_num_rows. lia. }
  rewrite Hrows. replace (0 <=? child)%Z with true by (symmetry; apply Z.leb_le, Hc).
  simpl. rewrite (load_lookup _ _ _ Etc).
  replace (parent <? 0)%Z with false by (symmetry; apply Z.ltb_ge, Hp).
  rewrite (load_lookup _ _ _ Etp).
  unfold first_segment in Hk. unbind.
  destruct (from_option Done Crash (map_position (mutation_map self))) as [mp| |];
    try discriminate.
  destruct (read_cells mp _) as [cells| |]; try discriminate.
  destruct (load_cell mp _) as [p| |]; try discriminate.
  destruct (dgt p left); [destruct (_ =? 0); [discriminate|]|];
    injection Hk as <-; reflexivity.
Qed.

(** C4, amended: [generate] makes no test of the clipped branch length: it
    forms the mean of every segment and asks the sampler for a count.  An
    edge whose clipped branch length is at most zero adds no mutation, and
    leaves the generator's sites and arena as they were, when the sampler
    returns zero for every mean that is not above zero, the rates of the
    map are at least zero and so is the width of every segment from the
    one the edge starts in.  On a map written up to a sentinel that is not
    below the right end of the edge, the loop over the edge returns, with
    fuel for one round a segment. *)
Theorem generate_edge_nonpositive_branch (fuel : nat) (self : mutgen_t)
    (g : gsl_rng) (tables : tsk_table_collection_t)
    (types : list mutation_type_t) (j k : nat)
    (left right_end child_time parent_time : double) (parent child : node_id_t) :
  poisson_zero_below ->
  rates_nonnegative self ->
  edge_left (tc_edges tables) !! j = Some left ->
  edge_right (tc_edges tables) !! j = Some right_end ->
  edge_parent (tc_edges tables) !! j = Some parent ->
  edge_child (tc_edges tables) !! j = Some child ->
  node_time (tc_nodes tables) !! Z.to_nat child = Some child_time ->
  node_time (tc_nodes tables) !! Z.to_nat parent = Some parent_time ->
  first_segment self left = Done k ->
  widths_nonnegative self left right_end k ->
  dle (GSL_MIN_dbl (end_time self) parent_time
       - GSL_MAX_dbl (start_time self) child_time)%float 0%float = true ->
  (forall ret self' g',
     generate_edge fuel self g tables types j = Done (ret, self', g') ->
     ret = MSP_OK /\ self' = self)
  /\ ((0 <= child)%Z -> (0 <= parent)%Z ->
      map_covers self k right_end ->
      map_size (mutation_map self) - k < fuel ->
      exists g', generate_edge fuel self g tables types j = Done (MSP_OK, self, g')).
Proof.
  intros Hpz Hrates El Er Ep Ec Etc Etp Hk Hw Hbl. split.
  - intros ret self' g' H.
    unfold generate_edge in H.
    rewrite (load_lookup _ _ _ El), (load_lookup _ _ _ Er), (load_lookup _ _ _ Ep),
      (load_lookup _ _ _ Ec) in H.
    unfold first_segment in Hk.
    unbind.
    destruct (negb _); [discriminate|].
    rewrite (load_lookup _ _ _ Etc) in H.
    destruct (parent <? 0)%Z; [discriminate|].
    rewrite (load_lookup _ _ _ Etp) in H.
    destruct (from_option Done Crash (map_position (mutation_map self))) as [mp| |];
      try discriminate.
    destruct (read_cells mp _) as [cells| |]; try discriminate.
    destruct (load_cell mp _) as [p| |]; try discriminate.
    assert (Hk' : exists k', (if dgt p left
                              then if tsk_search_sorted cells left =? 0 then Crash
                                   else Done (tsk_search_sorted cells left - 1)
                              else Done (tsk_search_sorted cells left)) = Done k'
                             /\ k' = k).
    { exists k. split; [exact Hk | reflexivity]. }
    destruct Hk' as (k' & Hk1 & ->).
    rewrite Hk1 in H.
    eapply generate_segments_nonpositive; eauto.
  - intros Hc Hp (mp & mr & sentinel & Emp & Emr & Hlt & Hcells & Hrs & Hs & Hle) Hfuel.
    rewrite (generate_edge_first_segment fuel self g tables types j k left right_end
               child_time parent_time parent child El Er Ep Ec Etc Etp Hk Hc Hp).
    eapply generate_segments_returns; eauto.
Qed.

End Window.

(** C4, as stated, fails: for an edge wholly outside the time window the
    branch length is -4, and the mean -40 is formed from it and passed to
    the Poisson sampler; nothing tests the branch length first. *)
Lemma negative_mean_is_drawn :
  dle (GSL_MIN_dbl 6 1 - GSL_MAX_dbl 5 0)%float 0%float = true
  /\ @mutgen_generate (scripted 8 8) 4
       (snd (mutgen_set_time_interval fresh_mutgen 5%float 6%float)) (script [])
       plain_tables 0
     = Done (MSP_OK, windowed_mutgen,
             {| answers := []; poisson_means := [(-40)%float] |}, plain_tables)
  /\ @generate_edge (scripted 8 8) 4 windowed_mutgen (script []) plain_tables
       binary_mutation_types 0
     = Done (MSP_OK, windowed_mutgen,
             {| answers := []; poisson_means := [(-40)%float] |})
  /\ {| answers := []; poisson_means := [(-40)%float] |} <> script [].
Proof.
  split; [reflexivity|]. split; [vm_compute; reflexivity|].
  split; [vm_compute; reflexivity | discriminate].
Qed.

Lemma generate_edge_nonpositive_branch_witness :
  exists g',
    @generate_edge (scripted 8 8) 4 windowed_mutgen (script []) plain_tables
      binary_mutation_types 0 = Done (MSP_OK, windowed_mutgen, g').
Proof.
  assert (Hpz : @poisson_zero_below (scripted 8 8)).
  { intros g mu Hmu. simpl. unfold script_poisson. rewrite Hmu. reflexivity. }
  assert (Hr : rates_nonnegative windowed_mutgen).
  { intros mr i r Hmr Hr. simpl in Hmr. injection Hmr as <-.
    destruct i as [|i]; simpl in Hr; [injection Hr as <-; reflexivity | discriminate]. }
  assert (Hw : widths_nonnegative windowed_mutgen 0%float 10%float 0).
  { intros mp i p Hmp Hi Hp. simpl in Hmp. injection Hmp as <-.
    destruct i as [|[|i]]; simpl in Hp; try discriminate;
      injection Hp as <-; reflexivity. }
  assert (Hm : map_covers windowed_mutgen 0 10%float).
  { exists [Some 0%float; Some 10%float], [Some 1%float], 10%float. simpl.
    split; [reflexivity|]. split; [reflexivity|]. split; [lia|].
    split; [|split; [|split; reflexivity]].
    - intros i Hi Hi'. assert (i = 1) as -> by lia. eauto.
    - intros i Hi Hi'. assert (i = 0) as -> by lia. eauto. }
  destruct (@generate_edge_nonpositive_branch (scripted 8 8) 4 windowed_mutgen
              (script []) plain_tables binary_mutation_types 0 0
              0%float 10%float 0%float 1%float 1%Z 0%Z
              Hpz Hr eq_refl eq_refl eq_refl eq_refl eq_refl eq_refl eq_refl Hw eq_refl)
    as [_ Hreturns].
  apply Hreturns; [lia | lia | exact Hm | simpl; lia].
Defined.

(** ** Two runs on the same inputs *)

Section TwoRuns.

Context {P : Platform}.

Lemma mutgen_add_mutation_agree (s s' s1 s1' : mutgen_t) (node : node_id_t)
    (pos : double) (a d : list byte) :
  same_but_arena s s' ->
  mutgen_add_mutation s node pos a d = Done (MSP_OK, s1) ->
  mutgen_add_mutation s' node pos a d = Done (MSP_OK, s1') ->
  same_but_arena s1 s1'.
Proof.
  intros (Ha & Hs & He & Hsi & Hm) H H'.
  apply mutgen_add_mutation_inv in H, H'.
  destruct H as [(A1 & A2 & A3 & _ & A5) [(? & _)|(_ & E & _)]]; [discriminate|].
  destruct H' as [(B1 & B2 & B3 & _ & B5) [(? & _)|(_ & E' & _)]]; [discriminate|].
  repeat split; try congruence.
Qed.

Lemma sample_position_agree (fuel : nat) (tree : list tsk_site_t) :
  forall fuel' g left right r r',
    sample_position fuel tree g left right = Done r ->
    sample_position fuel' tree g left right = Done r' ->
    r = r'.
Proof.
  induction fuel as [|fuel IH]; intros fuel' g left right r r' H H'; [discriminate|].
  destruct fuel' as [|fuel']; [discriminate|].
  cbn [sample_position] in H, H'.
  destruct (gsl_ran_flat g left right) as [p g1].
  destruct (avl_search tree _).
  - eapply IH; eauto.
  - congruence.
Qed.

Lemma generate_mutations_agree (k : nat) :
  forall fuel fuel' s s' g child left right types s1 g1 s1' g1',
    same_but_arena s s' ->
    generate_mutations fuel k s g child left right types = Done (MSP_OK, s1, g1) ->
    generate_mutations fuel' k s' g child left right types = Done (MSP_OK, s1', g1') ->
    same_but_arena s1 s1' /\ g1 = g1'.
Proof.
  induction k as [|k IH];
    intros fuel fuel' s s' g child left right types s1 g1 s1' g1' Hs H H'.
  - simpl in H, H'. injection H as <- <-. injection H' as <- <-. auto.
  - cbn [generate_mutations] in H, H'. unbind.
    pose proof Hs as (_ & _ & _ & Hsites & _). rewrite <- Hsites in H'.
    destruct (sample_position fuel (sites s) g left right) as [r| |] eqn:E;
      try discriminate.
    destruct (sample_position fuel' (sites s) g left right) as [r'| |] eqn:E';
      try discriminate.
    pose proof (sample_position_agree _ _ _ _ _ _ _ _ E E') as <-.
    destruct r as [pos g2].
    destruct (negb (dle left pos && dlt pos right)); [discriminate|].
    destruct (gsl_rng_uniform_int g2 (length types)) as [type g3].
    destruct (load types type) as [mt| |]; try discriminate.
    destruct (mutgen_add_mutation s child pos _ _) as [[ret2 s2]| |] eqn:A;
      try discriminate.
    destruct (mutgen_add_mutation s' child pos _ _) as [[ret2' s2']| |] eqn:A';
      try discriminate.
    destruct ret2; simpl in H; try discriminate.
    destruct ret2'; simpl in H'; try discriminate.
    eapply IH; [|exact H|exact H'].
    eapply mutgen_add_mutation_agree; eauto.
Qed.

Lemma generate_segments_agree (fuel : nat) :
  forall fuel' s s' g child left edge_right bl types right map_index s1 g1 s1' g1',
    same_but_arena s s' ->
    generate_segments fuel s g child left edge_right bl types right map_index
      = Done (MSP_OK, s1, g1) ->
    generate_segments fuel' s' g child left edge_right bl types right map_index
      = Done (MSP_OK, s1', g1') ->
    same_but_arena s1 s1' /\ g1 = g1'.
Proof.
  induction fuel as [|fuel IH];
    intros fuel' s s' g child left edge_right bl types right map_index s1 g1 s1' g1'
      Hs H H'.
  - simpl in H. destruct (negb (dne right edge_right)) eqn:Ed; [|discriminate].
    injection H as <- <-.
    destruct fuel'; simpl in H'; rewrite Ed in H'; injection H' as <- <-; auto.
  - cbn [generate_segments] in H.
    destruct (negb (dne right edge_right)) eqn:Ed.
    { injection H as <- <-.
      destruct fuel'; simpl in H'; rewrite Ed in H'; injection H' as <- <-; auto. }
    destruct fuel' as [|fuel']; simpl in H'; rewrite Ed in H'; [discriminate|].
    pose proof Hs as (_ & _ & _ & _ & Hm). rewrite <- Hm in H'.
    unbind.
    destruct (from_option Done Crash (map_position (mutation_map s))) as [mp| |];
      try discriminate.
    destruct (from_option Done Crash (map_rate (mutation_map s))) as [mr| |];
      try discriminate.
    destruct (load_cell mp (map_index + 1)) as [p| |]; try discriminate.
    destruct (load_cell mr map_index) as [r| |]; try discriminate.
    destruct (gsl_ran_poisson g _) as [k g2].
    destruct (generate_mutations (S fuel) k s g2 child left _ types)
      as [[[ret3 s3] g3]| |] eqn:M; try discriminate.
    destruct (generate_mutations (S fuel') k s' g2 child left _ types)
      as [[[ret3' s3'] g3']| |] eqn:M'; try discriminate.
    destruct ret3; simpl in H; try discriminate.
    destruct ret3'; simpl in H'; try discriminate.
    destruct (generate_mutations_agree _ _ _ _ _ _ _ _ _ _ _ _ _ _ Hs M M') as [Hs3 <-].
    eapply IH; eauto.
Qed.

Lemma generate_edge_agree (fuel fuel' : nat) (s s' s1 s1' : mutgen_t)
    (g g1 g1' : gsl_rng) (tables tables' : tsk_table_collection_t)
    (types : list mutation_type_t) (j : nat) :
  same_but_arena s s' ->
  tc_nodes tables = tc_nodes tables' -> tc_edges tables = tc_edges tables' ->
  generate_edge fuel s g tables types j = Done (MSP_OK, s1, g1) ->
  generate_edge fuel' s' g tables' types j = Done (MSP_OK, s1', g1') ->
  same_but_arena s1 s1' /\ g1 = g1'.
Proof.
  intros Hs Hn He H H'. unfold generate_edge in H, H'.
  pose proof Hs as (_ & Hst & Het & _ & Hm).
  rewrite <- Hn, <- He, <- Hst, <- Het, <- Hm in H'. unbind.
  repeat (match type of H with
          | match ?x with _ => _ end = _ => destruct x; try discriminate
          | (if ?b then _ else _) = _ => destruct b; try discriminate
          end).
  all: eapply generate_segments_agree; eauto.
Qed.

Lemma generate_edges_agree (n : nat) :
  forall fuel fuel' s s' g tables tables' types j s1 g1 s1' g1',
    same_but_arena s s' ->
    tc_nodes tables = tc_nodes tables' -> tc_edges tables = tc_edges tables' ->
    generate_edges fuel s g tables types n j = Done (MSP_OK, s1, g1) ->
    generate_edges fuel' s' g tables' types n j = Done (MSP_OK, s1', g1') ->
    same_but_arena s1 s1' /\ g1 = g1'.
Proof.
  induction n as [|n IH];
    intros fuel fuel' s s' g tables tables' types j s1 g1 s1' g1' Hs Hn He H H'.
  - simpl in H, H'. injection H as <- <-. injection H' as <- <-. auto.
  - cbn [generate_edges] in H, H'. unbind.
    destruct (generate_edge fuel s g tables types j) as [[[r2 s2] g2]| |] eqn:E;
      try discriminate.
    destruct (generate_edge fuel' s' g tables' types j) as [[[r2' s2'] g2']| |] eqn:E';
      try discriminate.
    destruct r2; simpl in H; try discriminate.
    destruct r2'; simpl in H'; try discriminate.
    destruct (generate_edge_agree _ _ _ _ _ _ _ _ _ _ _ _ _ Hs Hn He E E') as [Hs2 <-].
    eapply IH; eauto.
Qed.

Lemma copy_row_agree (a a' a1 a1' : tsk_blkalloc_t) (column : list byte)
    (offset : list nat) (i : nat) (b b' : list byte) :
  copy_row a column offset i = Done (Some b, a1) ->
  copy_row a' column offset i = Done (Some b', a1') ->
  b = b'.
Proof.
  intros H H'. apply copy_row_inv in H, H'. destruct H as [_ H], H' as [_ H'].
  congruence.
Qed.

Lemma initialise_site_mutations_agree (mt : tsk_mutation_table_t) (n : nat) :
  forall a a' mutation_id ms ms' a1 a1',
    initialise_site_mutations mt a n mutation_id = Done (MSP_OK, ms, a1) ->
    initialise_site_mutations mt a' n mutation_id = Done (MSP_OK, ms', a1') ->
    ms = ms'.
Proof.
  induction n as [|n IH]; intros a a' mid ms ms' a1 a1' H H'.
  - simpl in H, H'. congruence.
  - cbn [initialise_site_mutations] in H, H'. unbind.
    destruct (load (mutation_node mt) mid) as [node| |]; try discriminate.
    destruct (load (mutation_parent mt) mid) as [parent| |]; try discriminate.
    destruct (copy_row a _ _ mid) as [[[d|] a2]| |] eqn:C1; try discriminate.
    destruct (copy_row a' _ _ mid) as [[[d'|] a2']| |] eqn:C1'; try discriminate.
    pose proof (copy_row_agree _ _ _ _ _ _ _ _ _ C1 C1') as <-.
    destruct (copy_row a2 _ _ mid) as [[[m|] a3]| |] eqn:C2; try discriminate.
    destruct (copy_row a2' _ _ mid) as [[[m'|] a3']| |] eqn:C2'; try discriminate.
    pose proof (copy_row_agree _ _ _ _ _ _ _ _ _ C2 C2') as <-.
    destruct (initialise_site_mutations mt a3 n (S mid)) as [[[r4 ms4] a4]| |] eqn:R;
      try discriminate.
    destruct (initialise_site_mutations mt a3' n (S mid)) as [[[r4' ms4'] a4']| |] eqn:R';
      try discriminate.
    injection H as -> <- <-. injection H' as -> <- <-.
    f_equal. eapply IH; eauto.
Qed.

Lemma initialise_sites_loop_agree (tables : tsk_table_collection_t) (n : nat) :
  forall site_id mutation_id s s' s1 s1',
    same_but_arena s s' ->
    initialise_sites_loop tables n site_id mutation_id s = Done (MSP_OK, s1) ->
    initialise_sites_loop tables n site_id mutation_id s' = Done (MSP_OK, s1') ->
    same_but_arena s1 s1'.
Proof.
  induction n as [|n IH]; intros sid mid s s' s1 s1' Hs H H'.
  - simpl in H, H'. injection H as <-. injection H' as <-. exact Hs.
  - cbn [initialise_sites_loop] in H, H'.
    destruct (tsk_blkalloc_get (allocator s) sizeof_site) as [ok1 a1].
    destruct (tsk_blkalloc_get a1 sizeof_avl_node) as [ok2 a2].
    destruct (tsk_blkalloc_get a2 _) as [ok3 a3].
    destruct (tsk_blkalloc_get (allocator s') sizeof_site) as [ok1' a1'].
    destruct (tsk_blkalloc_get a1' sizeof_avl_node) as [ok2' a2'].
    destruct (tsk_blkalloc_get a2' _) as [ok3' a3'].
    destruct (negb ok1 || negb ok2 || negb ok3); [discriminate|].
    destruct (negb ok1' || negb ok2' || negb ok3'); [discriminate|].
    unbind.
    destruct (load (site_position (tc_sites tables)) sid) as [pos| |]; try discriminate.
    destruct (copy_row a3 _ _ sid) as [[[anc|] a4]| |] eqn:C1; try discriminate.
    destruct (copy_row a3' _ _ sid) as [[[anc'|] a4']| |] eqn:C1'; try discriminate.
    pose proof (copy_row_agree _ _ _ _ _ _ _ _ _ C1 C1') as <-.
    destruct (copy_row a4 _ _ sid) as [[[meta|] a5]| |] eqn:C2; try discriminate.
    destruct (copy_row a4' _ _ sid) as [[[meta'|] a5']| |] eqn:C2'; try discriminate.
    pose proof (copy_row_agree _ _ _ _ _ _ _ _ _ C2 C2') as <-.
    destruct (initialise_site_mutations _ a5 _ mid) as [[[r6 ms] a6]| |] eqn:R;
      try discriminate.
    destruct (initialise_site_mutations _ a5' _ mid) as [[[r6' ms'] a6']| |] eqn:R';
      try discriminate.
    destruct r6; simpl in H; try discriminate.
    destruct r6'; simpl in H'; try discriminate.
    pose proof (initialise_site_mutations_agree _ _ _ _ _ _ _ _ _ R R') as <-.
    pose proof Hs as (Ha & Hst & Het & Hsi & Hm). rewrite <- Hsi in H'.
    destruct (avl_insert_node (sites s) _) as [tree|]; [|discriminate].
    eapply IH; [|exact H|exact H'].
    repeat split; assumption.
Qed.

Lemma generate_prologue_agree (self self2 s1 s2 : mutgen_t)
    (tables tables2 : tsk_table_collection_t) (flags : Z) :
  same_inputs self self2 ->
  sequence_length tables = sequence_length tables2 ->
  tc_nodes tables = tc_nodes tables2 -> tc_edges tables = tc_edges tables2 ->
  (Z.land flags MSP_KEEP_SITES = 0%Z
   \/ (tc_sites tables = tc_sites tables2 /\ tc_mutations tables = tc_mutations tables2)) ->
  generate_prologue self tables flags = Done (MSP_OK, s1) ->
  generate_prologue self2 tables2 flags = Done (MSP_OK, s2) ->
  same_but_arena s1 s2.
Proof.
  intros (Ha & Hst & Het & Hsz & Hr & Hws) HL Hnodes Hedges Hflag H H'.
  unfold generate_prologue in H, H'.
  destruct (mutgen_init_allocator (set_sites self _) tables) as [r0 s0] eqn:E0.
  destruct (mutgen_init_allocator (set_sites self2 _) tables2) as [r0' s0'] eqn:E0'.
  apply mutgen_init_allocator_spec in E0, E0'.
  destruct E0 as (_ & _ & A1 & A2 & A3 & A4 & A5 & _).
  destruct E0' as (_ & _ & B1 & B2 & B3 & B4 & B5 & _).
  simpl in A1, A2, A3, A4, A5, B1, B2, B3, B4, B5.
  unfold avl_clear_tree in A1, B1.
  destruct r0; simpl in H; try discriminate.
  destruct r0'; simpl in H'; try discriminate.
  destruct (tsk_table_collection_check_integrity tables); [discriminate|].
  destruct (tsk_table_collection_check_integrity tables2); [discriminate|].
  specialize (Hws (sequence_length tables)). unfold with_sentinel in Hws.
  rewrite <- A2, <- B2 in Hws, Hsz, Hr.
  unbind. unfold store_cell in H, H'. rewrite <- HL in H'.
  destruct (map_position (mutation_map s0)) as [mp|]; [|discriminate].
  destruct (map_position (mutation_map s0')) as [mp'|]; [|discriminate].
  simpl in H, H'. rewrite <- Hsz in H', Hws.
  destruct (map_size (mutation_map s0) <? length mp); [|discriminate].
  destruct (map_size (mutation_map s0) <? length mp'); [|discriminate].
  injection Hws as Hws. rewrite <- Hws, <- Hr in H'.
  match type of H with
  | match ?m with _ => _ end = _ => destruct m as [last| |]; try discriminate
  end.
  destruct (dge last (sequence_length tables)); [discriminate|].
  destruct (Z.eqb_spec (Z.land flags MSP_KEEP_SITES) 0) as [Hf|Hf]; simpl in H, H'.
  - injection H as <-. injection H' as <-. repeat split; simpl; congruence.
  - destruct Hflag as [?|[Hs Hmu]]; [contradiction|].
    assert (Et : tables2 = tables).
    { destruct tables, tables2. simpl in *. congruence. }
    rewrite Et in H'. unfold mutget_initialise_sites in H, H'.
    eapply initialise_sites_loop_agree; [|exact H|exact H'].
    repeat split; simpl; congruence.
Qed.

Lemma generate_edges_app (fuel : nat) (tables : tsk_table_collection_t)
    (types : list mutation_type_t) (n m : nat) :
  forall j self g,
    generate_edges fuel self g tables types (n + m) j
    = '(ret, self1, g1) ← generate_edges fuel self g tables types n j;
      if negb (is_ok ret) then Done (ret, self1, g1)
      else generate_edges fuel self1 g1 tables types m (j + n).
Proof.
  induction n as [|n IH]; intros j self g.
  - simpl. rewrite Nat.add_0_r. reflexivity.
  - cbn [generate_edges Nat.add]. unbind.
    destruct (generate_edge fuel self g tables types j) as [[[r s1] g1]| |];
      try reflexivity.
    destruct (negb (is_ok r)) eqn:Er.
    + simpl. rewrite Er. reflexivity.
    + rewrite IH. unbind. replace (S j + n) with (j + S n) by lia. reflexivity.
Qed.

(** The loop over the edges visits the rows [j], [j + 1], ... in this
    order. *)
Lemma generate_edges_in_order (fuel : nat) (tables : tsk_table_collection_t)
    (types : list mutation_type_t) (n : nat) :
  forall j self g,
    generate_edges fuel self g tables types n j
    = edges_in_order fuel tables types (seq j n) self g.
Proof.
  induction n as [|n IH]; intros j self g; [reflexivity|].
  cbn [generate_edges seq edges_in_order]. unbind.
  destruct (generate_edge fuel self g tables types j) as [[[r s1] g1]| |];
    try reflexivity.
  destruct (negb (is_ok r)); [reflexivity | apply IH].
Qed.

Lemma generate_mutations_app (fuel k1 k2 : nat) :
  forall self g child left right types,
    generate_mutations fuel (k1 + k2) self g child left right types
    = '(ret, self1, g1) ← generate_mutations fuel k1 self g child left right types;
      if negb (is_ok ret) then Done (ret, self1, g1)
      else generate_mutations fuel k2 self1 g1 child left right types.
Proof.
  induction k1 as [|k1 IH]; intros self g child left right types.
  - reflexivity.
  - cbn [generate_mutations Nat.add]. unbind.
    destruct (sample_position fuel (sites self) g left right) as [[pos g1]| |];
      try reflexivity.
    destruct (negb (dle left pos && dlt pos right)); [reflexivity|].
    destruct (gsl_rng_uniform_int g1 (length types)) as [type g2].
    destruct (load types type) as [mt| |]; try reflexivity.
    destruct (mutgen_add_mutation self child pos _ _) as [[r s1]| |]; try reflexivity.
    destruct (negb (is_ok r)) eqn:Er.
    + simpl. rewrite Er. reflexivity.
    + rewrite IH. reflexivity.
Qed.

Lemma generate_segments_round (fuel : nat) (self : mutgen_t) (g : gsl_rng)
    (child : node_id_t) (left right_end bl : double) (types : list mutation_type_t)
    (right : double) (map_index : nat) (mp mr : block) (p r : double) :
  dne right right_end = true ->
  map_position (mutation_map self) = Some mp ->
  map_rate (mutation_map self) = Some mr ->
  mp !! (map_index + 1) = Some (Some p) ->
  mr !! map_index = Some (Some r) ->
  generate_segments (S fuel) self g child left right_end bl types right map_index
  = let right' := GSL_MIN_dbl right_end p in
    let '(k, g1) := gsl_ran_poisson g (bl * (right' - left) * r)%float in
    '(ret, self1, g2) ← generate_mutations (S fuel) k self g1 child left right' types;
    if negb (is_ok ret) then Done (ret, self1, g2)
    else generate_segments fuel self1 g2 child left right_end bl types right'
           (S map_index).
Proof.
  intros Hne Hmp Hmr Hp Hr. cbn [generate_segments].
  rewrite Hne, Hmp, Hmr. simpl. unbind. unfold load_cell. rewrite Hp, Hr.
  reflexivity.
Qed.

Lemma cleared_eq (tables tables2 : tsk_table_collection_t) :
  sequence_length tables = sequence_length tables2 ->
  tc_nodes tables = tc_nodes tables2 -> tc_edges tables = tc_edges tables2 ->
  cleared tables = cleared tables2.
Proof.
  intros HL Hn He. unfold cleared, set_site_mutation_tables. rewrite HL, Hn, He.
  reflexivity.
Qed.

(** C7: two runs of [generate] that return [MSP_OK] from the same state of
    the random generator, with the same alphabet, time window and rate
    map, on the same nodes, edges and sequence length (and, when sites are
    kept, the same site and mutation tables) leave the same tables, the
    same registry and the same state of the random generator, whatever the
    arena, the registry and, when sites are not kept, the site and mutation
    tables held before.  The draws are taken in a fixed order: the rows of
    the edge table from row 0 on, in the order of the table, each row with
    its own ends and child; within an edge the segments of the map from
    the one of its left end on, each with its Poisson draw first; within a
    segment mutation after mutation, each with its position draws and
    then its type draw. *)
Theorem mutgen_generate_deterministic (fuel fuel2 : nat) (self self2 s1 s2 : mutgen_t)
    (g g1 g2 : gsl_rng) (tables tables2 t1 t2 : tsk_table_collection_t) (flags : Z) :
  same_inputs self self2 ->
  sequence_length tables = sequence_length tables2 ->
  tc_nodes tables = tc_nodes tables2 -> tc_edges tables = tc_edges tables2 ->
  (Z.land flags MSP_KEEP_SITES = 0%Z
   \/ (tc_sites tables = tc_sites tables2 /\ tc_mutations tables = tc_mutations tables2)) ->
  mutgen_generate fuel self g tables flags = Done (MSP_OK, s1, g1, t1) ->
  mutgen_generate fuel2 self2 g tables2 flags = Done (MSP_OK, s2, g2, t2) ->
  (t1 = t2 /\ g1 = g2 /\ sites s1 = sites s2)
  /\ (exists self1,
        generate_prologue self tables flags = Done (MSP_OK, self1)
        /\ edges_in_order fuel (cleared tables) (mutation_types_of self1)
             (seq 0 (edge_num_rows (tc_edges tables))) self1 g
           = Done (MSP_OK, s1, g1))
  /\ (forall fuel self g tables types n j,
        generate_edges fuel self g tables types n j
        = edges_in_order fuel tables types (seq j n) self g)
  /\ (forall fuel self g tables types j k left right_end child_time parent_time
             parent child,
        edge_left (tc_edges tables) !! j = Some left ->
        edge_right (tc_edges tables) !! j = Some right_end ->
        edge_parent (tc_edges tables) !! j = Some parent ->
        edge_child (tc_edges tables) !! j = Some child ->
        node_time (tc_nodes tables) !! Z.to_nat child = Some child_time ->
        node_time (tc_nodes tables) !! Z.to_nat parent = Some parent_time ->
        first_segment self left = Done k ->
        (0 <= child)%Z -> (0 <= parent)%Z ->
        generate_edge fuel self g tables types j
        = generate_segments fuel self g child left right_end
            (GSL_MIN_dbl (end_time self) parent_time
             - GSL_MAX_dbl (start_time self) child_time)%float types 0%float k)
  /\ (forall fuel l self g child left right types,
        generate_mutations fuel (S l) self g child left right types
        = '(position, g1) ← sample_position fuel (sites self) g left right;
          if negb (dle left position && dlt position right) then Crash
          else
            let '(type, g2) := gsl_rng_uniform_int g1 (length types) in
            mt ← load types type;
            '(ret, self1) ← mutgen_add_mutation self child position
                              (mt_ancestral_state mt) (mt_derived_state mt);
            if negb (is_ok ret) then Done (ret, self1, g2)
            else generate_mutations fuel l self1 g2 child left right types)
  /\ (forall fuel self g tables types n m j,
        generate_edges fuel self g tables types (n + m) j
        = '(ret, self1, g1) ← generate_edges fuel self g tables types n j;
          if negb (is_ok ret) then Done (ret, self1, g1)
          else generate_edges fuel self1 g1 tables types m (j + n))
  /\ (forall fuel self g child left right_end bl types right map_index mp mr p r,
        dne right right_end = true ->
        map_position (mutation_map self) = Some mp ->
        map_rate (mutation_map self) = Some mr ->
        mp !! (map_index + 1) = Some (Some p) ->
        mr !! map_index = Some (Some r) ->
        generate_segments (S fuel) self g child left right_end bl types right map_index
        = let right' := GSL_MIN_dbl right_end p in
          let '(k, g1) := gsl_ran_poisson g (bl * (right' - left) * r)%float in
          '(ret, self1, g2) ← generate_mutations (S fuel) k self g1 child left right'
                                types;
          if negb (is_ok ret) then Done (ret, self1, g2)
          else generate_segments fuel self1 g2 child left right_end bl types right'
                 (S map_index))
  /\ (forall fuel k1 k2 self g child left right types,
        generate_mutations fuel (k1 + k2) self g child left right types
        = '(ret, self1, g1) ← generate_mutations fuel k1 self g child left right types;
          if negb (is_ok ret) then Done (ret, self1, g1)
          else generate_mutations fuel k2 self1 g1 child left right types).
Proof.
  intros Hin HL Hn He Hflag H H'.
  split; [|split; [|split; [|split; [|split; [|split; [|split]]]]]].
  2:{ apply mutgen_generate_inv in H.
      destruct H as [(Hne & _)|(p1 & Hp & Hb)]; [contradiction|].
      exists p1. split; [exact Hp|].
      apply generate_body_inv in Hb.
      destruct Hb as (r & Hed & [(Hne & <- & _)|(-> & _)]); [contradiction|].
      rewrite <- generate_edges_in_order. exact Hed. }
  2:{ intros. apply generate_edges_in_order. }
  2:{ intros. eapply generate_edge_first_segment; eauto. }
  2:{ intros. reflexivity. }
  - apply mutgen_generate_inv in H, H'.
    destruct H as [(Hne & _)|(p1 & Hp & Hb)]; [contradiction|].
    destruct H' as [(Hne & _)|(p2 & Hp' & Hb')]; [contradiction|].
    pose proof (generate_prologue_agree _ _ _ _ _ _ _ Hin HL Hn He Hflag Hp Hp') as Hs.
    apply generate_body_inv in Hb, Hb'.
    destruct Hb as (r & Hed & [(Hne & <- & _)|(-> & st & mt & Hpop & ->)]);
      [contradiction|].
    destruct Hb' as (r' & Hed' & [(Hne & <- & _)|(-> & st' & mt' & Hpop' & ->)]);
      [contradiction|].
    rewrite <- (cleared_eq _ _ HL Hn He) in Hed', Hpop' |- *.
    assert (Ht : mutation_types_of p2 = mutation_types_of p1).
    { unfold mutation_types_of. destruct Hs as (-> & _). reflexivity. }
    rewrite Ht in Hed'. replace (edge_num_rows (tc_edges tables2))
      with (edge_num_rows (tc_edges tables)) in Hed' by (rewrite He; reflexivity).
    destruct (generate_edges_agree _ _ _ _ _ _ _ _ _ _ _ _ _ _ Hs eq_refl eq_refl Hed Hed')
      as [(_ & _ & _ & Hsites & _) <-].
    unfold mutgen_populate_tables in Hpop, Hpop'. rewrite <- Hsites in Hpop'.
    rewrite Hpop in Hpop'. injection Hpop' as <- <-. auto.
  - intros. apply generate_edges_app.
  - intros. eapply generate_segments_round; eauto.
  - intros. apply generate_mutations_app.
Qed.

End TwoRuns.

Lemma first_run_Done :
  @mutgen_generate (scripted 8 8) 4 fresh_mutgen (script [1; 2; 0]) plain_tables 0
  = Done (MSP_OK, first_run_self, first_run_rng, first_run_tables).
Proof. vm_compute. reflexivity. Qed.


Lemma order_run_Done :
  @mutgen_generate (scripted 8 8) 4 two_segment_mutgen order_script two_edge_tables 0
  = Done (MSP_OK, order_run_self, order_run_rng, order_run_tables).
Proof. vm_compute. reflexivity. Qed.

Lemma order_rerun_Done :
  @mutgen_generate (scripted 8 8) 4 order_run_self order_script order_run_tables 0
  = Done (MSP_OK, snd (fst (fst order_rerun_result)), snd (fst order_rerun_result),
          snd order_rerun_result).
Proof. vm_compute. reflexivity. Qed.

Lemma mutgen_generate_deterministic_witness :
  snd order_rerun_result = order_run_tables
  /\ snd (fst order_rerun_result) = order_run_rng
  /\ site_position (tc_sites order_run_tables)
     = [1%float; 2%float; 2.5%float; 7.5%float]
  /\ poisson_means order_run_rng = [4%float; 20%float; 2%float; 8%float]
  /\ answers order_run_rng = []
  /\ @edges_in_order (scripted 8 8) 4 (cleared two_edge_tables) binary_mutation_types
       [0; 1] (set_block_size two_segment_mutgen default_block_size) order_script
     = Done (MSP_OK, order_run_self, order_run_rng).
Proof.
  assert (Hin : same_inputs two_segment_mutgen order_run_self).
  { repeat split. }
  destruct (@mutgen_generate_deterministic (scripted 8 8) 4 4 two_segment_mutgen
              order_run_self order_run_self (snd (fst (fst order_rerun_result)))
              order_script order_run_rng (snd (fst order_rerun_result))
              two_edge_tables order_run_tables
              order_run_tables (snd order_rerun_result) 0
              Hin eq_refl eq_refl eq_refl (or_introl eq_refl)
              order_run_Done order_rerun_Done)
    as ((Ht & Hg & _) & (self1 & Hp & Hord) & _).
  split; [symmetry; exact Ht|]. split; [symmetry; exact Hg|].
  split; [reflexivity|]. split; [reflexivity|]. split; [reflexivity|].
  assert (E : self1 = set_block_size two_segment_mutgen default_block_size).
  { vm_compute in Hp. injection Hp as <-. reflexivity. }
  rewrite E in Hord. exact Hord.
Defined.

(** * Further properties of the code *)

Lemma SFcompare_Lt_trans (x y z : spec_float) :
  SFcompare x y = Some Lt -> SFcompare y z = Some Lt -> SFcompare x z = Some Lt.
Proof.
  destruct x as [[]|[]| |[] mx ex], y as [[]|[]| |[] my ey], z as [[]|[]| |[] mz ez];
    simpl; intros H1 H2; try discriminate; try reflexivity;
    change (PosDef.Pos.compare_cont Eq) with Pos.compare in *;
    destruct (Z.compare_spec ex ey), (Z.compare_spec ey ez), (Z.compare_spec ex ez);
    subst; try lia; try discriminate; try reflexivity;
    destruct (Pos.compare_spec mx my), (Pos.compare_spec my mz), (Pos.compare_spec mx mz);
    subst; simpl in *; try lia; try discriminate; try reflexivity.
Qed.

Lemma SFcompare_Lt_Eq_trans (x y z : spec_float) :
  SFcompare x y = Some Lt -> SFcompare y z = Some Eq -> SFcompare x z = Some Lt.
Proof.
  destruct x as [[]|[]| |[] mx ex], y as [[]|[]| |[] my ey], z as [[]|[]| |[] mz ez];
    simpl; intros H1 H2; try discriminate; try reflexivity;
    change (PosDef.Pos.compare_cont Eq) with Pos.compare in *;
    destruct (Z.compare_spec ex ey), (Z.compare_spec ey ez), (Z.compare_spec ex ez);
    subst; try lia; try discriminate; try reflexivity;
    destruct (Pos.compare_spec mx my), (Pos.compare_spec my mz), (Pos.compare_spec mx mz);
    subst; simpl in *; try lia; try discriminate; try reflexivity.
Qed.

Lemma dlt_trans (a b c : double) : dlt a b = true -> dlt b c = true -> dlt a c = true.
Proof.
  unfold dlt. rewrite !ltb_spec. unfold SFltb.
  destruct (SFcompare (Prim2SF a) (Prim2SF b)) as [[]|] eqn:E1; try discriminate.
  destruct (SFcompare (Prim2SF b) (Prim2SF c)) as [[]|] eqn:E2; try discriminate.
  rewrite (SFcompare_Lt_trans _ _ _ E1 E2). reflexivity.
Qed.

Lemma dlt_dle_trans (a b c : double) : dlt a b = true -> dle b c = true -> dlt a c = true.
Proof.
  unfold dlt, dle. rewrite !ltb_spec, leb_spec. unfold SFltb, SFleb.
  destruct (SFcompare (Prim2SF a) (Prim2SF b)) as [[]|] eqn:E1; try discriminate.
  destruct (SFcompare (Prim2SF b) (Prim2SF c)) as [[]|] eqn:E2; try discriminate.
  - rewrite (SFcompare_Lt_Eq_trans _ _ _ E1 E2). reflexivity.
  - rewrite (SFcompare_Lt_trans _ _ _ E1 E2). reflexivity.
Qed.

(** When neither of two doubles is below the other, they are equal under
    [==] unless one is a NaN. *)
Lemma not_dlt_deq (a b : double) :
  dlt a b = false -> dlt b a = false ->
  deq a b = true \/ deq a a = false \/ deq b b = false.
Proof.
  unfold dlt, deq. rewrite !ltb_spec, !FloatAxioms.eqb_spec. unfold SFltb, SFeqb.
  rewrite (SFcompare_antisym (Prim2SF a) (Prim2SF b)).
  destruct (SFcompare (Prim2SF a) (Prim2SF b)) as [[]|] eqn:E; simpl; try discriminate; auto.
  intros _ _. right. destruct (SFcompare_None _ _ E) as [-> | ->]; auto.
Qed.

Lemma deq_nan_l (a b : double) : deq a a = false -> dlt a b = false /\ dlt b a = false.
Proof.
  unfold dlt, deq. rewrite !ltb_spec, !FloatAxioms.eqb_spec. unfold SFltb, SFeqb.
  intros H.
  assert (Hn : Prim2SF a = S754_nan).
  { destruct (Prim2SF a) as [[]|[]| |[] m e] eqn:E; try reflexivity; simpl in H;
      try discriminate H;
      rewrite Z.compare_refl in H;
      change (PosDef.Pos.compare_cont Eq m m) with (Pos.compare m m) in H;
      rewrite Pos.compare_refl in H; discriminate H. }
  rewrite Hn. simpl. split; [reflexivity|].
  destruct (Prim2SF b) as [[]|[]| |[] m e]; reflexivity.
Qed.

Lemma dgt_dlt (a b : double) : dgt a b = dlt b a.
Proof. reflexivity. Qed.

(** X1: [cmp_site] returns -1, 0 or 1, changes sign when its arguments are
    swapped and is transitive on "below"; it returns 0 exactly when the two
    positions are equal under [==] or one of them is a NaN. *)
Theorem cmp_site_order (a b c : tsk_site_t) :
  (cmp_site a b = (-1)%Z \/ cmp_site a b = 0%Z \/ cmp_site a b = 1%Z)
  /\ cmp_site b a = (- cmp_site a b)%Z
  /\ cmp_site a a = 0%Z
  /\ ((cmp_site a b < 0)%Z -> (cmp_site b c < 0)%Z -> (cmp_site a c < 0)%Z)
  /\ (cmp_site a b = 0%Z <->
      deq (position a) (position b) = true
      \/ deq (position a) (position a) = false
      \/ deq (position b) (position b) = false).
Proof.
  unfold cmp_site. rewrite !dgt_dlt.
  split; [|split; [|split; [|split]]].
  - destruct (dlt (position b) (position a)), (dlt (position a) (position b));
      simpl; auto.
  - lia.
  - rewrite !dlt_irrefl. reflexivity.
  - intros H1 H2.
    destruct (dlt (position a) (position b)) eqn:E1;
      [|destruct (dlt (position b) (position a)); simpl in H1; lia].
    destruct (dlt (position b) (position c)) eqn:E2;
      [|destruct (dlt (position c) (position b)); simpl in H2; lia].
    rewrite (dlt_trans _ _ _ E1 E2).
    destruct (dlt (position c) (position a)) eqn:E3; simpl; [|lia].
    pose proof (dlt_trans _ _ _ E3 (dlt_trans _ _ _ E1 E2)) as Hcc.
    rewrite dlt_irrefl in Hcc. discriminate Hcc.
  - split.
    + destruct (dlt (position b) (position a)) eqn:E1,
               (dlt (position a) (position b)) eqn:E2; simpl; try lia.
      * pose proof (dlt_trans _ _ _ E1 E2) as Hcc. rewrite dlt_irrefl in Hcc.
        discriminate Hcc.
      * intros _. apply not_dlt_deq; assumption.
    + intros [H|[H|H]].
      * destruct (dlt (position b) (position a)) eqn:E1.
        { apply dgt_not_deq in E1. congruence. }
        destruct (dlt (position a) (position b)) eqn:E2.
        { apply dlt_not_deq in E2. congruence. }
        reflexivity.
      * destruct (deq_nan_l _ (position b) H) as [-> ->]. reflexivity.
      * destruct (deq_nan_l _ (position a) H) as [-> ->]. reflexivity.
Qed.

Section Lifecycle.

Context {P : Platform}.

(** X2: [mutgen_alloc] always returns.  It refuses an alphabet other than
    the two known ones with [BadParamValue], and succeeds exactly when the
    alphabet is known and the arena block and the two arrays of the default
    map are granted; it then leaves the window unbounded, the registry
    empty, the block size hint as given, an arena of one empty block of the
    hint (8192 for 0) raised to at least 128, and the one-segment map of
    rate 0. *)
Theorem mutgen_alloc_spec (alphabet : Z) (hint : nat) :
  let arena := Nat.max (if hint =? 0 then default_block_size else hint) 128 in
  exists ret self,
    mutgen_alloc alphabet hint = Done (ret, self)
    /\ (ret = MSP_ERR_BAD_PARAM_VALUE <->
        alphabet <> MSP_ALPHABET_BINARY /\ alphabet <> MSP_ALPHABET_NUCLEOTIDE)
    /\ (ret = MSP_OK <->
        (alphabet = MSP_ALPHABET_BINARY \/ alphabet = MSP_ALPHABET_NUCLEOTIDE)
        /\ chunk_ok 0 arena = true
        /\ malloc_ok (2 * sizeof_double) = true
        /\ malloc_ok (1 * sizeof_double) = true)
    /\ (ret = MSP_OK ->
        self = {| alphabet := alphabet; start_time := (- DBL_MAX)%float;
                  end_time := DBL_MAX; block_size := hint; sites := [];
                  allocator := {| chunk_size := arena; num_chunks := 1; blk_top := 0 |};
                  mutation_map :=
                    {| map_size := 1; map_position := Some [Some 0%float; None];
                       map_rate := Some [Some 0%float] |} |})
    /\ (ret = MSP_OK \/ ret = MSP_ERR_BAD_PARAM_VALUE
        \/ ret = msp_set_tsk_error TSK_ERR_NO_MEMORY \/ ret = MSP_ERR_NO_MEMORY)
    /\ sites self = [].
Proof.
  intros arena. unfold mutgen_alloc.
  unfold MSP_ALPHABET_BINARY, MSP_ALPHABET_NUCLEOTIDE.
  destruct (Z.eqb_spec alphabet 0) as [E0|E0]; simpl;
    [|destruct (Z.eqb_spec alphabet 1) as [E1|E1]; simpl].
  3:{ eexists _, _. split; [reflexivity|]. simpl.
      repeat split; auto; try discriminate; try tauto; try (intros (H & _); tauto). }
  all: unfold tsk_blkalloc_init; rewrite GSL_MAX_max; fold arena;
    destruct (Nat.ltb_spec arena 1) as [Hlt|_]; [unfold arena in Hlt; lia|];
    destruct (chunk_ok 0 arena) eqn:Hc; simpl;
    [|eexists _, _; split; [reflexivity|]; simpl;
      repeat split; auto; try discriminate; try lia; try tauto;
      try (intros (_ & H & _); discriminate H)].
  all: unfold mutgen_set_rate, mutgen_set_map, malloc_doubles; simpl;
    change (malloc_ok 16) with (malloc_ok (2 * sizeof_double));
    change (malloc_ok 8) with (malloc_ok (1 * sizeof_double));
    destruct (malloc_ok (2 * sizeof_double)) eqn:M2;
    destruct (malloc_ok (1 * sizeof_double)) eqn:M1; cbn;
    eexists _, _; (split; [reflexivity|]); simpl;
    repeat split; auto; try discriminate; try lia; try tauto;
    try (intros (_ & _ & H & _); discriminate H);
    try (intros (_ & _ & _ & H); discriminate H).
Qed.


(** X3: with memory for the two arrays, [mutgen_set_rate] is refused exactly
    for a rate below zero, with [BadMutationMapRate], and then leaves a map
    of size 1 with nothing written; otherwise it installs the single
    segment that starts at 0 with that rate.  No other field changes. *)
Theorem mutgen_set_rate_spec (self : mutgen_t) (rate : double) :
  malloc_ok (2 * sizeof_double) = true ->
  malloc_ok (1 * sizeof_double) = true ->
  exists ret self',
    mutgen_set_rate self rate = Done (ret, self')
    /\ (ret = MSP_OK <-> dlt rate 0%float = false)
    /\ (ret = MSP_ERR_BAD_MUTATION_MAP_RATE <-> dlt rate 0%float = true)
    /\ (ret = MSP_OK ->
        mutation_map self'
        = {| map_size := 1; map_position := Some [Some 0%float; None];
             map_rate := Some [Some rate] |})
    /\ (ret = MSP_ERR_BAD_MUTATION_MAP_RATE ->
        mutation_map self'
        = {| map_size := 1; map_position := Some [None; None];
             map_rate := Some [None] |})
    /\ set_mutation_map self' (mutation_map self) = set_mutation_map self (mutation_map self).
Proof.
  intros M2 M1. unfold mutgen_set_rate, mutgen_set_map, malloc_doubles. simpl.
  change (malloc_ok 16) with (malloc_ok (2 * sizeof_double)).
  change (malloc_ok 8) with (malloc_ok (1 * sizeof_double)).
  rewrite M2, M1. cbn. fold (dlt rate 0%float).
  destruct (dlt rate 0%float) eqn:E; cbn;
    eexists _, _; (split; [reflexivity|]); simpl;
    repeat split; auto; try discriminate.
Qed.





(** X6: the block size [mutgen_init_allocator] stores is at least 128 and at
    least the one stored before; it does not shrink from one call to the
    next, and a second call on the same tables leaves it as it is.  The
    only error is the refusal of the block, and on success the arena holds
    one empty block of that size. *)
Theorem mutgen_init_allocator_grows (self : mutgen_t)
    (tables tables2 : tsk_table_collection_t) :
  let ret := fst (mutgen_init_allocator self tables) in
  let self1 := snd (mutgen_init_allocator self tables) in
  let self2 := snd (mutgen_init_allocator self1 tables2) in
  128 <= block_size self1
  /\ block_size self <= block_size self1
  /\ block_size self1 <= block_size self2
  /\ (tables2 = tables -> block_size self2 = block_size self1)
  /\ (ret = MSP_OK \/ ret = msp_set_tsk_error TSK_ERR_NO_MEMORY)
  /\ (ret = MSP_OK ->
      allocator self1
      = {| chunk_size := block_size self1; num_chunks := 1; blk_top := 0 |}).
Proof.
  intros ret self1 self2. subst ret self1 self2.
  destruct (mutgen_init_allocator self tables) as [ret self1] eqn:E1. simpl.
  destruct (mutgen_init_allocator self1 tables2) as [ret2 self2] eqn:E2. simpl.
  apply mutgen_init_allocator_spec in E1, E2.
  destruct E1 as (Hb1 & Hc1 & _ & _ & _ & _ & _ & Hr1).
  destruct E2 as (Hb2 & _).
  assert (H128 : 128 <= arena_block_size self tables)
    by (unfold arena_block_size; lia).
  assert (Hge : block_size self <= arena_block_size self tables).
  { unfold arena_block_size.
    destruct (block_size self =? 0) eqn:E; [apply Nat.eqb_eq in E|]; lia. }
  assert (Hb2' : block_size self2 = arena_block_size self1 tables2) by exact Hb2.
  unfold arena_block_size in Hb2'. rewrite Hb1 in Hb2'.
  destruct (Nat.eqb_spec (arena_block_size self tables) 0) as [|_]; [lia|].
  split; [lia|]. split; [lia|]. split; [lia|]. split; [|split].
  - intros ->. rewrite Hb2', Hb1. clear. unfold arena_block_size.
    generalize default_block_size. intros d.
    destruct (block_size self =? 0); lia.
  - destruct Hr1 as [(-> & _)|(-> & _)]; auto.
  - intros Hok. destruct Hr1 as [(_ & Hn & Ht & _)|(Hcc & _)];
      [|rewrite Hcc in Hok; discriminate Hok].
    destruct (allocator self1) as [c n t]. simpl in *. subst. f_equal. congruence.
Qed.


(** X4: [mutgen_set_map] reports the first check that fails, in the order
    of the source: the two allocations (before any validation, and leaving
    the stored size), the size, the first position, then index by index the
    pair of positions before the rate. *)
Theorem mutgen_set_map_first_error (self : mutgen_t) (size : nat)
    (position rate : list double) :
  length position = size -> length rate = size ->
  exists ret self',
    mutgen_set_map self size position rate = Done (ret, self')
    /\ (malloc_ok ((size + 1) * sizeof_double) = false
        \/ malloc_ok (size * sizeof_double) = false ->
        ret = MSP_ERR_NO_MEMORY
        /\ map_size (mutation_map self') = map_size (mutation_map self))
    /\ (malloc_ok ((size + 1) * sizeof_double) = true ->
        malloc_ok (size * sizeof_double) = true ->
        (size < 1 -> ret = MSP_ERR_BAD_MUTATION_MAP_SIZE)
        /\ (1 <= size -> bad_first position -> ret = MSP_ERR_BAD_MUTATION_MAP_POSITION)
        /\ (1 <= size -> ~ bad_first position ->
            forall k,
              k < size ->
              (forall i, i < k -> ~ bad_pair position i /\ ~ bad_rate rate i) ->
              (bad_pair position k -> ret = MSP_ERR_BAD_MUTATION_MAP_POSITION)
              /\ (~ bad_pair position k -> bad_rate rate k ->
                  ret = MSP_ERR_BAD_MUTATION_MAP_RATE))).
Proof.
  intros Hp Hr.
  destruct (malloc_ok ((size + 1) * sizeof_double)) eqn:Mp;
    [destruct (malloc_ok (size * sizeof_double)) eqn:Mr|].
  - destruct (mutgen_set_map_run self size position rate Hp Hr Mp Mr)
      as (ret & k' & n & E & Hk & Hok & Hret).
    exists ret. eexists. split; [exact E|]. split.
    { intros [H|H]; discriminate H. }
    intros _ _. split; [|split].
    + intros Hs.
      destruct Hret as [(-> & _)|[(_ & H1 & _)|[(_ & H1 & _)|[(_ & H1 & _)|(_ & H1 & _)]]]];
        [reflexivity|lia..].
    + intros H1 Hbf.
      destruct Hret as [(_ & Hs & _)|[(-> & _)|[(_ & _ & Hnf & _)
        |[(_ & _ & Hnf & _)|(_ & _ & Hnf & _)]]]];
        try lia; try contradiction; reflexivity.
    + intros H1 Hnf k Hlt Hbefore.
      assert (Hcase : (ret = MSP_ERR_BAD_MUTATION_MAP_POSITION /\ k' < size
                       /\ bad_pair position k')
                      \/ (ret = MSP_ERR_BAD_MUTATION_MAP_RATE /\ k' < size
                          /\ ~ bad_pair position k' /\ bad_rate rate k')
                      \/ (ret = MSP_OK /\ k' = size)).
      { destruct Hret as [(_ & Hs & _)|[(_ & _ & Hbf & _)
          |[(-> & _ & _ & Hlt' & Hbp & _)|[(-> & _ & _ & Hlt' & Hnp & Hbr & _)
          |(-> & _ & _ & -> & _)]]]]; try lia; try contradiction; auto 10. }
      split.
      * intros Hbp.
        destruct Hcase as [(-> & _)|[(-> & Hlt' & Hnp & Hbr)|(-> & ->)]];
          [reflexivity| |exfalso; exact (proj1 (Hok k Hlt) Hbp)].
        exfalso. destruct (Nat.lt_trichotomy k k') as [Hkk|[->|Hkk]].
        -- exact (proj1 (Hok k Hkk) Hbp).
        -- exact (Hnp Hbp).
        -- exact (proj2 (Hbefore k' Hkk) Hbr).
      * intros Hnp Hbr.
        destruct Hcase as [(-> & Hlt' & Hbp)|[(-> & _)|(-> & ->)]];
          [|reflexivity|exfalso; exact (proj2 (Hok k Hlt) Hbr)].
        exfalso. destruct (Nat.lt_trichotomy k k') as [Hkk|[->|Hkk]].
        -- exact (proj2 (Hok k Hkk) Hbr).
        -- exact (Hnp Hbp).
        -- exact (proj1 (Hbefore k' Hkk) Hbp).
  - unfold mutgen_set_map, malloc_doubles. rewrite Mp, Mr.
    eexists _, _. split; [reflexivity|]. split; [auto|]. intros _ H. discriminate H.
  - unfold mutgen_set_map, malloc_doubles. rewrite Mp.
    eexists _, _. split; [reflexivity|]. split; [auto|]. intros H. discriminate H.
Qed.


(** X7: [mutgen_add_mutation] returns [OutOfMemory], with the registry as it
    was, when one of its three requests is refused; with memory it trips
    its assertion when a site of the registry has the position, and
    otherwise adds exactly the new site, which a search then finds. *)
Theorem mutgen_add_mutation_outcomes (self : mutgen_t) (node : node_id_t)
    (pos : double) (a d : list byte) :
  let s := new_site node pos a d in
  (add_mutation_memory (allocator self) = false ->
   exists self',
     mutgen_add_mutation self node pos a d = Done (MSP_ERR_NO_MEMORY, self')
     /\ sites self' = sites self)
  /\ (add_mutation_memory (allocator self) = true ->
      (exists x, x ∈ sites self /\ equal_positions pos (position x)) ->
      mutgen_add_mutation self node pos a d = Crash)
  /\ (add_mutation_memory (allocator self) = true ->
      (forall x, x ∈ sites self -> ~ equal_positions pos (position x)) ->
      exists self',
        mutgen_add_mutation self node pos a d = Done (MSP_OK, self')
        /\ sites self' ≡ₚ s :: sites self
        /\ avl_search (sites self') s = Some s
        /\ same_config self self').
Proof.
  intros s. unfold mutgen_add_mutation, add_mutation_memory.
  destruct (tsk_blkalloc_get (allocator self) sizeof_site) as [ok1 a1].
  destruct (tsk_blkalloc_get a1 sizeof_mutation) as [ok2 a2].
  destruct (tsk_blkalloc_get a2 sizeof_avl_node) as [ok3 a3].
  fold (new_site node pos a d). fold s.
  split; [|split].
  - intros Hm. replace (negb ok1 || negb ok2 || negb ok3) with true
      by (destruct ok1, ok2, ok3; simpl in *; congruence).
    eexists. split; reflexivity.
  - intros Hm (x & Hx & Heq).
    replace (negb ok1 || negb ok2 || negb ok3) with false
      by (destruct ok1, ok2, ok3; simpl in *; congruence).
    simpl.
    destruct (avl_insert_node (sites self) s) as [tree|] eqn:Ei; [|reflexivity].
    apply avl_insert_node_Some in Ei. destruct Ei as [_ Hd].
    unfold distinct_from in Hd. rewrite Forall_forall in Hd.
    exfalso. apply (Hd x Hx). apply equal_positions_cmp_site. exact Heq.
  - intros Hm Hfresh.
    replace (negb ok1 || negb ok2 || negb ok3) with false
      by (destruct ok1, ok2, ok3; simpl in *; congruence).
    simpl.
    assert (Hd : distinct_from s (sites self)).
    { unfold distinct_from. rewrite Forall_forall. intros x Hx Hc.
      apply (Hfresh x Hx). apply equal_positions_cmp_site in Hc. exact Hc. }
    unfold avl_insert_node. rewrite (proj2 (avl_search_None _ _) Hd).
    eexists. split; [reflexivity|]. simpl.
    split; [apply avl_place_perm|]. split; [|repeat split].
    clear Hfresh Hm. unfold avl_search.
    induction (sites self) as [|x tree IH]; simpl.
    + unfold cmp_site. rewrite dgt_dlt, !dlt_irrefl. reflexivity.
    + inversion Hd as [|? ? Hx Hd']; subst.
      destruct (Z.ltb_spec (cmp_site s x) 0); simpl.
      * unfold cmp_site at 1. rewrite dgt_dlt, !dlt_irrefl. reflexivity.
      * destruct (Z.eqb_spec (cmp_site s x) 0) as [E|_]; [contradiction|].
        apply IH, Hd'.
Qed.

(** X8: the rejection loop has no bound on its retries: when every draw
    falls on a site of the registry it has not returned after any number of
    draws. *)
Theorem sample_position_never_gives_up (tree : list tsk_site_t) (left right : double) :
  (forall g, exists x,
     x ∈ tree /\ equal_positions (fst (gsl_ran_flat g left right)) (position x)) ->
  forall fuel g, sample_position fuel tree g left right = OutOfFuel.
Proof.
  intros Hc fuel. induction fuel as [|fuel IH]; intros g; simpl; [reflexivity|].
  destruct (Hc g) as (x & Hx & Heq).
  destruct (gsl_ran_flat g left right) as [pos g1]. simpl in Heq.
  destruct (avl_search tree _) as [y|] eqn:Es; [apply IH|].
  apply avl_search_None in Es. unfold distinct_from in Es. rewrite Forall_forall in Es.
  exfalso. apply (Es x Hx). exact Heq.
Qed.

End Lifecycle.

Lemma mutgen_set_rate_spec_witness :
  exists self',
    @mutgen_set_rate (scripted 1 1) fresh_mutgen (-1)%float
    = Done (MSP_ERR_BAD_MUTATION_MAP_RATE, self').
Proof.
  destruct (@mutgen_set_rate_spec (scripted 1 1) fresh_mutgen (-1)%float eq_refl eq_refl)
    as (ret & self' & E & _ & Hbad & _).
  exists self'. rewrite E. f_equal. f_equal. apply Hbad. reflexivity.
Defined.

Lemma mutgen_set_map_first_error_witness :
  exists self',
    @mutgen_set_map (scripted 1 1) fresh_mutgen 2 [0%float; 0%float]
      [1%float; (-1)%float]
    = Done (MSP_ERR_BAD_MUTATION_MAP_POSITION, self').
Proof.
  destruct (@mutgen_set_map_first_error (scripted 1 1) fresh_mutgen 2
              [0%float; 0%float] [1%float; (-1)%float] eq_refl eq_refl)
    as (ret & self' & E & _ & H).
  destruct (H eq_refl eq_refl) as (_ & _ & Hk).
  exists self'. rewrite E. f_equal. f_equal.
  assert (Hnf : ~ bad_first [0%float; 0%float]).
  { intros (p0 & E0 & Hne). simpl in E0. injection E0 as <-. discriminate Hne. }
  assert (Hbefore : forall i, i < 1 ->
            ~ bad_pair [0%float; 0%float] i /\ ~ bad_rate [1%float; (-1)%float] i).
  { intros i Hi. assert (i = 0) as -> by lia. split.
    - intros (x & y & Hlt & _). lia.
    - intros (r & Er & Hr). simpl in Er. injection Er as <-. discriminate Hr. }
  apply (Hk ltac:(lia) Hnf 1 ltac:(lia) Hbefore).
  exists 0%float, 0%float. split; [lia|]. repeat split.
Defined.



Lemma sample_position_never_gives_up_witness :
  @sample_position (scripted 1 1) 100 [site_at_3] (script [1; 2; 3]) 3%float 3%float
  = OutOfFuel.
Proof.
  apply (@sample_position_never_gives_up (scripted 1 1) [site_at_3] 3%float 3%float).
  intros g. exists site_at_3. split; [apply list_elem_of_here|].
  simpl. unfold script_fractions.
  destruct (hd 0 (answers g)) as [|[|[|[|[|[|n]]]]]]; reflexivity.
Defined.

Lemma insert_all_app (l1 l2 tree t t' : list tsk_site_t) :
  insert_all tree l1 = Some t -> insert_all t l2 = Some t' ->
  insert_all tree (l1 ++ l2) = Some t'.
Proof.
  revert tree. induction l1 as [|s l1 IH]; intros tree H1 H2; simpl in *.
  - injection H1 as ->. exact H2.
  - destruct (avl_insert_node tree s) as [t0|]; [|discriminate]. eapply IH; eauto.
Qed.

Lemma insert_all_perm (l tree t : list tsk_site_t) :
  insert_all tree l = Some t -> t ≡ₚ l ++ tree.
Proof.
  revert tree. induction l as [|s l IH]; intros tree H; simpl in *.
  - injection H as ->. reflexivity.
  - destruct (avl_insert_node tree s) as [t0|] eqn:E; [|discriminate].
    apply avl_insert_node_Some in E. destruct E as [-> _].
    rewrite (IH _ H), avl_place_perm. symmetry. apply Permutation_middle.
Qed.

Lemma insert_all_Inv (I : list tsk_site_t -> Prop) :
  (forall tree s t, I tree -> avl_insert_node tree s = Some t -> I t) ->
  forall l tree t, I tree -> insert_all tree l = Some t -> I t.
Proof.
  intros HI l. induction l as [|s l IH]; intros tree t Ht H; simpl in H.
  - injection H as <-. exact Ht.
  - destruct (avl_insert_node tree s) as [t0|] eqn:E; [|discriminate].
    eapply IH; [|exact H]. eapply HI; eauto.
Qed.

Lemma dlt_not_nan (a b : double) :
  dlt a b = true -> deq a a = true /\ deq b b = true.
Proof.
  unfold dlt, deq. rewrite ltb_spec, !FloatAxioms.eqb_spec. unfold SFltb, SFeqb.
  destruct (SFcompare (Prim2SF a) (Prim2SF b)) as [[]|] eqn:E; try discriminate.
  intros _.
  assert (Ha : Prim2SF a <> S754_nan) by (intros Hn; rewrite Hn in E; discriminate E).
  assert (Hb : Prim2SF b <> S754_nan).
  { intros Hn. rewrite Hn in E. destruct (Prim2SF a); discriminate E. }
  rewrite (SFcompare_refl _ Ha), (SFcompare_refl _ Hb). auto.
Qed.

Lemma dlt_min_l (pos er p : double) :
  dlt pos (GSL_MIN_dbl er p) = true -> deq er er = true -> dlt pos er = true.
Proof.
  unfold GSL_MIN_dbl. destruct (dlt er p) eqn:E; [auto|].
  intros Hp He. destruct (dlt_not_nan _ _ Hp) as [_ Hpp].
  apply (dlt_dle_trans pos p er Hp).
  exact (not_dlt_dge er p He Hpp E).
Qed.

Lemma StronglySorted_lookup {A : Type} (R : A -> A -> Prop) (l : list A) :
  StronglySorted R l ->
  forall i j x y, i < j -> l !! i = Some x -> l !! j = Some y -> R x y.
Proof.
  induction 1 as [|a l Hs IH Ha]; intros i j x y Hij Hi Hj; [discriminate|].
  destruct j as [|j]; [lia|]. simpl in Hj.
  destruct i as [|i]; simpl in Hi.
  - injection Hi as <-. rewrite Forall_forall in Ha. apply Ha.
    eapply list_elem_of_lookup_2, Hj.
  - eapply (IH i j); eauto. lia.
Qed.

Lemma avl_place_sorted (tree : list tsk_site_t) (s : tsk_site_t) :
  StronglySorted position_lt tree -> distinct_from s tree ->
  StronglySorted position_lt (avl_place tree s).
Proof.
  induction 1 as [|x tree Hs IH Hx]; intros Hd; simpl.
  - repeat constructor.
  - inversion Hd as [|? ? Hsx Hd']; subst.
    destruct (Z.ltb_spec (cmp_site s x) 0) as [Hlt|Hge].
    + assert (Hsx' : position_lt s x).
      { unfold position_lt. unfold cmp_site in Hlt. rewrite dgt_dlt in Hlt.
        destruct (dlt (position s) (position x)); [reflexivity|].
        destruct (dlt (position x) (position s)); simpl in Hlt; lia. }
      constructor; [constructor; assumption|].
      constructor; [exact Hsx'|].
      rewrite Forall_forall in Hx |- *. intros y Hy.
      exact (dlt_trans _ _ _ Hsx' (Hx y Hy)).
    + constructor; [apply IH, Hd'|].
      rewrite Forall_forall in Hx |- *. intros y Hy.
      rewrite avl_place_perm in Hy. apply elem_of_cons in Hy.
      destruct Hy as [->|Hy]; [|apply Hx, Hy].
      unfold position_lt. unfold cmp_site in Hsx, Hge. rewrite dgt_dlt in Hsx, Hge.
      destruct (dlt (position x) (position s)); [reflexivity|].
      destruct (dlt (position s) (position x)); simpl in *; lia.
Qed.

Lemma avl_insert_node_sorted (tree t : list tsk_site_t) (s : tsk_site_t) :
  StronglySorted position_lt tree -> avl_insert_node tree s = Some t ->
  StronglySorted position_lt t.
Proof.
  intros Hs H. apply avl_insert_node_Some in H. destruct H as [-> Hd].
  apply avl_place_sorted; assumption.
Qed.

Section SamplingTrace.

Context {P : Platform}.

Lemma mutgen_add_mutation_insert (self self' : mutgen_t) (node : node_id_t)
    (pos : double) (a d : list byte) (ret : msp_ret) :
  mutgen_add_mutation self node pos a d = Done (ret, self') ->
  same_config self self'
  /\ ((ret = MSP_ERR_NO_MEMORY /\ sites self' = sites self)
      \/ (ret = MSP_OK
          /\ avl_insert_node (sites self) (new_site node pos a d) = Some (sites self'))).
Proof.
  intros H. apply mutgen_add_mutation_inv in H.
  destruct H as [Hc [(-> & Hs)|(-> & Hs & Hd)]]; (split; [exact Hc|]); [left; auto|].
  right. split; [reflexivity|].
  unfold avl_insert_node. rewrite (proj2 (avl_search_None _ _) Hd), Hs. reflexivity.
Qed.

Lemma generate_mutations_trace (fuel k : nat) :
  forall self g child left right types ret self' g',
    generate_mutations fuel k self g child left right types = Done (ret, self', g') ->
    same_config self self'
    /\ exists l,
         insert_all (sites self) l = Some (sites self')
         /\ length l <= k
         /\ (ret = MSP_OK -> length l = k)
         /\ Forall (fun s => exists pos mt,
                      s = new_site child pos (mt_ancestral_state mt) (mt_derived_state mt)
                      /\ mt ∈ types
                      /\ dle left pos = true /\ dlt pos right = true) l.
Proof.
  induction k as [|k IH]; intros self g child left right types ret self' g' H;
    simpl in H.
  - injection H as <- <- <-. split; [apply same_config_refl|].
    exists []. simpl. repeat split; auto.
  - unbind.
    destruct (sample_position fuel (sites self) g left right) as [[pos g1]| |];
      try discriminate.
    destruct (dle left pos && dlt pos right) eqn:Ha; simpl in H; [|discriminate].
    apply andb_true_iff in Ha. destruct Ha as [Hl Hr].
    destruct (gsl_rng_uniform_int g1 (length types)) as [type g2].
    destruct (load types type) as [mt| |] eqn:Et; try discriminate.
    apply load_Done in Et.
    destruct (mutgen_add_mutation self child pos _ _) as [[r s1]| |] eqn:Ea;
      try discriminate.
    apply mutgen_add_mutation_insert in Ea.
    destruct Ea as [Hc [(-> & Hs)|(-> & Hi)]]; simpl in H.
    + injection H as <- <- <-. split; [exact Hc|].
      exists []. simpl. rewrite Hs. repeat split; auto; try lia; try discriminate.
    + apply IH in H. destruct H as (Hc' & l & Hl' & Hlen & Hok & Hall).
      split; [exact (same_config_trans _ _ _ Hc Hc')|].
      exists (new_site child pos (mt_ancestral_state mt) (mt_derived_state mt) :: l).
      simpl. rewrite Hi. split; [exact Hl'|]. split; [lia|].
      split; [intros Hr'; rewrite (Hok Hr'); reflexivity|].
      constructor; [|exact Hall].
      exists pos, mt. repeat split; auto. eapply list_elem_of_lookup_2, Et.
Qed.

Lemma generate_segments_trace (fuel : nat) :
  forall self g child left edge_right branch_length types right map_index ret self' g',
    generate_segments fuel self g child left edge_right branch_length types right
      map_index = Done (ret, self', g') ->
    same_config self self'
    /\ exists l,
         insert_all (sites self) l = Some (sites self')
         /\ Forall (fun s => exists pos mt,
                      s = new_site child pos (mt_ancestral_state mt) (mt_derived_state mt)
                      /\ mt ∈ types
                      /\ dle left pos = true
                      /\ (deq edge_right edge_right = true ->
                          dlt pos edge_right = true)) l.
Proof.
  induction fuel as [|fuel IH];
    intros self g child left edge_right bl types right map_index ret self' g' H.
  - simpl in H. destruct (negb (dne right edge_right)); [|discriminate].
    injection H as <- <- <-. split; [apply same_config_refl|]. exists []. simpl. auto.
  - cbn [generate_segments] in H.
    destruct (negb (dne right edge_right)).
    { injection H as <- <- <-. split; [apply same_config_refl|]. exists []. simpl. auto. }
    unbind.
    destruct (from_option Done Crash (map_position (mutation_map self))) as [mp| |];
      try discriminate.
    destruct (from_option Done Crash (map_rate (mutation_map self))) as [mr| |];
      try discriminate.
    destruct (load_cell mp (map_index + 1)) as [p| |]; try discriminate.
    destruct (load_cell mr map_index) as [r| |]; try discriminate.
    destruct (gsl_ran_poisson g _) as [k g1].
    destruct (generate_mutations (S fuel) k self g1 child left _ types)
      as [[[r1 s1] g2]| |] eqn:Em; try discriminate.
    apply generate_mutations_trace in Em.
    destruct Em as (Hc & l1 & Hl1 & _ & _ & Hall1).
    assert (Hall1' : Forall (fun s => exists pos mt,
                      s = new_site child pos (mt_ancestral_state mt) (mt_derived_state mt)
                      /\ mt ∈ types
                      /\ dle left pos = true
                      /\ (deq edge_right edge_right = true ->
                          dlt pos edge_right = true)) l1).
    { eapply Forall_impl; [exact Hall1|]. intros s (pos & mt & Hs & Hmt & Hle & Hlt).
      exists pos, mt. repeat split; auto. intros He. eapply dlt_min_l; eauto. }
    destruct (negb (is_ok r1)).
    { injection H as <- <- <-. split; [exact Hc|]. exists l1. auto. }
    apply IH in H. destruct H as (Hc' & l2 & Hl2 & Hall2).
    split; [exact (same_config_trans _ _ _ Hc Hc')|].
    exists (l1 ++ l2). split; [eapply insert_all_app; eauto|].
    apply Forall_app. auto.
Qed.

Lemma generate_edge_trace (fuel : nat) (self : mutgen_t) (g : gsl_rng)
    (tables : tsk_table_collection_t) (types : list mutation_type_t) (j : nat)
    (ret : msp_ret) (self' : mutgen_t) (g' : gsl_rng) :
  generate_edge fuel self g tables types j = Done (ret, self', g') ->
  same_config self self'
  /\ exists l,
       insert_all (sites self) l = Some (sites self')
       /\ Forall (generated_on tables types) l.
Proof.
  intros H. unfold generate_edge in H. unbind.
  destruct (load (edge_left (tc_edges tables)) j) as [left| |] eqn:El; try discriminate.
  destruct (load (edge_right (tc_edges tables)) j) as [er| |] eqn:Er; try discriminate.
  destruct (load (edge_parent (tc_edges tables)) j) as [parent| |]; try discriminate.
  destruct (load (edge_child (tc_edges tables)) j) as [child| |] eqn:Ec; try discriminate.
  apply load_Done in El, Er, Ec.
  destruct ((0 <=? child)%Z && (child <? Z.of_nat (node_num_rows (tc_nodes tables)))%Z)
    eqn:Hb; simpl in H; [|discriminate].
  destruct (load (node_time (tc_nodes tables)) (Z.to_nat child)) as [ct| |];
    try discriminate.
  destruct (if (parent <? 0)%Z then _ else _) as [pt| |]; try discriminate.
  destruct (from_option Done Crash (map_position (mutation_map self))) as [mp| |];
    try discriminate.
  destruct (read_cells mp _) as [cells| |]; try discriminate.
  destruct (load_cell mp _) as [p| |]; try discriminate.
  match type of H with
  | match ?m with _ => _ end = _ => destruct m as [map_index| |]; try discriminate
  end.
  apply generate_segments_trace in H. destruct H as (Hc & l & Hl & Hall).
  split; [exact Hc|]. exists l. split; [exact Hl|].
  eapply Forall_impl; [exact Hall|]. intros s (pos & mt & Hs & Hmt & Hle & Hlt).
  exists j, left, er, child, mt.
  assert (Hpos : position s = pos) by (rewrite Hs; reflexivity).
  rewrite Hpos. repeat split; auto.
Qed.

Lemma generate_edges_trace (fuel : nat) (tables : tsk_table_collection_t)
    (types : list mutation_type_t) (n : nat) :
  forall j self g ret self' g',
    generate_edges fuel self g tables types n j = Done (ret, self', g') ->
    same_config self self'
    /\ exists l,
         insert_all (sites self) l = Some (sites self')
         /\ Forall (generated_on tables types) l.
Proof.
  induction n as [|n IH]; intros j self g ret self' g' H; simpl in H.
  - injection H as <- <- <-. split; [apply same_config_refl|]. exists []. simpl. auto.
  - unbind.
    destruct (generate_edge fuel self g tables types j) as [[[r1 s1] g1]| |] eqn:E;
      try discriminate.
    apply generate_edge_trace in E. destruct E as (Hc & l1 & Hl1 & Hall1).
    destruct (negb (is_ok r1)).
    { injection H as <- <- <-. split; [exact Hc|]. exists l1. auto. }
    apply IH in H. destruct H as (Hc' & l2 & Hl2 & Hall2).
    split; [exact (same_config_trans _ _ _ Hc Hc')|].
    exists (l1 ++ l2). split; [eapply insert_all_app; eauto|].
    apply Forall_app. auto.
Qed.

End SamplingTrace.

Section GenerateTrace.

Context {P : Platform}.

Lemma initialise_sites_loop_trace (tables : tsk_table_collection_t) (n : nat) :
  forall site_id mutation_id self ret self',
    initialise_sites_loop tables n site_id mutation_id self = Done (ret, self') ->
    exists l,
      insert_all (sites self) l = Some (sites self')
      /\ length l <= n
      /\ (ret = MSP_OK -> length l = n)
      /\ (forall k s, l !! k = Some s ->
            imports_site tables (site_id + k)
              (run_start_from (mutation_site (tc_mutations tables))
                 site_id mutation_id k) s).
Proof.
  induction n as [|n IH]; intros sid mid self ret self' H.
  - simpl in H. injection H as <- <-. exists []. simpl.
    repeat split; auto; try lia; try discriminate.
  - cbn [initialise_sites_loop] in H.
    set (num := site_run (drop mid (mutation_site (tc_mutations tables))) (Z.of_nat sid))
      in *.
    destruct (tsk_blkalloc_get (allocator self) sizeof_site) as [ok1 a1].
    destruct (tsk_blkalloc_get a1 sizeof_avl_node) as [ok2 a2].
    destruct (tsk_blkalloc_get a2 (num * sizeof_mutation)) as [ok3 a3].
    assert (Hfail : forall a,
              exists l,
                insert_all (sites self) l = Some (sites (set_allocator self a))
                /\ length l <= S n
                /\ (MSP_ERR_NO_MEMORY = MSP_OK -> length l = S n)
                /\ (forall k s, l !! k = Some s ->
                      imports_site tables (sid + k)
                        (run_start_from (mutation_site (tc_mutations tables))
                           sid mid k) s)).
    { intros a. exists []. simpl. repeat split; auto; try lia; try discriminate. }
    destruct (negb ok1 || negb ok2 || negb ok3).
    { injection H as <- <-. apply Hfail. }
    unbind.
    destruct (load (site_position (tc_sites tables)) sid) as [pos| |] eqn:Epos;
      try discriminate.
    apply load_Done in Epos.
    destruct (copy_row a3 (site_ancestral_state (tc_sites tables)) _ sid)
      as [[b1 a4]| |] eqn:E1; try discriminate.
    apply copy_row_inv in E1. destruct E1 as [_ Hb1].
    destruct b1 as [ancestral|].
    2:{ injection H as <- <-. apply Hfail. }
    destruct (copy_row a4 (site_metadata (tc_sites tables)) _ sid)
      as [[b2 a5]| |] eqn:E2; try discriminate.
    apply copy_row_inv in E2. destruct E2 as [_ Hb2].
    destruct b2 as [meta|].
    2:{ injection H as <- <-. apply Hfail. }
    destruct (initialise_site_mutations (tc_mutations tables) a5 num mid)
      as [[[ret1 ms] a6]| |] eqn:E3; try discriminate.
    apply initialise_site_mutations_inv in E3. destruct E3 as (_ & Hret1 & Hms).
    destruct Hret1 as [-> | ->]; simpl in H.
    2:{ injection H as <- <-. apply Hfail. }
    destruct (Hms eq_refl) as [Hlen Hrows].
    set (site := {| position := pos; ancestral_state := ancestral; metadata := meta;
                    mutations := ms |}) in *.
    assert (Hsite : imports_site tables sid mid site).
    { unfold imports_site. simpl. split; [exact Epos|]. split; [exact Hb1|].
      split; [exact Hb2|]. split; [exact Hlen | exact Hrows]. }
    destruct (avl_insert_node (sites self) site) as [tree|] eqn:Ei.
    + apply IH in H. destruct H as (l & Hl & Hle & Hok & Hl').
      simpl in Hl.
      exists (site :: l). simpl. rewrite Ei.
      split; [exact Hl|]. split; [lia|].
      split; [intros Hr; rewrite (Hok Hr); reflexivity|].
      intros [|k] s Hk; simpl in Hk.
      * injection Hk as <-. rewrite Nat.add_0_r. exact Hsite.
      * replace (sid + S k) with (S sid + k) by lia. simpl. apply Hl', Hk.
    + injection H as <- <-. exists []. simpl.
      repeat split; auto; try lia; try discriminate.
Qed.

Lemma generate_prologue_trace (self self1 : mutgen_t)
    (tables : tsk_table_collection_t) (flags : Z) (ret : msp_ret) :
  generate_prologue self tables flags = Done (ret, self1) ->
  alphabet self1 = alphabet self
  /\ exists imported,
       insert_all [] imported = Some (sites self1)
       /\ (Z.land flags MSP_KEEP_SITES = 0%Z -> imported = [])
       /\ length imported <= site_num_rows (tc_sites tables)
       /\ (ret = MSP_OK -> Z.land flags MSP_KEEP_SITES <> 0%Z ->
           length imported = site_num_rows (tc_sites tables))
       /\ (forall k s, imported !! k = Some s ->
             imports_site tables k
               (run_start (mutation_site (tc_mutations tables)) k) s).
Proof.
  intros H. apply generate_prologue_inv in H.
  destruct H as (Ha & _ & _ & [(Hs & Hr)|(self0 & Hs0 & _ & Hk & _ & Hi)]).
  - split; [exact Ha|]. exists []. simpl. rewrite Hs.
    split; [reflexivity|]. split; [auto|]. split; [lia|]. split.
    + intros -> Hk. destruct Hr as [(_ & Hz)|[Hr|(e & Hr)]];
        [contradiction|discriminate Hr|discriminate Hr].
    + intros k s Hks. discriminate Hks.
  - split; [exact Ha|].
    unfold mutget_initialise_sites in Hi. apply initialise_sites_loop_trace in Hi.
    destruct Hi as (l & Hl & Hle & Hok & Hl'). rewrite Hs0 in Hl.
    exists l. split; [exact Hl|]. split; [intros Hz; contradiction|].
    split; [exact Hle|]. split; [intros Hr _; exact (Hok Hr)|].
    intros k s Hks. apply (Hl' k s Hks).
Qed.

Lemma generated_on_cleared (tables : tsk_table_collection_t)
    (types : list mutation_type_t) (s : tsk_site_t) :
  generated_on (cleared tables) types s -> generated_on tables types s.
Proof. intros H. exact H. Qed.

(** What [generate] leaves in the registry: the sites of the import, in
    the order of their rows, then the sites the sampling made, in the order
    it made them, each accepted by the registry. *)
Lemma mutgen_generate_trace (fuel : nat) (self self' : mutgen_t) (g g' : gsl_rng)
    (tables tables' : tsk_table_collection_t) (flags : Z) (ret : msp_ret) :
  mutgen_generate fuel self g tables flags = Done (ret, self', g', tables') ->
  exists imported generated,
    insert_all [] (imported ++ generated) = Some (sites self')
    /\ (Z.land flags MSP_KEEP_SITES = 0%Z -> imported = [])
    /\ (ret = MSP_OK -> Z.land flags MSP_KEEP_SITES <> 0%Z ->
        length imported = site_num_rows (tc_sites tables))
    /\ (forall k s, imported !! k = Some s ->
          imports_site tables k (run_start (mutation_site (tc_mutations tables)) k) s)
    /\ Forall (generated_on tables (mutation_types_of self)) generated.
Proof.
  intros H. apply mutgen_generate_inv in H.
  destruct H as [(Hne & Hp & _ & _)|(self1 & Hp & Hb)].
  - apply generate_prologue_trace in Hp.
    destruct Hp as (_ & imported & Hi & Hz & _ & _ & Hl).
    exists imported, []. rewrite app_nil_r.
    split; [exact Hi|]. split; [exact Hz|]. split; [intros Hr; contradiction|].
    split; [exact Hl|constructor].
  - apply generate_prologue_trace in Hp.
    destruct Hp as (Ha & imported & Hi & Hz & _ & Hlen & Hl).
    apply generate_body_inv in Hb. destruct Hb as (ret_s & He & _).
    apply generate_edges_trace in He. destruct He as (_ & l & Hl2 & Hall).
    exists imported, l. split; [eapply insert_all_app; eauto|].
    split; [exact Hz|]. split; [intros _ Hk; exact (Hlen eq_refl Hk)|].
    split; [exact Hl|].
    replace (mutation_types_of self) with (mutation_types_of self1)
      by (unfold mutation_types_of; rewrite Ha; reflexivity).
    exact Hall.
Qed.

End GenerateTrace.

Section ExportColumns.

Context {P : Platform}.

Lemma populate_mutations_columns (ms : list tsk_mutation_t) :
  forall site_id mt nm mt' nm',
    populate_mutations ms site_id mt nm = (MSP_OK, mt', nm') ->
    mutation_site mt' = mutation_site mt ++ replicate (length ms) site_id
    /\ mutation_node mt' = mutation_node mt ++ (mut_node <$> ms).
Proof.
  induction ms as [|m ms IH]; intros sid mt nm mt' nm' H; simpl in H.
  - injection H as <- _. rewrite !app_nil_r. auto.
  - unfold tsk_mutation_table_add_row in H.
    destruct (tsk_max_rows <=? mutation_num_rows mt); [discriminate|].
    apply IH in H. simpl in H. destruct H as [Hs Hn].
    rewrite Hs, Hn. simpl. rewrite <- !app_assoc. auto.
Qed.

Lemma populate_sites_columns (tree : list tsk_site_t) :
  forall st mt nm st' mt',
    populate_sites tree st mt nm = (MSP_OK, st', mt') ->
    site_num_rows st' = site_num_rows st + length tree
    /\ mutation_site mt'
       = mutation_site mt
           ++ groups (site_num_rows st) ((fun s => length (mutations s)) <$> tree)
    /\ mutation_node mt' = mutation_node mt ++ (mut_node <$> emitted_mutations tree).
Proof.
  induction tree as [|s tree IH]; intros st mt nm st' mt' H; simpl in H.
  - injection H as <- <-. unfold groups. simpl. rewrite !app_nil_r. auto.
  - unfold tsk_site_table_add_row in H.
    destruct (tsk_max_rows <=? site_num_rows st); [discriminate|].
    destruct (populate_mutations (mutations s) _ mt nm) as [[r mt1] nm1] eqn:Em.
    destruct r; try discriminate.
    apply populate_mutations_columns in Em. destruct Em as [Hs1 Hn1].
    apply IH in H. destruct H as (Hrows & Hs & Hn).
    unfold site_num_rows in *. simpl in Hrows, Hs.
    rewrite length_app in Hrows, Hs. simpl in Hrows, Hs.
    split; [simpl; lia|]. split.
    + rewrite Hs, Hs1. rewrite fmap_cons, groups_cons, <- app_assoc.
      replace (length (site_position st) + 1) with (S (length (site_position st)))
        by lia. reflexivity.
    + rewrite Hn, Hn1, emitted_mutations_cons, fmap_app, <- app_assoc. reflexivity.
Qed.

End ExportColumns.

Section Output.

Context {P : Platform}.

Lemma mutgen_generate_export (fuel : nat) (self self' : mutgen_t) (g g' : gsl_rng)
    (tables tables' : tsk_table_collection_t) (flags : Z) :
  mutgen_generate fuel self g tables flags = Done (MSP_OK, self', g', tables') ->
  populate_sites (sites self') (tsk_site_table_clear (tc_sites tables))
    (tsk_mutation_table_clear (tc_mutations tables)) 0%Z
  = (MSP_OK, tc_sites tables', tc_mutations tables').
Proof.
  intros H. apply mutgen_generate_inv in H.
  destruct H as [(Hne & _)|(self1 & _ & Hb)]; [contradiction|].
  apply generate_body_inv in Hb.
  destruct Hb as (ret_s & _ & [(Hne & <- & _)|(_ & st & mt & Hp & ->)]);
    [contradiction|].
  exact Hp.
Qed.

Lemma mutgen_generate_sorted_registry (fuel : nat) (self self' : mutgen_t)
    (g g' : gsl_rng) (tables tables' : tsk_table_collection_t) (flags : Z)
    (ret : msp_ret) :
  mutgen_generate fuel self g tables flags = Done (ret, self', g', tables') ->
  StronglySorted position_lt (sites self').
Proof.
  intros H. apply mutgen_generate_trace in H.
  destruct H as (imported & generated & Hi & _).
  eapply (insert_all_Inv (StronglySorted position_lt)); [|constructor|exact Hi].
  intros tree s t Ht Hs. eapply avl_insert_node_sorted; eauto.
Qed.

(** X9: the site table a successful [generate] leaves is sorted: the
    positions strictly increase with the row. *)
Theorem mutgen_generate_sorted_positions (fuel : nat) (self self' : mutgen_t)
    (g g' : gsl_rng) (tables tables' : tsk_table_collection_t) (flags : Z) :
  mutgen_generate fuel self g tables flags = Done (MSP_OK, self', g', tables') ->
  forall i j p q, i < j ->
    site_position (tc_sites tables') !! i = Some p ->
    site_position (tc_sites tables') !! j = Some q ->
    dlt p q = true.
Proof.
  intros H i j p q Hij Hi Hj.
  pose proof (mutgen_generate_sorted_registry _ _ _ _ _ _ _ _ _ H) as Hs.
  apply mutgen_generate_export, populate_sites_rows in H.
  destruct H as (k & j' & _ & _ & Hout & _ & Hok & _).
  destruct (Hok eq_refl) as [-> _]. rewrite firstn_all in Hout. simpl in Hout.
  rewrite Hout in Hi, Hj. rewrite list_lookup_fmap in Hi, Hj.
  destruct (sites self' !! i) as [x|] eqn:Ex; [|discriminate].
  destruct (sites self' !! j) as [y|] eqn:Ey; [|discriminate].
  injection Hi as <-. injection Hj as <-.
  exact (StronglySorted_lookup _ _ Hs i j x y Hij Ex Ey).
Qed.

Lemma groups_length (tree : list tsk_site_t) (start : nat) :
  length (groups start ((fun s => length (mutations s)) <$> tree))
  = length (emitted_mutations tree).
Proof.
  revert start. induction tree as [|s tree IH]; intros start; [reflexivity|].
  rewrite fmap_cons, groups_cons, emitted_mutations_cons, !length_app,
    length_replicate, IH. reflexivity.
Qed.

(** X10: the export writes as many site rows as the registry has sites and
    the mutation rows grouped by site, in increasing order of the site, so
    that an import of these tables reads every mutation row. *)
Theorem mutgen_generate_grouped_output (fuel : nat) (self self' : mutgen_t)
    (g g' : gsl_rng) (tables tables' : tsk_table_collection_t) (flags : Z) :
  mutgen_generate fuel self g tables flags = Done (MSP_OK, self', g', tables') ->
  let col := mutation_site (tc_mutations tables') in
  let n := site_num_rows (tc_sites tables') in
  n = length (sites self')
  /\ length col = length (emitted_mutations (sites self'))
  /\ col = groups 0 ((fun s => length (mutations s)) <$> sites self')
  /\ grouped_increasing col n
  /\ run_start col n = length col.
Proof.
  intros H col n.
  apply mutgen_generate_export, populate_sites_columns in H.
  destruct H as (Hn & Hc & _).
  change (site_num_rows (tsk_site_table_clear (tc_sites tables))) with 0 in Hn, Hc.
  simpl in Hn, Hc. fold n in Hn. fold col in Hc.
  assert (Hg : grouped_increasing col n).
  { exists ((fun s => length (mutations s)) <$> sites self').
    rewrite length_fmap. split; [lia | exact Hc]. }
  split; [exact Hn|]. split; [|split; [exact Hc|split; [exact Hg|]]].
  - rewrite Hc. apply groups_length.
  - unfold run_start. rewrite run_start_from_consumed, drop_0. simpl.
    apply consumed_all. exact Hg.
Qed.

(** X11: every site of the registry after [generate] was either read from a
    row of the site table by the import (with the keep flag only) or made
    by the sampling on an edge of the tables: its mutation sits on the
    child node of the edge, a node of the node table, and its position is
    at or after the left end of the edge and, unless the right end is a
    NaN, before the right end. *)
Theorem mutgen_generate_site_origin (fuel : nat) (self self' : mutgen_t)
    (g g' : gsl_rng) (tables tables' : tsk_table_collection_t) (flags : Z)
    (ret : msp_ret) :
  mutgen_generate fuel self g tables flags = Done (ret, self', g', tables') ->
  forall s, s ∈ sites self' ->
    (Z.land flags MSP_KEEP_SITES <> 0%Z
     /\ exists k,
          imports_site tables k (run_start (mutation_site (tc_mutations tables)) k) s)
    \/ generated_on tables (mutation_types_of self) s.
Proof.
  intros H s Hs. apply mutgen_generate_trace in H.
  destruct H as (imported & generated & Hi & Hz & _ & Himp & Hgen).
  apply insert_all_perm in Hi. rewrite Hi, app_nil_r in Hs.
  apply elem_of_app in Hs. destruct Hs as [Hs|Hs].
  - left. split.
    + intros Hk. rewrite (Hz Hk) in Hs. inversion Hs.
    + apply list_elem_of_lookup_1 in Hs. destruct Hs as (k & Hk).
      exists k. exact (Himp k s Hk).
  - right. rewrite Forall_forall in Hgen. exact (Hgen s Hs).
Qed.


Lemma mutation_types_facts (self : mutgen_t) (mt : mutation_type_t) :
  mt ∈ mutation_types_of self ->
  length (mt_ancestral_state mt) = 1 /\ length (mt_derived_state mt) = 1
  /\ mt_ancestral_state mt <> mt_derived_state mt
  /\ (alphabet self = 0%Z ->
      mt_ancestral_state mt = ["0"%byte] /\ mt_derived_state mt = ["1"%byte])
  /\ (alphabet self <> 0%Z ->
      Forall (fun b => b ∈ ["A"; "C"; "G"; "T"]%byte)
        (mt_ancestral_state mt ++ mt_derived_state mt)).
Proof.
  unfold mutation_types_of. intros H.
  destruct (Z.eqb_spec (alphabet self) 0) as [E|E].
  - unfold binary_mutation_types in H.
    apply elem_of_cons in H. destruct H as [->|H]; [|inversion H].
    simpl. repeat split; auto; try discriminate. intros Hne. contradiction.
  - unfold acgt_mutation_types in H.
    repeat (apply elem_of_cons in H; destruct H as [->|H]); try (inversion H; fail);
      simpl; (split; [reflexivity|]); (split; [reflexivity|]);
      (split; [discriminate|]); (split; [intros; contradiction|]); intros _;
      repeat constructor.
Qed.

(** X12: a site made by the sampling has one mutation, marked as generated,
    with a null parent and no metadata, and one-letter ancestral and
    derived states that differ: "0" and "1" for the binary alphabet,
    letters of ACGT otherwise. *)
Theorem mutgen_generate_site_states (fuel : nat) (self self' : mutgen_t)
    (g g' : gsl_rng) (tables tables' : tsk_table_collection_t) (flags : Z)
    (ret : msp_ret) :
  mutgen_generate fuel self g tables flags = Done (ret, self', g', tables') ->
  forall s, s ∈ sites self' ->
    (Z.land flags MSP_KEEP_SITES <> 0%Z
     /\ exists k,
          imports_site tables k (run_start (mutation_site (tc_mutations tables)) k) s)
    \/ exists m,
         mutations s = [m]
         /\ mut_id m = 0%Z /\ mut_parent m = TSK_NULL
         /\ metadata s = [] /\ mut_metadata m = []
         /\ length (ancestral_state s) = 1 /\ length (mut_derived_state m) = 1
         /\ ancestral_state s <> mut_derived_state m
         /\ (alphabet self = 0%Z ->
             ancestral_state s = ["0"%byte] /\ mut_derived_state m = ["1"%byte])
         /\ (alphabet self <> 0%Z ->
             Forall (fun b => b ∈ ["A"; "C"; "G"; "T"]%byte)
               (ancestral_state s ++ mut_derived_state m)).
Proof.
  intros H s Hs.
  destruct (mutgen_generate_site_origin _ _ _ _ _ _ _ _ _ H s Hs)
    as [Himp|(j & lft & er & child & mt & _ & _ & _ & _ & Hmt & Heq & _)];
    [left; exact Himp|right].
  destruct (mutation_types_facts self mt Hmt) as (La & Ld & Hne & Hbin & Hacgt).
  assert (Ta : take 1 (mt_ancestral_state mt) = mt_ancestral_state mt)
    by (apply firstn_all2; lia).
  assert (Td : take 1 (mt_derived_state mt) = mt_derived_state mt)
    by (apply firstn_all2; lia).
  rewrite Heq. unfold new_site. simpl. rewrite Ta, Td.
  eexists. split; [reflexivity|]. simpl. repeat split; auto; try apply Hbin; auto.
Qed.


Lemma groups_ones (counts : list nat) :
  Forall (fun c => c = 1) counts ->
  forall start, groups start counts = Z.of_nat <$> seq start (length counts).
Proof.
  induction 1 as [|c counts Hc _ IH]; intros start; [reflexivity|].
  rewrite groups_cons, Hc, IH. reflexivity.
Qed.

(** X13: without the keep flag the output has one mutation per site: row
    [i] of the mutation table belongs to site [i], has a null parent and
    sits on the child node of some edge, a node of the node table. *)
Theorem mutgen_generate_fresh_output (fuel : nat) (self self' : mutgen_t)
    (g g' : gsl_rng) (tables tables' : tsk_table_collection_t) (flags : Z) :
  mutgen_generate fuel self g tables flags = Done (MSP_OK, self', g', tables') ->
  Z.land flags MSP_KEEP_SITES = 0%Z ->
  let n := site_num_rows (tc_sites tables') in
  mutation_num_rows (tc_mutations tables') = n
  /\ mutation_site (tc_mutations tables') = Z.of_nat <$> seq 0 n
  /\ mutation_parent (tc_mutations tables') = replicate n TSK_NULL
  /\ Forall (fun node =>
               node_in_bounds (node_num_rows (tc_nodes tables)) node = true
               /\ node ∈ edge_child (tc_edges tables))
       (mutation_node (tc_mutations tables')).
Proof.
  intros H Hz n.
  assert (Hgen : Forall (generated_on tables (mutation_types_of self)) (sites self')).
  { rewrite Forall_forall. intros s Hs.
    destruct (mutgen_generate_site_origin _ _ _ _ _ _ _ _ _ H s Hs) as [[Hk _]|Hg];
      [contradiction|exact Hg]. }
  assert (Hone : Forall (fun s => exists m, mutations s = [m] /\ mut_parent m = TSK_NULL
                                   /\ node_in_bounds (node_num_rows (tc_nodes tables))
                                        (mut_node m) = true
                                   /\ mut_node m ∈ edge_child (tc_edges tables))
                   (sites self')).
  { eapply Forall_impl; [exact Hgen|].
    intros s (j & lft & er & child & mt & _ & _ & Hc & Hb & _ & Heq & _).
    rewrite Heq. eexists. split; [reflexivity|]. simpl.
    split; [reflexivity|]. split; [exact Hb|]. eapply list_elem_of_lookup_2, Hc. }
  pose proof (mutgen_generate_grouped_output _ _ _ _ _ _ _ _ H) as (Hn & Hlen & Hcol & _).
  fold n in Hn.
  assert (Hcounts : Forall (fun c => c = 1)
                      ((fun s => length (mutations s)) <$> sites self')).
  { apply Forall_fmap. eapply Forall_impl; [exact Hone|].
    intros s (m & Hm & _). unfold compose. rewrite Hm. reflexivity. }
  assert (Hms : Forall (fun m => mut_parent m = TSK_NULL
                          /\ node_in_bounds (node_num_rows (tc_nodes tables))
                               (mut_node m) = true
                          /\ mut_node m ∈ edge_child (tc_edges tables))
                  (emitted_mutations (sites self'))).
  { unfold emitted_mutations. apply Forall_concat, Forall_fmap.
    eapply Forall_impl; [exact Hone|]. intros s (m & Em & Hm). unfold compose.
    rewrite Em. repeat constructor; apply Hm. }
  rewrite (groups_ones _ Hcounts), length_fmap, <- Hn in Hcol.
  assert (Hrows : mutation_num_rows (tc_mutations tables') = n).
  { unfold mutation_num_rows. rewrite Hcol, length_fmap, length_seq. reflexivity. }
  split; [exact Hrows|]. split; [exact Hcol|].
  unfold mutation_num_rows in Hrows. rewrite Hlen in Hrows.
  pose proof (mutgen_generate_export _ _ _ _ _ _ _ _ H) as Hexp.
  split.
  - apply populate_sites_rows in Hexp.
    destruct Hexp as (k & j & _ & _ & _ & Hpar & Hok & _).
    destruct (Hok eq_refl) as [_ ->]. rewrite firstn_all in Hpar. simpl in Hpar.
    rewrite Hpar. apply list_eq. intros i.
    rewrite list_lookup_imap.
    destruct (emitted_mutations (sites self') !! i) as [m|] eqn:Em; simpl.
    + rewrite Forall_lookup in Hms. destruct (Hms i m Em) as (Hp & _).
      unfold shifted. rewrite Hp. simpl.
      symmetry. apply lookup_replicate. split; [reflexivity|].
      apply lookup_lt_Some in Em. lia.
    + symmetry. apply lookup_ge_None. rewrite length_replicate.
      apply lookup_ge_None in Em. lia.
  - apply populate_sites_columns in Hexp. destruct Hexp as (_ & _ & Hnode).
    simpl in Hnode. rewrite Hnode. apply Forall_fmap.
    eapply Forall_impl; [exact Hms|]. intros m (_ & Hb & Hc). unfold compose. auto.
Qed.


End Output.

Section Frame.

Context {P : Platform}.

Lemma generate_prologue_frame (self self1 : mutgen_t) (tables : tsk_table_collection_t)
    (flags : Z) (ret : msp_ret) :
  generate_prologue self tables flags = Done (ret, self1) ->
  map_size (mutation_map self1) = map_size (mutation_map self)
  /\ map_rate (mutation_map self1) = map_rate (mutation_map self)
  /\ block_size self <= block_size self1
  /\ (map_position (mutation_map self1) = map_position (mutation_map self)
      \/ exists mp,
           map_position (mutation_map self) = Some mp
           /\ map_position (mutation_map self1)
              = Some (<[map_size (mutation_map self) := Some (sequence_length tables)]> mp)).
Proof.
  unfold generate_prologue. intros H.
  destruct (mutgen_init_allocator (set_sites self (avl_clear_tree (sites self))) tables)
    as [ret0 self0] eqn:E0.
  apply mutgen_init_allocator_spec in E0.
  destruct E0 as (Hb & _ & _ & Hm & _). simpl in Hm.
  assert (Hbs : block_size self <= block_size self0).
  { rewrite Hb. unfold arena_block_size. simpl.
    destruct (block_size self =? 0) eqn:E; [apply Nat.eqb_eq in E|]; lia. }
  destruct (negb (is_ok ret0)).
  { injection H as <- <-. rewrite Hm. auto. }
  destruct (tsk_table_collection_check_integrity tables).
  { injection H as <- <-. rewrite Hm. auto. }
  rewrite Hm in H. unbind.
  destruct (map_position (mutation_map self)) as [mp|] eqn:Emp; [|discriminate].
  simpl in H. unfold store_cell in H.
  destruct (map_size (mutation_map self) <? length mp); [|discriminate].
  destruct (if map_size (mutation_map self) =? 0 then _ else _) as [last| |];
    try discriminate.
  destruct (dge last (sequence_length tables)).
  { injection H as <- <-. simpl. repeat split; auto. right. eauto. }
  destruct (negb (Z.land flags MSP_KEEP_SITES =? 0)%Z).
  - unfold mutget_initialise_sites in H. apply initialise_sites_loop_inv in H.
    destruct H as ((_ & _ & _ & Hbl & Hmap) & _). simpl in Hbl, Hmap.
    rewrite <- Hmap, <- Hbl. simpl. repeat split; auto. right. eauto.
  - injection H as <- <-. simpl. repeat split; auto. right. eauto.
Qed.

(** X14: [generate] never changes the alphabet, the time window, the size of
    the map or its rates; of the breakpoints it changes at most the
    sentinel cell, which it sets to the sequence length; the stored block
    size does not shrink; the nodes, the edges and the sequence length of
    the tables are left as they were. *)
Theorem mutgen_generate_frame (fuel : nat) (self self' : mutgen_t) (g g' : gsl_rng)
    (tables tables' : tsk_table_collection_t) (flags : Z) (ret : msp_ret) :
  mutgen_generate fuel self g tables flags = Done (ret, self', g', tables') ->
  alphabet self' = alphabet self
  /\ start_time self' = start_time self
  /\ end_time self' = end_time self
  /\ map_size (mutation_map self') = map_size (mutation_map self)
  /\ map_rate (mutation_map self') = map_rate (mutation_map self)
  /\ (map_position (mutation_map self') = map_position (mutation_map self)
      \/ exists mp,
           map_position (mutation_map self) = Some mp
           /\ map_position (mutation_map self')
              = Some (<[map_size (mutation_map self) := Some (sequence_length tables)]> mp))
  /\ block_size self <= block_size self'
  /\ sequence_length tables' = sequence_length tables
  /\ tc_nodes tables' = tc_nodes tables
  /\ tc_edges tables' = tc_edges tables.
Proof.
  intros H. apply mutgen_generate_inv in H.
  destruct H as [(_ & Hp & _ & ->)|(self1 & Hp & Hb)].
  - pose proof (generate_prologue_inv _ _ _ _ _ Hp) as (Ha & Hs & He & _).
    apply generate_prologue_frame in Hp. destruct Hp as (H1 & H2 & H3 & H4).
    repeat split; auto.
  - pose proof (generate_prologue_inv _ _ _ _ _ Hp) as (Ha & Hs & He & _).
    apply generate_prologue_frame in Hp. destruct Hp as (H1 & H2 & H3 & H4).
    apply generate_body_inv in Hb. destruct Hb as (ret_s & Hed & Hcase).
    apply generate_edges_trace in Hed.
    destruct Hed as ((Ha' & Hs' & He' & Hb' & Hm') & _).
    rewrite <- Ha', <- Hs', <- He', <- Hb', <- Hm'.
    assert (Ht : sequence_length tables' = sequence_length tables
                 /\ tc_nodes tables' = tc_nodes tables
                 /\ tc_edges tables' = tc_edges tables).
    { destruct Hcase as [(_ & _ & ->)|(_ & st & mt & _ & ->)]; repeat split. }
    destruct Ht as (T1 & T2 & T3). repeat split; auto.
Qed.

End Frame.

Lemma deq_0_zero (r : double) :
  deq r 0%float = true -> exists s, Prim2SF r = S754_zero s.
Proof.
  unfold deq. rewrite FloatAxioms.eqb_spec. unfold SFeqb.
  change (Prim2SF 0%float) with (S754_zero false).
  destruct (Prim2SF r) as [s|[]| |[] m e]; simpl; try discriminate. eauto.
Qed.

Lemma mean_zero_rate (x r : double) :
  deq r 0%float = true -> dgt (x * r)%float 0%float = false.
Proof.
  intros Hr. destruct (deq_0_zero r Hr) as (s & Es).
  apply SFnot_pos_dgt. rewrite mul_spec, Es.
  destruct (Prim2SF x) as [?|?| |? ? ?]; simpl; exact I.
Qed.

Section ZeroRate.

Context {P : Platform}.

Lemma generate_segments_zero_rate (fuel : nat) :
  forall self g child left edge_right branch_length types right map_index ret self' g',
    poisson_zero_below ->
    rates_zero self ->
    generate_segments fuel self g child left edge_right branch_length types right
      map_index = Done (ret, self', g') ->
    ret = MSP_OK /\ self' = self.
Proof.
  induction fuel as [|fuel IH];
    intros self g child left edge_right bl types right map_index ret self' g'
      Hpz Hrates H.
  - simpl in H. destruct (negb (dne right edge_right)); [|discriminate].
    injection H as <- <- <-. auto.
  - cbn [generate_segments] in H.
    destruct (negb (dne right edge_right)).
    { injection H as <- <- <-. auto. }
    unbind.
    destruct (map_position (mutation_map self)) as [mp|] eqn:Emp; [|discriminate].
    destruct (map_rate (mutation_map self)) as [mr|] eqn:Emr; [|discriminate].
    simpl in H. unfold load_cell in H.
    destruct (mp !! (map_index + 1)) as [[p|]|] eqn:Ep; try discriminate.
    destruct (mr !! map_index) as [[r|]|] eqn:Er; try discriminate.
    pose proof (mean_zero_rate (bl * (GSL_MIN_dbl edge_right p - left))%float r
                  (Hrates mr _ r Emr Er)) as Hmu.
    pose proof (Hpz g _ Hmu) as Hk.
    destruct (gsl_ran_poisson g _) as [k g1]. simpl in Hk. subst k.
    simpl in H.
    apply (IH self g1 child left edge_right bl types (GSL_MIN_dbl edge_right p)
             (S map_index) ret self' g'); auto.
Qed.

Lemma generate_edges_zero_rate (fuel : nat) (tables : tsk_table_collection_t)
    (types : list mutation_type_t) (n : nat) :
  forall j self g ret self' g',
    poisson_zero_below ->
    rates_zero self ->
    generate_edges fuel self g tables types n j = Done (ret, self', g') ->
    ret = MSP_OK /\ self' = self.
Proof.
  induction n as [|n IH]; intros j self g ret self' g' Hpz Hr H; simpl in H.
  - injection H as <- <- <-. auto.
  - unbind.
    destruct (generate_edge fuel self g tables types j) as [[[r1 s1] g1]| |] eqn:E;
      try discriminate.
    assert (He : r1 = MSP_OK /\ s1 = self).
    { unfold generate_edge in E. unbind.
      destruct (load (edge_left _) j) as [lft| |]; try discriminate.
      destruct (load (edge_right _) j) as [er| |]; try discriminate.
      destruct (load (edge_parent _) j) as [parent| |]; try discriminate.
      destruct (load (edge_child _) j) as [child| |]; try discriminate.
      destruct (negb _); [discriminate|].
      destruct (load (node_time _) _) as [ct| |]; try discriminate.
      destruct (if (parent <? 0)%Z then _ else _) as [pt| |]; try discriminate.
      destruct (from_option Done Crash (map_position (mutation_map self))) as [mp| |];
        try discriminate.
      destruct (read_cells mp _) as [cells| |]; try discriminate.
      destruct (load_cell mp _) as [p| |]; try discriminate.
      match type of E with
      | match ?m with _ => _ end = _ => destruct m as [map_index| |]; try discriminate
      end.
      eapply generate_segments_zero_rate; eauto. }
    destruct He as [-> ->]. simpl in H. eapply IH; eauto.
Qed.

(** X15: with a map whose rates are all zero (the default of
    [mutgen_alloc]) and a sampler that returns zero for a mean that is not
    above zero, [generate] makes no site: the registry holds imported
    sites only, and without the keep flag the output tables are empty. *)
Theorem mutgen_generate_zero_rate (fuel : nat) (self self' : mutgen_t) (g g' : gsl_rng)
    (tables tables' : tsk_table_collection_t) (flags : Z) (ret : msp_ret) :
  poisson_zero_below ->
  rates_zero self ->
  mutgen_generate fuel self g tables flags = Done (ret, self', g', tables') ->
  (forall s, s ∈ sites self' ->
     Z.land flags MSP_KEEP_SITES <> 0%Z
     /\ exists k,
          imports_site tables k (run_start (mutation_site (tc_mutations tables)) k) s)
  /\ (Z.land flags MSP_KEEP_SITES = 0%Z ->
      sites self' = []
      /\ (ret = MSP_OK ->
          site_num_rows (tc_sites tables') = 0
          /\ mutation_num_rows (tc_mutations tables') = 0)).
Proof.
  intros Hpz Hr H.
  assert (Himp : exists imported,
             sites self' ≡ₚ imported
             /\ (Z.land flags MSP_KEEP_SITES = 0%Z -> imported = [])
             /\ (forall k s, imported !! k = Some s ->
                   imports_site tables k
                     (run_start (mutation_site (tc_mutations tables)) k) s)).
  { pose proof H as H0. apply mutgen_generate_inv in H0.
    destruct H0 as [(_ & Hp & _)|(self1 & Hp & Hb)].
    - apply generate_prologue_trace in Hp.
      destruct Hp as (_ & imported & Hi & Hz & _ & _ & Hl).
      apply insert_all_perm in Hi. rewrite app_nil_r in Hi. eauto.
    - pose proof (generate_prologue_frame _ _ _ _ _ Hp) as (_ & Hrate & _).
      apply generate_prologue_trace in Hp.
      destruct Hp as (_ & imported & Hi & Hz & _ & _ & Hl).
      apply insert_all_perm in Hi. rewrite app_nil_r in Hi.
      apply generate_body_inv in Hb. destruct Hb as (ret_s & Hed & _).
      apply generate_edges_zero_rate in Hed; auto.
      + destruct Hed as [_ ->]. eauto.
      + intros mr i r Emr Er. rewrite Hrate in Emr. exact (Hr mr i r Emr Er). }
  destruct Himp as (imported & Hperm & Hz & Hl).
  split.
  - intros s Hs. rewrite Hperm in Hs. split.
    + intros Hk. rewrite (Hz Hk) in Hs. inversion Hs.
    + apply list_elem_of_lookup_1 in Hs. destruct Hs as (k & Hk). eauto.
  - intros Hk. rewrite (Hz Hk) in Hperm. apply Permutation_nil_r in Hperm.
    split; [exact Hperm|]. intros ->.
    apply mutgen_generate_export in H. rewrite Hperm in H. simpl in H.
    injection H as <- <-. split; reflexivity.
Qed.

End ZeroRate.

Lemma mutgen_generate_sorted_positions_witness :
  exists p q,
    site_position (tc_sites keep_run_tables) !! 0 = Some p
    /\ site_position (tc_sites keep_run_tables) !! 1 = Some q
    /\ dlt p q = true.
Proof.
  exists 2.5%float, 5%float. split; [reflexivity|]. split; [reflexivity|].
  apply (@mutgen_generate_sorted_positions (scripted 8 8) 4 fresh_mutgen keep_run_self
           (script [1; 2; 0]) keep_run_rng keep_tables keep_run_tables 1
           keep_run_Done 0 1); [lia|reflexivity|reflexivity].
Defined.

Lemma mutgen_generate_grouped_output_witness :
  run_start (mutation_site (tc_mutations keep_run_tables))
    (site_num_rows (tc_sites keep_run_tables))
  = length (mutation_site (tc_mutations keep_run_tables)).
Proof.
  apply (@mutgen_generate_grouped_output (scripted 8 8) 4 fresh_mutgen keep_run_self
           (script [1; 2; 0]) keep_run_rng keep_tables keep_run_tables 1
           keep_run_Done).
Defined.

Lemma mutgen_generate_site_origin_witness :
  Forall (fun s =>
            (Z.land 1 MSP_KEEP_SITES <> 0%Z
             /\ exists k,
                  imports_site keep_tables k
                    (run_start (mutation_site (tc_mutations keep_tables)) k) s)
            \/ generated_on keep_tables (mutation_types_of fresh_mutgen) s)
    (sites keep_run_self).
Proof.
  rewrite Forall_forall. intros s Hs.
  exact (@mutgen_generate_site_origin (scripted 8 8) 4 fresh_mutgen keep_run_self
           (script [1; 2; 0]) keep_run_rng keep_tables keep_run_tables 1 MSP_OK
           keep_run_Done s Hs).
Defined.

Lemma mutgen_generate_site_states_witness :
  Forall (fun s =>
            exists m, mutations s = [m] /\ ancestral_state s = ["0"%byte]
                      /\ mut_derived_state m = ["1"%byte])
    (sites first_run_self).
Proof.
  rewrite Forall_forall. intros s Hs.
  destruct (@mutgen_generate_site_states (scripted 8 8) 4 fresh_mutgen first_run_self
              (script [1; 2; 0]) first_run_rng plain_tables first_run_tables 0 MSP_OK
              first_run_Done s Hs)
    as [(Hk & _)|(m & Hm & _ & _ & _ & _ & _ & _ & _ & Hbin & _)].
  - exfalso. apply Hk. reflexivity.
  - exists m. split; [exact Hm|]. apply Hbin. reflexivity.
Defined.

Lemma mutgen_generate_fresh_output_witness :
  mutation_site (tc_mutations first_run_tables)
  = Z.of_nat <$> seq 0 (site_num_rows (tc_sites first_run_tables)).
Proof.
  apply (@mutgen_generate_fresh_output (scripted 8 8) 4 fresh_mutgen first_run_self
           (script [1; 2; 0]) first_run_rng plain_tables first_run_tables 0
           first_run_Done eq_refl).
Defined.

Lemma mutgen_generate_frame_witness :
  map_rate (mutation_map first_run_self) = map_rate (mutation_map fresh_mutgen)
  /\ tc_edges first_run_tables = tc_edges plain_tables.
Proof.
  destruct (@mutgen_generate_frame (scripted 8 8) 4 fresh_mutgen first_run_self
              (script [1; 2; 0]) first_run_rng plain_tables first_run_tables 0 MSP_OK
              first_run_Done) as (_ & _ & _ & _ & Hr & _ & _ & _ & _ & He).
  split; [exact Hr | exact He].
Defined.

Lemma zero_rate_Done :
  @mutgen_generate (scripted 8 8) 4 zero_rate_mutgen (script [1; 2; 0]) plain_tables 0
  = Done zero_rate_result.
Proof. vm_compute. reflexivity. Qed.

Lemma mutgen_generate_zero_rate_witness :
  sites (snd (fst (fst zero_rate_result))) = []
  /\ site_num_rows (tc_sites (snd zero_rate_result)) = 0.
Proof.
  assert (Hpz : @poisson_zero_below (scripted 8 8)).
  { intros g mu Hmu. simpl. unfold script_poisson. rewrite Hmu. reflexivity. }
  assert (Hr : rates_zero zero_rate_mutgen).
  { intros mr i r Hmr Hr. simpl in Hmr. injection Hmr as <-.
    destruct i as [|i]; simpl in Hr; [injection Hr as <-; reflexivity | discriminate]. }
  destruct (@mutgen_generate_zero_rate (scripted 8 8) 4 zero_rate_mutgen
              (snd (fst (fst zero_rate_result))) (script [1; 2; 0])
              (snd (fst zero_rate_result)) plain_tables (snd zero_rate_result) 0
              (fst (fst (fst zero_rate_result))) Hpz Hr zero_rate_Done) as [_ H].
  destruct (H eq_refl) as [Hs Hrows]. split; [exact Hs|].
  apply Hrows. reflexivity.
Defined.


Lemma SFcompare_Eq_Lt_trans (x y z : spec_float) :
  SFcompare x y = Some Eq -> SFcompare y z = Some Lt -> SFcompare x z = Some Lt.
Proof.
  destruct x as [[]|[]| |[] mx ex], y as [[]|[]| |[] my ey], z as [[]|[]| |[] mz ez];
    simpl; intros H1 H2; try discriminate; try reflexivity;
    change (PosDef.Pos.compare_cont Eq) with Pos.compare in *;
    destruct (Z.compare_spec ex ey), (Z.compare_spec ey ez), (Z.compare_spec ex ez);
    subst; try lia; try discriminate; try reflexivity;
    destruct (Pos.compare_spec mx my), (Pos.compare_spec my mz), (Pos.compare_spec mx mz);
    subst; simpl in *; try lia; try discriminate; try reflexivity.
Qed.

Lemma dlt_dle (a b : double) : dlt a b = true -> dle a b = true.
Proof.
  unfold dlt, dle. rewrite ltb_spec, leb_spec. unfold SFltb, SFleb.
  destruct (SFcompare _ _) as [[]|]; congruence.
Qed.

Lemma deq_dle (a b : double) : deq a b = true -> dle a b = true.
Proof.
  unfold deq, dle. rewrite FloatAxioms.eqb_spec, leb_spec. unfold SFeqb, SFleb.
  destruct (SFcompare _ _) as [[]|]; congruence.
Qed.

Lemma deq_dlt_trans (a b c : double) :
  deq a b = true -> dlt a c = true -> dlt b c = true.
Proof.
  unfold deq, dlt. rewrite FloatAxioms.eqb_spec, !ltb_spec. unfold SFeqb, SFltb.
  destruct (SFcompare (Prim2SF a) (Prim2SF b)) as [[]|] eqn:E1; try discriminate.
  destruct (SFcompare (Prim2SF a) (Prim2SF c)) as [[]|] eqn:E2; try discriminate.
  intros _ _.
  assert (E1' : SFcompare (Prim2SF b) (Prim2SF a) = Some Eq)
    by (rewrite SFcompare_antisym, E1; reflexivity).
  rewrite (SFcompare_Eq_Lt_trans _ _ _ E1' E2). reflexivity.
Qed.

Lemma dle_not_nan (a b : double) :
  dle a b = true -> deq a a = true /\ deq b b = true.
Proof.
  unfold dle, deq. rewrite leb_spec, !FloatAxioms.eqb_spec. unfold SFleb, SFeqb.
  destruct (SFcompare (Prim2SF a) (Prim2SF b)) as [c|] eqn:E; [|discriminate].
  intros _.
  assert (Ha : Prim2SF a <> S754_nan) by (intros Hn; rewrite Hn in E; discriminate E).
  assert (Hb : Prim2SF b <> S754_nan).
  { intros Hn. rewrite Hn in E. destruct (Prim2SF a); discriminate E. }
  rewrite (SFcompare_refl _ Ha), (SFcompare_refl _ Hb). auto.
Qed.

Lemma read_cells_fmap (cells : list double) (n : nat) :
  n <= length cells -> read_cells (Some <$> cells) n = Done (take n cells).
Proof.
  revert n. induction cells as [|x cells IH]; intros [|n] Hn; simpl in *;
    try reflexivity; try lia.
  rewrite IH by lia. reflexivity.
Qed.

(** What the search returns: the cells before the index are below the
    value, the cell at the index is not. *)
Lemma tsk_search_sorted_spec (a : list double) (value : double) :
  tsk_search_sorted a value <= length a
  /\ (forall i x, i < tsk_search_sorted a value -> a !! i = Some x -> dlt x value = true)
  /\ (forall x, a !! tsk_search_sorted a value = Some x -> dlt x value = false).
Proof.
  induction a as [|y a (IH1 & IH2 & IH3)]; simpl.
  - split; [lia|]. split; [intros i x Hi; lia|]. intros x Hx. discriminate Hx.
  - destruct (dlt y value) eqn:E; simpl.
    + split; [lia|]. split.
      * intros [|i] x Hi Hx; simpl in Hx; [congruence|]. apply (IH2 i x); [lia|exact Hx].
      * exact IH3.
    + split; [lia|]. split; [intros i x Hi; lia|]. intros x Hx. congruence.
Qed.

Section Segments.

Context {P : Platform}.

(** X17: on a map whose breakpoints, the sentinel included, increase, the
    loop over an edge starts in the segment that holds the left end of the
    edge: for a left end from the first breakpoint on and below the
    sentinel, the search and the step back give an index [k] of the map
    with [position[k] <= left < position[k + 1]]. *)
Theorem first_segment_contains (self : mutgen_t) (cells : list double)
    (left p0 sentinel : double) :
  map_sorted self cells ->
  cells !! 0 = Some p0 -> dle p0 left = true ->
  cells !! map_size (mutation_map self) = Some sentinel -> dlt left sentinel = true ->
  exists k a b,
    first_segment self left = Done k
    /\ k < map_size (mutation_map self)
    /\ cells !! k = Some a /\ cells !! (k + 1) = Some b
    /\ dle a left = true /\ dlt left b = true.
Proof.
  intros (Hmp & Hlen & Hsorted) H0 Hp0 Hs Hls.
  set (size := map_size (mutation_map self)) in *.
  destruct (tsk_search_sorted_spec (take size cells) left) as (Hle & Hbelow & Hat).
  set (idx := tsk_search_sorted (take size cells) left) in *.
  rewrite length_take in Hle.
  assert (Hidx : idx <= size) by lia.
  destruct (lookup_lt_is_Some_2 cells idx ltac:(lia)) as [p Hp].
  assert (Hfs : first_segment self left
                = if dgt p left then (if idx =? 0 then Crash else Done (idx - 1))
                  else Done idx).
  { unfold first_segment. rewrite Hmp. simpl. unbind.
    rewrite read_cells_fmap by (fold size; lia). fold size. fold idx.
    unfold load_cell, block. rewrite list_lookup_fmap, Hp. reflexivity. }
  rewrite Hfs.
  destruct (dlt_not_nan _ _ Hls) as [Hleft _].
  destruct (dgt p left) eqn:Hgt.
  - destruct (Nat.eqb_spec idx 0) as [E|E].
    { exfalso. rewrite E in Hp. assert (p = p0) by congruence. subst p.
      rewrite (dle_not_dgt _ _ Hp0) in Hgt. discriminate Hgt. }
    destruct (lookup_lt_is_Some_2 cells (idx - 1) ltac:(lia)) as [a Ha].
    exists (idx - 1), a, p. split; [reflexivity|]. split; [lia|].
    split; [exact Ha|]. split; [replace (idx - 1 + 1) with idx by lia; exact Hp|].
    split; [|exact Hgt].
    apply dlt_dle, (Hbelow (idx - 1) a); [lia|].
    rewrite lookup_take_lt by lia. exact Ha.
  - assert (Hlt : idx < size).
    { destruct (Nat.eq_dec idx size) as [E|E]; [|lia]. exfalso.
      rewrite E in Hp. assert (p = sentinel) by congruence. subst p.
      rewrite dgt_dlt, Hls in Hgt. discriminate Hgt. }
    destruct (lookup_lt_is_Some_2 cells (idx + 1) ltac:(lia)) as [b Hb].
    assert (Hpb : dlt p b = true).
    { exact (StronglySorted_lookup _ _ Hsorted idx (idx + 1) p b ltac:(lia) Hp Hb). }
    assert (Hnl : dlt p left = false).
    { apply Hat. rewrite lookup_take_lt by lia. exact Hp. }
    destruct (dlt_not_nan _ _ Hpb) as [Hpp _].
    assert (Heq : deq p left = true).
    { destruct (not_dlt_deq p left Hnl Hgt) as [H|[H|H]]; [exact H|congruence..]. }
    exists idx, p, b. split; [reflexivity|]. split; [exact Hlt|].
    split; [exact Hp|]. split; [exact Hb|].
    split; [apply deq_dle, Heq | exact (deq_dlt_trans _ _ _ Heq Hpb)].
Qed.


Lemma generate_segments_done (fuel : nat) (self : mutgen_t) (g : gsl_rng)
    (child : node_id_t) (left right_end bl : double) (types : list mutation_type_t)
    (right : double) (map_index : nat) :
  dne right right_end = false ->
  generate_segments fuel self g child left right_end bl types right map_index
  = Done (MSP_OK, self, g).
Proof. intros H. destruct fuel; simpl; rewrite H; reflexivity. Qed.

(** X18: an edge whose right end is not beyond the end of the segment its
    left end lies in takes one round of the loop over the segments: one
    Poisson draw of mean [branch_length * (right - left) * rate[k]], and
    then that many mutations on [[left, right)]. *)
Theorem generate_edge_one_segment (fuel : nat) (self : mutgen_t) (g : gsl_rng)
    (tables : tsk_table_collection_t) (types : list mutation_type_t) (j k : nat)
    (left right_end child_time parent_time p r : double) (parent child : node_id_t)
    (mp mr : block) :
  edge_left (tc_edges tables) !! j = Some left ->
  edge_right (tc_edges tables) !! j = Some right_end ->
  edge_parent (tc_edges tables) !! j = Some parent ->
  edge_child (tc_edges tables) !! j = Some child ->
  node_time (tc_nodes tables) !! Z.to_nat child = Some child_time ->
  node_time (tc_nodes tables) !! Z.to_nat parent = Some parent_time ->
  (0 <= child)%Z -> (0 <= parent)%Z ->
  first_segment self left = Done k ->
  map_position (mutation_map self) = Some mp ->
  map_rate (mutation_map self) = Some mr ->
  mp !! (k + 1) = Some (Some p) ->
  mr !! k = Some (Some r) ->
  dne 0%float right_end = true ->
  dle right_end p = true ->
  generate_edge (S fuel) self g tables types j
  = let branch_length := (GSL_MIN_dbl (end_time self) parent_time
                          - GSL_MAX_dbl (start_time self) child_time)%float in
    let right := GSL_MIN_dbl right_end p in
    let '(n, g1) := gsl_ran_poisson g (branch_length * (right - left) * r)%float in
    generate_mutations (S fuel) n self g1 child left right types.
Proof.
  intros El Er Ep Ec Etc Etp Hc Hpar Hk Hmp Hmr Hp Hr Hne Hle.
  rewrite (generate_edge_first_segment (S fuel) self g tables types j k left right_end
             child_time parent_time parent child El Er Ep Ec Etc Etp Hk Hc Hpar).
  rewrite (generate_segments_round fuel self g child left right_end _ types 0%float k
             mp mr p r Hne Hmp Hmr Hp Hr).
  cbv zeta.
  destruct (gsl_ran_poisson g _) as [n g1].
  unbind.
  destruct (generate_mutations (S fuel) n self g1 child left _ types)
    as [[[ret s1] g2]| |]; try reflexivity.
  destruct ret; simpl; try reflexivity.
  apply generate_segments_done, dle_min_eq, Hle.
Qed.

(** X19: on an edge that crosses one breakpoint [p] the loop over the
    segments makes two rounds and leaves [left] where it was: the second
    round asks for the mean [branch_length * (right - left) * rate[k + 1]]
    and draws its positions on [[left, right)], with [left] the left end
    of the edge, not [p]. *)
Theorem generate_edge_two_segments (fuel : nat) (self : mutgen_t) (g : gsl_rng)
    (tables : tsk_table_collection_t) (types : list mutation_type_t) (j k : nat)
    (left right_end child_time parent_time p r p2 r2 : double)
    (parent child : node_id_t) (mp mr : block) :
  edge_left (tc_edges tables) !! j = Some left ->
  edge_right (tc_edges tables) !! j = Some right_end ->
  edge_parent (tc_edges tables) !! j = Some parent ->
  edge_child (tc_edges tables) !! j = Some child ->
  node_time (tc_nodes tables) !! Z.to_nat child = Some child_time ->
  node_time (tc_nodes tables) !! Z.to_nat parent = Some parent_time ->
  (0 <= child)%Z -> (0 <= parent)%Z ->
  first_segment self left = Done k ->
  map_position (mutation_map self) = Some mp ->
  map_rate (mutation_map self) = Some mr ->
  mp !! (k + 1) = Some (Some p) -> mr !! k = Some (Some r) ->
  mp !! (k + 2) = Some (Some p2) -> mr !! (k + 1) = Some (Some r2) ->
  dne 0%float right_end = true ->
  dlt p right_end = true ->
  dle right_end p2 = true ->
  generate_edge (S (S fuel)) self g tables types j
  = let branch_length := (GSL_MIN_dbl (end_time self) parent_time
                          - GSL_MAX_dbl (start_time self) child_time)%float in
    let '(n1, g1) := gsl_ran_poisson g (branch_length * (p - left) * r)%float in
    '(ret, self1, g2) ← generate_mutations (S (S fuel)) n1 self g1 child left p types;
    if negb (is_ok ret) then Done (ret, self1, g2)
    else
      let right := GSL_MIN_dbl right_end p2 in
      let '(n2, g3) :=
        gsl_ran_poisson g2 (branch_length * (right - left) * r2)%float in
      generate_mutations (S fuel) n2 self1 g3 child left right types.
Proof.
  intros El Er Ep Ec Etc Etp Hc Hpar Hk Hmp Hmr Hp Hr Hp2 Hr2 Hne Hlt Hle.
  rewrite (generate_edge_first_segment (S (S fuel)) self g tables types j k left
             right_end child_time parent_time parent child El Er Ep Ec Etc Etp Hk Hc
             Hpar).
  rewrite (generate_segments_round (S fuel) self g child left right_end _ types 0%float
             k mp mr p r Hne Hmp Hmr Hp Hr).
  cbv zeta.
  assert (Hmin : GSL_MIN_dbl right_end p = p).
  { unfold GSL_MIN_dbl. pose proof (dlt_not_dge _ _ Hlt) as Hge.
    destruct (dlt right_end p) eqn:E; [|reflexivity].
    pose proof (dlt_trans _ _ _ Hlt E) as Hcc. rewrite dlt_irrefl in Hcc.
    discriminate Hcc. }
  rewrite Hmin.
  destruct (gsl_ran_poisson g _) as [n1 g1].
  unbind.
  destruct (generate_mutations (S (S fuel)) n1 self g1 child left p types)
    as [[[ret s1] g2]| |] eqn:Em; try reflexivity.
  destruct (negb (is_ok ret)) eqn:Hok; [reflexivity|].
  apply generate_mutations_trace in Em. destruct Em as ((_ & _ & _ & _ & Hmap) & _).
  assert (Hne2 : dne p right_end = true).
  { unfold dne. apply negb_true_iff. exact (dlt_not_deq _ _ Hlt). }
  rewrite Hmap in Hmp, Hmr.
  replace (k + 2) with (S k + 1) in Hp2 by lia.
  replace (k + 1) with (S k) in Hr2 by lia.
  rewrite (generate_segments_round fuel s1 g2 child left right_end _ types p (S k)
             mp mr p2 r2 Hne2 Hmp Hmr Hp2 Hr2).
  cbv zeta.
  destruct (gsl_ran_poisson g2 _) as [n2 g3].
  unbind.
  destruct (generate_mutations (S fuel) n2 s1 g3 child left _ types)
    as [[[ret2 s2] g4]| |]; try reflexivity.
  destruct ret2; simpl; try reflexivity.
  apply generate_segments_done, dle_min_eq, Hle.
Qed.

End Segments.

Lemma first_segment_contains_witness :
  exists a b,
    first_segment two_segment_mutgen 5%float = Done 1
    /\ [0%float; 4%float; 10%float] !! 1 = Some a
    /\ [0%float; 4%float; 10%float] !! 2 = Some b
    /\ dle a 5%float = true /\ dlt 5%float b = true.
Proof.
  assert (Hm : map_sorted two_segment_mutgen [0%float; 4%float; 10%float]).
  { split; [reflexivity|]. split; [reflexivity|].
    repeat constructor. }
  destruct (first_segment_contains two_segment_mutgen [0%float; 4%float; 10%float]
              5%float 0%float 10%float Hm eq_refl eq_refl eq_refl eq_refl)
    as (k & a & b & Hk & _ & Ha & Hb & Hle & Hlt).
  assert (k = 1) as -> by (vm_compute in Hk; congruence).
  exists a, b. auto.
Defined.

Lemma generate_edge_one_segment_witness :
  @generate_edge (scripted 8 8) 4 two_segment_mutgen (script [1; 2; 0])
    inner_edge_tables binary_mutation_types 0
  = (let '(n, g1) := script_poisson (script [1; 2; 0]) 2%float in
     @generate_mutations (scripted 8 8) 4 n two_segment_mutgen g1 0%Z 1%float 3%float
       binary_mutation_types).
Proof.
  exact (@generate_edge_one_segment (scripted 8 8) 3 two_segment_mutgen
           (script [1; 2; 0]) inner_edge_tables binary_mutation_types 0 0
           1%float 3%float 0%float 1%float 4%float 1%float 1%Z 0%Z
           [Some 0%float; Some 4%float; Some 10%float] [Some 1%float; Some 2%float]
           eq_refl eq_refl eq_refl eq_refl eq_refl eq_refl
           ltac:(lia) ltac:(lia) eq_refl eq_refl eq_refl eq_refl eq_refl eq_refl
           eq_refl).
Defined.

Lemma generate_edge_two_segments_witness :
  exists mean1 mean2,
    @generate_edge (scripted 8 8) 4 two_segment_mutgen (script [0; 0])
      plain_tables binary_mutation_types 0
    = Done (MSP_OK, two_segment_mutgen,
            {| answers := []; poisson_means := [mean1; mean2] |})
    /\ mean1 = 4%float /\ mean2 = 20%float.
Proof.
  exists 4%float, 20%float. split; [|split; reflexivity].
  rewrite (@generate_edge_two_segments (scripted 8 8) 2 two_segment_mutgen
             (script [0; 0]) plain_tables binary_mutation_types 0 0
             0%float 10%float 0%float 1%float 4%float 1%float 10%float 2%float
             1%Z 0%Z
             [Some 0%float; Some 4%float; Some 10%float] [Some 1%float; Some 2%float]
             eq_refl eq_refl eq_refl eq_refl eq_refl eq_refl
             ltac:(lia) ltac:(lia) eq_refl eq_refl eq_refl eq_refl eq_refl eq_refl
             eq_refl eq_refl eq_refl eq_refl).
  vm_compute. reflexivity.
Defined.

(** ** A pass that keeps the sites and draws nothing *)









Section RoundTrip.
Context {P : Platform}.








End RoundTrip.



(** ** The tables a pass leaves *)

Lemma check_integrity_iff (tables : tsk_table_collection_t) :
  tsk_table_collection_check_integrity tables = None
  <-> columns_ok tables = true
      /\ forallb (node_in_bounds (node_num_rows (tc_nodes tables)))
           (edge_parent (tc_edges tables)) = true
      /\ forallb (node_in_bounds (node_num_rows (tc_nodes tables)))
           (edge_child (tc_edges tables)) = true
      /\ forallb (node_in_bounds (node_num_rows (tc_nodes tables)))
           (mutation_node (tc_mutations tables)) = true
      /\ site_table_ok (tc_sites tables)
      /\ offsets_ok (mutation_num_rows (tc_mutations tables))
           (mutation_derived_state_offset (tc_mutations tables))
           (length (mutation_derived_state (tc_mutations tables))) = true
      /\ offsets_ok (mutation_num_rows (tc_mutations tables))
           (mutation_metadata_offset (tc_mutations tables))
           (length (mutation_metadata (tc_mutations tables))) = true.
Proof.
  unfold tsk_table_collection_check_integrity, site_table_ok.
  destruct (columns_ok tables); simpl; [|split; [discriminate | intros [? _]; discriminate]].
  destruct (forallb _ (edge_parent _)); simpl;
    [|split; [discriminate | intros (_ & ? & _); discriminate]].
  destruct (forallb _ (edge_child _)); simpl;
    [|split; [discriminate | intros (_ & _ & ? & _); discriminate]].
  destruct (forallb _ (mutation_node _)); simpl;
    [|split; [discriminate | intros (_ & _ & _ & ? & _); discriminate]].
  destruct (offsets_ok _ (site_ancestral_state_offset _) _); simpl;
    [|split; [discriminate | intros (_ & _ & _ & _ & (? & _) & _); discriminate]].
  destruct (offsets_ok _ (site_metadata_offset _) _); simpl;
    [|split; [discriminate | intros (_ & _ & _ & _ & (_ & ?) & _); discriminate]].
  destruct (offsets_ok _ (mutation_derived_state_offset _) _); simpl;
    [|split; [discriminate | intros (_ & _ & _ & _ & _ & ? & _); discriminate]].
  destruct (offsets_ok _ (mutation_metadata_offset _) _); simpl;
    [|split; [discriminate | intros (_ & _ & _ & _ & _ & _ & ?); discriminate]].
  split; [intros _; repeat split | reflexivity].
Qed.

Lemma offsets_sorted_snoc (offset : list nat) (x : nat) :
  offsets_sorted offset = true ->
  (forall a, last offset = Some a -> a <= x) ->
  offsets_sorted (offset ++ [x]) = true.
Proof.
  induction offset as [|a [|b r] IH]; intros Hs Hl; [reflexivity| |].
  - simpl. rewrite andb_true_r. apply Nat.leb_le. apply Hl. reflexivity.
  - change (offsets_sorted (a :: b :: r))
      with ((a <=? b) && offsets_sorted (b :: r)) in Hs.
    apply andb_true_iff in Hs. destruct Hs as [Hab Hs].
    change (offsets_sorted ((a :: b :: r) ++ [x]))
      with ((a <=? b) && offsets_sorted ((b :: r) ++ [x])).
    rewrite Hab. simpl. apply IH; [exact Hs|].
    intros c Hc. apply Hl. rewrite last_cons_cons. exact Hc.
Qed.

Lemma offsets_ok_snoc (n : nat) (offset : list nat) (column row : list byte) :
  offsets_ok n offset (length column) = true ->
  offsets_ok (S n) (offset ++ [length (column ++ row)]) (length (column ++ row)) = true.
Proof.
  unfold offsets_ok. rewrite !andb_true_iff.
  intros [[[Hl H0] Hn] Hs].
  apply Nat.eqb_eq in Hl. apply bool_decide_eq_true in H0, Hn.
  repeat split.
  - apply Nat.eqb_eq. rewrite length_app. simpl. lia.
  - apply bool_decide_eq_true. rewrite lookup_app_l by lia. exact H0.
  - apply bool_decide_eq_true. rewrite lookup_app_r by lia.
    replace (S n - length offset) with 0 by lia. reflexivity.
  - apply offsets_sorted_snoc; [exact Hs|]. intros a Ha.
    rewrite last_lookup in Ha. replace (Init.Nat.pred (length offset)) with n in Ha by lia.
    rewrite Hn in Ha. injection Ha as <-. rewrite length_app. lia.
Qed.

Section OutputTables.
Context {P : Platform}.

Lemma tsk_site_table_add_row_ok (t t' : tsk_site_table_t) (pos : double)
    (a m : list byte) (r : tsk_err + site_id_t) :
  site_table_ok t ->
  tsk_site_table_add_row t pos a m = (r, t') ->
  site_table_ok t'.
Proof.
  intros [H1 H2]. unfold tsk_site_table_add_row.
  destruct (tsk_max_rows <=? site_num_rows t); intros [= <- <-]; [split; assumption|].
  unfold site_table_ok, site_num_rows in *. simpl.
  replace (length (site_position t ++ [pos])) with (S (length (site_position t)))
    by (rewrite length_app; simpl; lia).
  split; apply offsets_ok_snoc; assumption.
Qed.

Lemma tsk_mutation_table_add_row_ok (t t' : tsk_mutation_table_t) (site : site_id_t)
    (node : node_id_t) (parent : mutation_id_t) (d m : list byte)
    (r : tsk_err + mutation_id_t) :
  mutation_table_ok t ->
  id_in_range parent = true ->
  tsk_mutation_table_add_row t site node parent d m = (r, t') ->
  mutation_table_ok t'.
Proof.
  intros (Hn & Hp & H1 & H2 & Hr) Hpar. unfold tsk_mutation_table_add_row.
  destruct (tsk_max_rows <=? mutation_num_rows t); intros [= <- <-];
    [repeat split; assumption|].
  unfold mutation_table_ok, mutation_num_rows in *. simpl.
  replace (length (mutation_site t ++ [site])) with (S (length (mutation_site t)))
    by (rewrite length_app; simpl; lia).
  split; [rewrite length_app; simpl; lia|].
  split; [rewrite length_app; simpl; lia|].
  split; [apply offsets_ok_snoc; assumption|].
  split; [apply offsets_ok_snoc; assumption|].
  rewrite forallb_app. apply andb_true_iff. split; [exact Hr|].
  simpl. rewrite Hpar. reflexivity.
Qed.

Lemma populate_mutations_ok (ms : list tsk_mutation_t) :
  forall site_id mt nm ret mt' nm',
    mutation_table_ok mt ->
    populate_mutations ms site_id mt nm = (ret, mt', nm') ->
    mutation_table_ok mt'.
Proof.
  induction ms as [|m ms IH]; intros sid mt nm ret mt' nm' Hok; simpl.
  - intros [= <- <- <-]. exact Hok.
  - destruct (tsk_mutation_table_add_row mt sid (mut_node m) _ _ _) as [r mt1] eqn:E.
    apply (tsk_mutation_table_add_row_ok _ _ _ _ _ _ _ _ Hok) in E.
    + destruct r as [e|id].
      * intros [= <- <- <-]. exact E.
      * apply IH. exact E.
    + destruct (Z.eqb_spec (mut_parent m) TSK_NULL) as [->|_];
        [reflexivity | apply wrap_id_range].
Qed.

Lemma populate_sites_ok (tree : list tsk_site_t) :
  forall st mt nm ret st' mt',
    site_table_ok st -> mutation_table_ok mt ->
    populate_sites tree st mt nm = (ret, st', mt') ->
    site_table_ok st' /\ mutation_table_ok mt'.
Proof.
  induction tree as [|s tree IH]; intros st mt nm ret st' mt' Hs Hm; simpl.
  - intros [= <- <- <-]. split; assumption.
  - destruct (tsk_site_table_add_row st (position s) _ _) as [r st1] eqn:E.
    apply (tsk_site_table_add_row_ok _ _ _ _ _ _ Hs) in E.
    destruct r as [e|sid].
    + intros [= <- <- <-]. split; assumption.
    + destruct (populate_mutations (mutations s) sid mt nm) as [[r mt1] nm1] eqn:Em.
      apply (populate_mutations_ok _ _ _ _ _ _ _ Hm) in Em.
      destruct r; try (intros [= <- <- <-]; split; assumption).
      apply IH; assumption.
Qed.

Lemma generate_prologue_integrity (self self1 : mutgen_t)
    (tables : tsk_table_collection_t) (flags : Z) :
  generate_prologue self tables flags = Done (MSP_OK, self1) ->
  tsk_table_collection_check_integrity tables = None.
Proof.
  unfold generate_prologue.
  destruct (mutgen_init_allocator _ tables) as [ret0 self0].
  destruct (negb (is_ok ret0)) eqn:E0.
  { intros [= -> _]. discriminate E0. }
  destruct (tsk_table_collection_check_integrity tables); [discriminate | reflexivity].
Qed.

Lemma generated_site_nodes (tables : tsk_table_collection_t)
    (types : list mutation_type_t) (s : tsk_site_t) (m : tsk_mutation_t) :
  generated_on tables types s -> m ∈ mutations s ->
  node_in_bounds (node_num_rows (tc_nodes tables)) (mut_node m) = true.
Proof.
  intros (j & lft & re & child & mt & _ & _ & _ & Hb & _ & Hs & _) Hm.
  rewrite Hs in Hm. simpl in Hm. apply list_elem_of_singleton in Hm. subst m.
  exact Hb.
Qed.

Lemma imported_site_nodes (tables : tsk_table_collection_t) (k start : nat)
    (s : tsk_site_t) (m : tsk_mutation_t) :
  forallb (node_in_bounds (node_num_rows (tc_nodes tables)))
    (mutation_node (tc_mutations tables)) = true ->
  imports_site tables k start s -> m ∈ mutations s ->
  node_in_bounds (node_num_rows (tc_nodes tables)) (mut_node m) = true.
Proof.
  intros Hall (_ & _ & _ & _ & Hrows) Hm.
  apply list_elem_of_lookup_1 in Hm. destruct Hm as (j & Hj).
  destruct (Hrows j m Hj) as (_ & Hn & _).
  rewrite forallb_forall in Hall. apply Hall.
  apply list_elem_of_In. exact (list_elem_of_lookup_2 _ _ _ Hn).
Qed.

Lemma mutgen_generate_output_checked (fuel : nat) (self self' : mutgen_t)
    (g g' : gsl_rng) (tables tables' : tsk_table_collection_t) (flags : Z) :
  mutgen_generate fuel self g tables flags = Done (MSP_OK, self', g', tables') ->
  tsk_table_collection_check_integrity tables' = None.
Proof.
  intros H.
  pose proof (mutgen_generate_export _ _ _ _ _ _ _ _ H) as Hexp.
  pose proof (mutgen_generate_trace _ _ _ _ _ _ _ _ _ H)
    as (imported & generated & Hins & _ & _ & Himp & Hgen).
  apply insert_all_perm in Hins. rewrite app_nil_r in Hins.
  apply mutgen_generate_inv in H.
  destruct H as [(Hne & _)|(self1 & Hp & Hb)]; [congruence|].
  apply generate_prologue_integrity in Hp.
  apply check_integrity_iff in Hp.
  destruct Hp as (Hcol & Hep & Hec & Hmn & _).
  apply generate_body_inv in Hb. destruct Hb as (ret_s & _ & Hcase).
  destruct Hcase as [(Hns & Heq & _)|(_ & st & mt & _ & ->)]; [congruence|].
  cbn [tc_sites tc_mutations set_site_mutation_tables] in Hexp.
  destruct (populate_sites_columns _ _ _ _ _ _ Hexp) as (_ & _ & Hnodes).
  simpl in Hnodes.
  assert (Hok : site_table_ok st /\ mutation_table_ok mt).
  { apply (populate_sites_ok _ _ _ _ _ _ _) with (3 := Hexp); repeat split. }
  destruct Hok as [Hst (Hln & Hlp & Hd & Hm & Hpr)].
  assert (Hb : forallb (node_in_bounds (node_num_rows (tc_nodes tables)))
                 (mutation_node mt) = true).
  { rewrite Hnodes. apply forallb_forall. intros n Hn.
    apply list_elem_of_In, list_elem_of_fmap in Hn. destruct Hn as (m & -> & Hm').
    unfold emitted_mutations in Hm'. apply list_elem_of_In, in_concat in Hm'.
    destruct Hm' as (ms & Hms & Hm'). apply list_elem_of_In in Hms, Hm'.
    apply list_elem_of_fmap in Hms.
    destruct Hms as (s & -> & Hs). rewrite Hins in Hs.
    apply elem_of_app in Hs. destruct Hs as [Hs|Hs].
    - apply list_elem_of_lookup_1 in Hs. destruct Hs as (k & Hk).
      exact (imported_site_nodes _ _ _ _ _ Hmn (Himp k s Hk) Hm').
    - rewrite Forall_forall in Hgen.
      exact (generated_site_nodes _ _ _ _ (Hgen s Hs) Hm'). }
  apply check_integrity_iff. simpl.
  split; [|split; [exact Hep|split; [exact Hec|split; [exact Hb|]]]].
  - unfold columns_ok in *. simpl. rewrite !andb_true_iff in *.
    destruct Hcol as [[[[[H1 H2] H3] _] _] _].
    unfold mutation_num_rows in *. rewrite Hln, Hlp, !Nat.eqb_refl. auto 10.
  - split; [exact Hst|]. split; assumption.
Qed.

(** X21: the tables a successful [generate] leaves pass the check [generate]
    applies to its input: the offsets of the text columns are consistent,
    every column of the mutation table has one entry per row, and every
    node of a mutation is a node of the node table. *)
Theorem mutgen_generate_output_integrity (fuel : nat) (self self' : mutgen_t)
    (g g' : gsl_rng) (tables tables' : tsk_table_collection_t) (flags : Z) :
  mutgen_generate fuel self g tables flags = Done (MSP_OK, self', g', tables') ->
  tsk_table_collection_check_integrity tables' = None
  /\ Forall (fun n => (0 <= n < Z.of_nat (node_num_rows (tc_nodes tables')))%Z)
       (mutation_node (tc_mutations tables'))
  /\ length (mutation_node (tc_mutations tables'))
     = mutation_num_rows (tc_mutations tables')
  /\ length (mutation_parent (tc_mutations tables'))
     = mutation_num_rows (tc_mutations tables').
Proof.
  intros H. apply mutgen_generate_output_checked in H.
  split; [exact H|]. apply check_integrity_iff in H.
  destruct H as (Hcol & _ & _ & Hb & _).
  unfold columns_ok in Hcol. rewrite !andb_true_iff in Hcol.
  destruct Hcol as [[[_ Hn] Hp] _]. apply Nat.eqb_eq in Hn, Hp.
  split; [|split; assumption].
  apply Forall_forall. intros n Hn'.
  rewrite forallb_forall in Hb. apply list_elem_of_In, Hb in Hn'.
  unfold node_in_bounds in Hn'. apply andb_true_iff in Hn'. lia.
Qed.

End OutputTables.

Lemma mutgen_generate_output_integrity_witness :
  tsk_table_collection_check_integrity keep_run_tables = None
  /\ mutation_num_rows (tc_mutations keep_run_tables) = 3.
Proof.
  destruct (@mutgen_generate_output_integrity (scripted 8 8) 4 fresh_mutgen
              keep_run_self (script [1; 2; 0]) keep_run_rng keep_tables
              keep_run_tables 1 keep_run_Done) as (H & _).
  split; [exact H | reflexivity].
Defined.

(** ** The codes a pass returns *)

Section ReturnCodes.
Context {P : Platform}.











End ReturnCodes.



